(** * kube-sentry-events: filter, deduplicator, deployment grouping, watcher
      pipeline and configuration loading

    A shallow embedding of the Go sources

      - [internal/dedup]   (Deduplicator: New, Check, GetStats, addEntry,
                            cleanup, Size),
      - [internal/filter]  (Filter: New, ShouldProcess, MeetsThreshold,
                            GetThreshold, GetSeverity),
      - [internal/sentry]  (ExtractDeploymentName, isAlphanumeric, the issue
                            of Sender.Send, the output of DryRunSender.Send),
      - [internal/watcher] (processEvent, ListOnce, watchEvents),
      - [internal/config]  (Load, parseThreshold, splitAndTrim, the defaults),
      - [cmd/kube-sentry-events] (the start of main),

    followed by the properties the specification states about them and by
    further properties of the code.

    Conventions.  A Go [string] is a sequence of bytes and is modelled by
    [string] (a list of 8-bit [ascii]); [len] is the number of bytes.  A Go
    [map] is a [gmap], a set encoded as [map[string]struct{}] is a [gset].
    Go's [int] is 64 bits wide on every target of the Makefile (amd64 and
    arm64) and is modelled by [Z] with the wrap-around written out where the
    code does arithmetic.  A [time.Time] is modelled by the integer number of
    nanoseconds of the instant and a [time.Duration] by its number of
    nanoseconds; [time.Now()] is an explicit argument [now]. *)

From Stdlib Require Import ZArith List Ascii String Lia Bool.
From stdpp Require Import gmap strings list fin_maps pretty.

Local Open Scope Z_scope.

(** ** Go's [int] *)

Module GoInt.

Definition MaxInt : Z := 2 ^ 63 - 1.
Definition MinInt : Z := - 2 ^ 63.

(** Two's complement reduction of an integer to the 64-bit range. *)
Definition wrap (z : Z) : Z := (z + 2 ^ 63) mod 2 ^ 64 - 2 ^ 63.

(** [x++] on an [int]. *)
Definition incr (x : Z) : Z := wrap (x + 1).

Definition in_range (z : Z) : Prop := MinInt <= z <= MaxInt.

End GoInt.

(** ** Go strings: the parts of [strings] and [unicode/utf8] the code uses *)

Module GoStrings.

(** The value of a byte. *)
Definition byte (c : ascii) : Z := Z.of_N (N_of_ascii c).

(** [len(s)]: the number of bytes. *)
Definition len (s : string) : Z := Z.of_nat (String.length s).

(** [s[n:]] *)
Fixpoint skip (n : nat) (s : string) : string :=
  match n, s with
  | O, _ => s
  | S _, EmptyString => EmptyString
  | S n', String _ rest => skip n' rest
  end.

(** [strings.Split(s, sep)] for a separator of one byte (the code splits on
    ["-"] and [","] only): the pieces between the occurrences of [sep]. *)
Fixpoint Split (s : string) (sep : ascii) : list string :=
  match s with
  | EmptyString => [EmptyString]
  | String c rest =>
      if Ascii.eqb c sep then EmptyString :: Split rest sep
      else match Split rest sep with
           | part :: parts => String c part :: parts
           | [] => [String c EmptyString]
           end
  end.

(** [strings.Cut(s, sep)] for a one-byte separator: the text before and
    after the first [sep]. *)
Fixpoint Cut (s : string) (sep : ascii) : option (string * string) :=
  match s with
  | EmptyString => None
  | String c rest =>
      if Ascii.eqb c sep then Some (EmptyString, rest)
      else match Cut rest sep with
           | Some (before, after) => Some (String c before, after)
           | None => None
           end
  end.

(** [strings.SplitN(s, sep, 2)] for a one-byte separator. *)
Definition SplitN2 (s : string) (sep : ascii) : list string :=
  match Cut s sep with
  | Some (before, after) => [before; after]
  | None => [s]
  end.

(** [strings.Join(elems, sep)] *)
Fixpoint Join (elems : list string) (sep : string) : string :=
  match elems with
  | [] => EmptyString
  | [e] => e
  | e :: rest => e +:+ sep +:+ Join rest sep
  end.

(** *** UTF-8 decoding ([utf8.DecodeRuneInString], used by [range]) *)

Definition RuneError : Z := 0xFFFD.

(** The table [first] of [unicode/utf8] for a leading byte [>= 0x80]:
    the size of the sequence and the range accepted for the second byte;
    [None] for a byte that cannot start a sequence. *)
Definition first (s0 : Z) : option (Z * Z * Z) :=
  if s0 <? 0xC2 then None
  else if s0 <? 0xE0 then Some (2, 0x80, 0xBF)
  else if s0 =? 0xE0 then Some (3, 0xA0, 0xBF)
  else if s0 <? 0xED then Some (3, 0x80, 0xBF)
  else if s0 =? 0xED then Some (3, 0x80, 0x9F)
  else if s0 <? 0xF0 then Some (3, 0x80, 0xBF)
  else if s0 =? 0xF0 then Some (4, 0x90, 0xBF)
  else if s0 <? 0xF4 then Some (4, 0x80, 0xBF)
  else if s0 =? 0xF4 then Some (4, 0x80, 0x8F)
  else None.

(** A continuation byte lies in [[0x80, 0xBF]]. *)
Definition continuation (b : Z) : bool := (0x80 <=? b) && (b <=? 0xBF).

(** [utf8.DecodeRuneInString(s)]: the first rune of [s] and its width in
    bytes; an invalid or truncated sequence gives [(RuneError, 1)]. *)
Definition DecodeRune (s : string) : Z * nat :=
  match s with
  | EmptyString => (RuneError, 0%nat)
  | String c0 t0 =>
      let s0 := byte c0 in
      if s0 <? 0x80 then (s0, 1%nat)
      else
        match first s0, t0 with
        | None, _ => (RuneError, 1%nat)
        | Some _, EmptyString => (RuneError, 1%nat)
        | Some (sz, lo, hi), String c1 t1 =>
            let s1 := byte c1 in
            if (s1 <? lo) || (hi <? s1) then (RuneError, 1%nat)
            else if sz <=? 2
            then (Z.lor (Z.shiftl (Z.land s0 0x1F) 6) (Z.land s1 0x3F), 2%nat)
            else
              match t1 with
              | EmptyString => (RuneError, 1%nat)
              | String c2 t2 =>
                  let s2 := byte c2 in
                  if negb (continuation s2) then (RuneError, 1%nat)
                  else if sz <=? 3
                  then (Z.lor (Z.lor (Z.shiftl (Z.land s0 0x0F) 12)
                                     (Z.shiftl (Z.land s1 0x3F) 6))
                              (Z.land s2 0x3F), 3%nat)
                  else
                    match t2 with
                    | EmptyString => (RuneError, 1%nat)
                    | String c3 _ =>
                        let s3 := byte c3 in
                        if negb (continuation s3) then (RuneError, 1%nat)
                        else (Z.lor (Z.lor (Z.lor (Z.shiftl (Z.land s0 0x07) 18)
                                                  (Z.shiftl (Z.land s1 0x3F) 12))
                                           (Z.shiftl (Z.land s2 0x3F) 6))
                                    (Z.land s3 0x3F), 4%nat)
                    end
              end
        end
  end.

(** *** [strings.TrimSpace] *)

Definition bytes (l : list nat) : string :=
  fold_right (fun n s => String (ascii_of_nat n) s) EmptyString l.

(** The UTF-8 encodings of the code points with the White_Space property
    ([unicode.IsSpace]): U+0009..U+000D, U+0020, U+0085, U+00A0, U+1680,
    U+2000..U+200A, U+2028, U+2029, U+202F, U+205F, U+3000. *)
Definition spaces : list string :=
  map bytes
    [ [9]; [10]; [11]; [12]; [13]; [32];
      [0xC2; 0x85]; [0xC2; 0xA0]; [0xE1; 0x9A; 0x80];
      [0xE2; 0x80; 0x80]; [0xE2; 0x80; 0x81]; [0xE2; 0x80; 0x82];
      [0xE2; 0x80; 0x83]; [0xE2; 0x80; 0x84]; [0xE2; 0x80; 0x85];
      [0xE2; 0x80; 0x86]; [0xE2; 0x80; 0x87]; [0xE2; 0x80; 0x88];
      [0xE2; 0x80; 0x89]; [0xE2; 0x80; 0x8A]; [0xE2; 0x80; 0xA8];
      [0xE2; 0x80; 0xA9]; [0xE2; 0x80; 0xAF]; [0xE2; 0x81; 0x9F];
      [0xE3; 0x80; 0x80] ]%nat.

(** [s] without the prefix [p], when it starts with it. *)
Fixpoint strip_prefix (p s : string) : option string :=
  match p, s with
  | EmptyString, _ => Some s
  | String _ _, EmptyString => None
  | String a p', String b s' =>
      if Ascii.eqb a b then strip_prefix p' s' else None
  end.

(** [s] without its first rune when that rune is white space. *)
Definition strip_space (s : string) : option string :=
  fold_right (fun sp acc => match strip_prefix sp s with
                            | Some rest => Some rest
                            | None => acc
                            end) None spaces.

Fixpoint TrimLeft_loop (fuel : nat) (s : string) : string :=
  match fuel with
  | O => s
  | S fuel' => match strip_space s with
               | Some rest => TrimLeft_loop fuel' rest
               | None => s
               end
  end.

(** [strings.TrimLeftFunc(s, unicode.IsSpace)]; every step removes at least
    one byte, so [length s] steps are enough. *)
Definition TrimLeftSpace (s : string) : string :=
  TrimLeft_loop (String.length s) s.

Definition rev_string (s : string) : string :=
  string_of_list_ascii (rev (list_ascii_of_string s)).

(** [s] without its last rune when that rune is white space. *)
Definition strip_space_end (s : string) : option string :=
  fold_right (fun sp acc => match strip_prefix (rev_string sp) (rev_string s) with
                            | Some rest => Some (rev_string rest)
                            | None => acc
                            end) None spaces.

Fixpoint TrimRight_loop (fuel : nat) (s : string) : string :=
  match fuel with
  | O => s
  | S fuel' => match strip_space_end s with
               | Some rest => TrimRight_loop fuel' rest
               | None => s
               end
  end.

(** [strings.TrimRightFunc(s, unicode.IsSpace)] *)
Definition TrimRightSpace (s : string) : string :=
  TrimRight_loop (String.length s) s.

(** [strings.TrimSpace(s)] *)
Definition TrimSpace (s : string) : string :=
  TrimRightSpace (TrimLeftSpace s).

End GoStrings.

(** ** Package [dedup] *)

Module Dedup.

Definition Time := Z.
Definition Duration := Z.

(** [const MaxEntries = 10000] *)
Definition MaxEntries : Z := 10000.

(** [type entry struct] *)
Record entry : Type := mkEntry {
  key : string;
  expiresAt : Time;
  count : Z;
  firstSeen : Time;
  lastSeen : Time
}.

(** [type Deduplicator struct].  The mutex serialises every method, so each
    method below is one atomic transition of the state; [entries] holds
    pointers to entries that no other structure refers to, hence updating
    the entry behind the pointer is updating the map at its key. *)
Record Deduplicator : Type := mkDedup {
  window : Duration;
  entries : gmap string entry;
  order : list string
}.

(** [func New(window time.Duration) *Deduplicator] *)
Definition New (w : Duration) : Deduplicator :=
  {| window := w; entries := ∅; order := [] |}.

(** [namespace + "/" + pod + "/" + reason] *)
Definition mkKey (namespace pod reason : string) : string :=
  namespace +:+ "/" +:+ pod +:+ "/" +:+ reason.

(** [t.Before(u)] and [t.Add(d)] on instants. *)
Definition Before (t u : Time) : bool := t <? u.
Definition Add (t : Time) (d : Duration) : Time := t + d.

(** The eviction loop of [addEntry]:
    [for len(d.entries) >= MaxEntries && len(d.order) > 0]. *)
Fixpoint evict (es : gmap string entry) (ord : list string)
  : gmap string entry * list string :=
  match ord with
  | [] => (es, [])
  | oldest :: rest =>
      if MaxEntries <=? Z.of_nat (size es)
      then evict (delete oldest es) rest
      else (es, ord)
  end.

(** [func (d *Deduplicator) addEntry(key string, now time.Time)] *)
Definition addEntry (d : Deduplicator) (k : string) (now : Time) : Deduplicator :=
  let '(es, ord) := evict (entries d) (order d) in
  let e := {| key := k; expiresAt := Add now (window d); count := 1;
              firstSeen := now; lastSeen := now |} in
  {| window := window d; entries := <[k := e]> es; order := ord ++ [k] |}.

(** The result of [Check]: [(isNew, count, firstSeen, lastSeen)]. *)
Definition CheckResult : Type := bool * Z * Time * Time.

(** [func (d *Deduplicator) Check(namespace, pod, reason string)], with the
    reading of the clock passed as [now]. *)
Definition Check (d : Deduplicator) (namespace pod reason : string) (now : Time)
  : Deduplicator * CheckResult :=
  let k := mkKey namespace pod reason in
  match entries d !! k with
  | Some e =>
      if Before now (expiresAt e) then
        let e' := {| key := key e; expiresAt := Add now (window d);
                     count := GoInt.incr (count e);
                     firstSeen := firstSeen e; lastSeen := now |} in
        ({| window := window d; entries := <[k := e']> (entries d);
            order := order d |},
         (false, count e', firstSeen e', lastSeen e'))
      else
        (addEntry {| window := window d; entries := delete k (entries d);
                     order := order d |} k now,
         (true, 1, now, now))
  | None => (addEntry d k now, (true, 1, now, now))
  end.

(** [func (d *Deduplicator) GetStats(namespace, pod, reason string)];
    the zero [time.Time] is returned as [0]. *)
Definition GetStats (d : Deduplicator) (namespace pod reason : string) (now : Time)
  : Z * Time * Time * bool :=
  match entries d !! mkKey namespace pod reason with
  | Some e => if Before now (expiresAt e)
              then (count e, firstSeen e, lastSeen e, true)
              else (0, 0, 0, false)
  | None => (0, 0, 0, false)
  end.

(** The loop of [cleanup] over [d.order]; [newOrder] is the slice built so
    far. *)
Fixpoint sweep (now : Time) (ord : list string) (es : gmap string entry)
  (newOrder : list string) : gmap string entry * list string :=
  match ord with
  | [] => (es, newOrder)
  | k :: rest =>
      match es !! k with
      | Some e =>
          if Before now (expiresAt e)
          then sweep now rest es (newOrder ++ [k])
          else sweep now rest (delete k es) newOrder
      | None => sweep now rest es newOrder
      end
  end.

(** [func (d *Deduplicator) cleanup()] *)
Definition cleanup (d : Deduplicator) (now : Time) : Deduplicator :=
  let '(es, newOrder) := sweep now (order d) (entries d) [] in
  {| window := window d; entries := es; order := newOrder |}.

(** [func (d *Deduplicator) Size() int] *)
Definition Size (d : Deduplicator) : Z := Z.of_nat (size (entries d)).

(** The operations that change a deduplicator: the [Check] calls of the
    watcher and the sweeps of [cleanupLoop], each with its clock reading. *)
Inductive op : Type :=
| OpCheck (namespace pod reason : string) (now : Time)
| OpCleanup (now : Time).

Definition step (d : Deduplicator) (o : op) : Deduplicator :=
  match o with
  | OpCheck namespace pod reason now => fst (Check d namespace pod reason now)
  | OpCleanup now => cleanup d now
  end.

(** The state after a sequence of operations, in the order in which they
    took the mutex. *)
Definition run (d : Deduplicator) (ops : list op) : Deduplicator :=
  fold_left step ops d.

End Dedup.

(** ** The fields of [corev1.Event] the code reads *)

Module K8s.

(** [corev1.ObjectReference] *)
Record ObjectReference : Type := mkObjectReference {
  Kind : string;
  ObjNamespace : string;
  Name : string
}.

(** [corev1.Event]; [Namespace] is [ObjectMeta.Namespace], [Count] is an
    [int32], [Type] is a string ("Normal" or "Warning"). *)
Record Event : Type := mkEvent {
  Namespace : string;
  InvolvedObject : ObjectReference;
  Reason : string;
  Message : string;
  Type_ : string;
  Count : Z
}.

Definition EventTypeNormal : string := "Normal".
Definition EventTypeWarning : string := "Warning".

End K8s.

(** ** Package [filter] *)

Module Filter.

Import K8s.

(** [sentry.Level] *)
Inductive Level : Type :=
| LevelDebug | LevelInfo | LevelWarning | LevelError | LevelFatal.

(** [type Filter struct] *)
Record Filter : Type := mkFilter {
  namespaces : gset string;
  excludeNamespaces : gset string;
  eventReasons : gset string;
  eventThresholds : gmap string Z;
  severityMap : gmap string Level
}.

(** [func toSet(slice []string) map[string]struct{}] *)
Definition toSet (slice : list string) : gset string :=
  fold_left (fun set s => {[ s ]} ∪ set) slice ∅.

(** [func defaultSeverityMap() map[string]sentry.Level] *)
Definition defaultSeverityMap : gmap string Level :=
  list_to_map
    [ ("OOMKilled", LevelError); ("CrashLoopBackOff", LevelError);
      ("FailedScheduling", LevelError); ("Evicted", LevelError);
      ("FailedMount", LevelError); ("FailedAttachVolume", LevelError);
      ("ImagePullBackOff", LevelError); ("ErrImagePull", LevelError);
      ("FailedCreate", LevelError);
      ("Unhealthy", LevelWarning); ("BackOff", LevelWarning);
      ("Killing", LevelWarning); ("NodeNotReady", LevelWarning);
      ("FailedSync", LevelWarning);
      ("NodeReady", LevelInfo) ].

(** [func New(namespaces, excludeNamespaces, eventReasons []string,
    thresholds map[string]int32) *Filter] *)
Definition New (nss excl reasons : list string) (thresholds : gmap string Z)
  : Filter :=
  {| namespaces := toSet nss;
     excludeNamespaces := toSet excl;
     eventReasons := toSet reasons;
     eventThresholds := thresholds;
     severityMap := defaultSeverityMap |}.

(** [func (f *Filter) ShouldProcess(event *corev1.Event) bool] *)
Definition ShouldProcess (f : Filter) (event : Event) : bool :=
  let ns := ObjNamespace (InvolvedObject event) in
  let ns := if bool_decide (ns = EmptyString) then Namespace event else ns in
  if (0 <? Z.of_nat (size (namespaces f)))
     && negb (bool_decide (ns ∈ namespaces f))
  then false
  else if bool_decide (ns ∈ excludeNamespaces f) then false
  else if negb (bool_decide (Reason event ∈ eventReasons f)) then false
  else if negb (bool_decide (Type_ event = EventTypeWarning)) then false
  else true.

(** [func (f *Filter) MeetsThreshold(event *corev1.Event) bool] *)
Definition MeetsThreshold (f : Filter) (event : Event) : bool :=
  match eventThresholds f !! Reason event with
  | None => true
  | Some threshold => threshold <=? Count event
  end.

(** [func (f *Filter) GetThreshold(reason string) int32] *)
Definition GetThreshold (f : Filter) (reason : string) : Z :=
  match eventThresholds f !! reason with
  | Some threshold => threshold
  | None => 1
  end.

(** [func (f *Filter) GetSeverity(reason string) sentry.Level] *)
Definition GetSeverity (f : Filter) (reason : string) : Level :=
  match severityMap f !! reason with
  | Some level => level
  | None => LevelWarning
  end.

End Filter.

(** ** Package [sentry]: the event handed to a sender, and the grouping of
       pods by deployment *)

Module Sentry.

Import GoStrings.

(** [type EventData struct] *)
Record EventData : Type := mkEventData {
  Event : K8s.Event;
  Severity : Filter.Level;
  Count : Z;
  FirstSeen : Dedup.Time;
  LastSeen : Dedup.Time;
  MeetsThreshold : bool
}.

(** The body of the loop of [isAlphanumeric] on one rune: [false] when the
    function returns [false] there. *)
Definition rune_ok (r : Z) : bool :=
  let isLower := (97 <=? r) && (r <=? 122) in
  let isDigit := (48 <=? r) && (r <=? 57) in
  negb (negb isLower && negb isDigit).

(** [for _, r := range s]: decode a rune, run the body, move on by the
    width of the rune. *)
Fixpoint isAlphanumeric_loop (fuel : nat) (s : string) : bool :=
  match fuel with
  | O => true
  | S fuel' =>
      match s with
      | EmptyString => true
      | String _ _ =>
          let '(r, width) := DecodeRune s in
          if rune_ok r then isAlphanumeric_loop fuel' (skip width s)
          else false
      end
  end.

(** [func isAlphanumeric(s string) bool]; a rune is at least one byte
    wide, so [length s] iterations reach the end of [s]. *)
Definition isAlphanumeric (s : string) : bool :=
  isAlphanumeric_loop (String.length s) s.

(** [func ExtractDeploymentName(podName string) string] *)
Definition ExtractDeploymentName (podName : string) : string :=
  let parts := Split podName "-" in
  if Z.of_nat (length parts) <? 3 then podName
  else
    let lastPart := default EmptyString (parts !! (length parts - 1)%nat) in
    let secondLastPart := default EmptyString (parts !! (length parts - 2)%nat) in
    if (len lastPart <=? 6) && (5 <=? len secondLastPart)
       && (len secondLastPart <=? 12)
    then
      if isAlphanumeric lastPart && isAlphanumeric secondLastPart
      then Join (take (length parts - 2) parts) "-"
      else podName
    else podName.

End Sentry.

(** ** Package [watcher] *)

Module Watcher.

(** What [processEvent] acts on: the deduplicator and the sender.  The
    sender is an interface with the single method [Send]; its state is the
    sequence of the [EventData] it was called with.  The calls of the
    logger change neither and are left out. *)
Record World : Type := mkWorld {
  dedup : Dedup.Deduplicator;
  sent : list Sentry.EventData
}.

(** [func (w *Watcher) processEvent(event *corev1.Event)], the clock read
    by [Check] passed as [now]. *)
Definition processEvent (f : Filter.Filter) (w : World) (event : K8s.Event)
  (now : Dedup.Time) : World :=
  if negb (Filter.ShouldProcess f event) then w
  else
    let namespace := K8s.ObjNamespace (K8s.InvolvedObject event) in
    let namespace :=
      if bool_decide (namespace = EmptyString) then K8s.Namespace event else namespace in
    let podName := K8s.Name (K8s.InvolvedObject event) in
    let reason := K8s.Reason event in
    let deployment := Sentry.ExtractDeploymentName podName in
    let severity := Filter.GetSeverity f reason in
    let meetsThreshold := Filter.MeetsThreshold f event in
    let '(d', (isNew, count, firstSeen, lastSeen)) :=
      Dedup.Check (dedup w) namespace deployment reason now in
    let shouldCreateIssue := meetsThreshold && isNew in
    {| dedup := d';
       sent := sent w ++
               [ {| Sentry.Event := event;
                    Sentry.Severity := severity;
                    Sentry.Count := count;
                    Sentry.FirstSeen := firstSeen;
                    Sentry.LastSeen := lastSeen;
                    Sentry.MeetsThreshold := shouldCreateIssue |} ] |}.

End Watcher.

(** ** The Go library behind [config.Load]: [fmt.Sscanf] and
       [time.ParseDuration] *)

Module GoFmt.

Import GoStrings.

(** What [fmt.Sscanf(s, "%d", &result)] gives back for an [int32] operand:
    the number of items scanned, whether an error is returned, and the
    value of [result] afterwards. *)
Record Scan : Type := mkScan {
  scan_n : Z;
  scan_err : bool;
  scan_result : Z
}.

(** Nothing scanned, an error, [result] left at zero. *)
Definition scan_failed : Scan :=
  {| scan_n := 0; scan_err := true; scan_result := 0 |}.

(** [SkipSpace] of the scanner of [Sscanf]: leading white space is read
    over, a newline is an error ([None]). *)
Fixpoint SkipSpace (fuel : nat) (s : string) : option string :=
  match fuel with
  | O => Some s
  | S fuel' =>
      match s with
      | EmptyString => Some s
      | String c _ =>
          if byte c =? 10 then None
          else match strip_space s with
               | Some rest => SkipSpace fuel' rest
               | None => Some s
               end
      end
  end.

Definition is_digit (c : ascii) : bool := (48 <=? byte c) && (byte c <=? 57).

(** The longest prefix of decimal digits, and what follows it. *)
Fixpoint digits (s : string) : string * string :=
  match s with
  | EmptyString => (EmptyString, EmptyString)
  | String c rest =>
      if is_digit c
      then let '(ds, after) := digits rest in (String c ds, after)
      else (EmptyString, s)
  end.

(** The number a string of decimal digits denotes. *)
Definition decimal (ds : string) : Z :=
  fold_left (fun acc c => acc * 10 + (byte c - 48)) (list_ascii_of_string ds) 0.

(** The sign the scanner accepts before the digits. *)
Definition sign (s : string) : Z * string :=
  match s with
  | String c rest =>
      if byte c =? 43 then (1, rest)
      else if byte c =? 45 then (-1, rest)
      else (1, s)
  | EmptyString => (1, s)
  end.

(** A model of [fmt.Sscanf(s, "%d", &result)] with [result] an [int32],
    after the documentation of package [fmt]: white space is skipped, an
    optional sign and the longest run of decimal digits are read, the
    number must fit 32 bits; input after the digits is not looked at. *)
Definition Sscanf_d (s : string) : Scan :=
  match SkipSpace (String.length s) s with
  | None => scan_failed
  | Some s1 =>
      let '(sgn, s2) := sign s1 in
      let '(ds, _) := digits s2 in
      if bool_decide (ds = EmptyString) then scan_failed
      else
        let v := sgn * decimal ds in
        if (- 2 ^ 31 <=? v) && (v <=? 2 ^ 31 - 1)
        then {| scan_n := 1; scan_err := false; scan_result := v |}
        else scan_failed
  end.

End GoFmt.

Module GoTime.

Definition Nanosecond : Z := 1.
Definition Second : Z := 1000000000 * Nanosecond.
Definition Minute : Z := 60 * Second.

(** [time.ParseDuration] on the strings for which this repository fixes its
    value: the default ["5m"] of [KUBE_SENTRY_DEDUP_WINDOW] and the values
    of the tests of package [config] ([TestLoad_DefaultValues],
    [TestLoad_CustomValues], [TestLoad_InvalidDedupWindow]).  It stands for
    the library function in the examples only; no other string is given to
    it there. *)
Definition ParseDuration_tested (s : string) : option Z :=
  if bool_decide (s = "5m") then Some (5 * Minute)
  else if bool_decide (s = "10m") then Some (10 * Minute)
  else None.

End GoTime.

(** ** Package [config] *)

Module Config.

Import GoStrings.

(** [type Config struct] *)
Record Config : Type := mkConfig {
  SentryDSN : string;
  SentryEnvironment : string;
  Namespaces : list string;
  ExcludeNamespaces : list string;
  EventReasons : list string;
  EventThresholds : gmap string Z;
  EnableLogs : bool;
  DedupWindow : Dedup.Duration;
  LogLevel : string
}.

(** The errors [Load] builds with [fmt.Errorf]. *)
Inductive error : Type :=
| ErrMissingDSN
| ErrInvalidThreshold (reason countStr : string)
| ErrInvalidDedupWindow (value : string).

(** [func DefaultEventReasons() []string] *)
Definition DefaultEventReasons : list string :=
  [ "OOMKilled"; "CrashLoopBackOff"; "FailedScheduling"; "Evicted";
    "FailedMount"; "FailedAttachVolume";
    "Unhealthy"; "ImagePullBackOff"; "ErrImagePull"; "BackOff";
    "FailedCreate" ].

(** [func DefaultEventThresholds() map[string]int32] *)
Definition DefaultEventThresholds : gmap string Z :=
  list_to_map
    [ ("OOMKilled", 1); ("CrashLoopBackOff", 1); ("Evicted", 1);
      ("FailedScheduling", 1); ("FailedMount", 1); ("FailedAttachVolume", 1);
      ("Unhealthy", 5); ("BackOff", 3); ("ImagePullBackOff", 3);
      ("ErrImagePull", 2); ("FailedCreate", 2) ].

(** The environment of the process; [os.Getenv] gives the empty string for a variable
    that is not set. *)
Definition Getenv (env : gmap string string) (k : string) : string :=
  default EmptyString (env !! k).

(** [func getEnvOrDefault(key, defaultValue string) string] *)
Definition getEnvOrDefault (env : gmap string string) (k defaultValue : string)
  : string :=
  let v := Getenv env k in
  if bool_decide (v = EmptyString) then defaultValue else v.

(** [func splitAndTrim(s string) []string] *)
Definition splitAndTrim (s : string) : list string :=
  fold_left (fun result p =>
               let trimmed := TrimSpace p in
               if bool_decide (trimmed = EmptyString) then result else result ++ [trimmed])
            (Split s ",") [].

Section Load.

(** The two functions of the Go library [Load] relies on:
    [fmt.Sscanf] with the format ["%d"] and an [int32] operand, and
    [time.ParseDuration] ([None] when it returns an error; it rounds
    fractions through [float64]). *)
Variable Sscanf_d : string -> GoFmt.Scan.
Variable ParseDuration : string -> option Dedup.Duration.

(** [func parseThreshold(s string) (int32, error)]: [None] is the error
    ["expected integer, got ..."]. *)
Definition parseThreshold (s : string) : option Z :=
  let r := Sscanf_d s in
  if GoFmt.scan_err r || negb (GoFmt.scan_n r =? 1) then None
  else Some (GoFmt.scan_result r).

(** The loop of [Load] over the items of [KUBE_SENTRY_THRESHOLDS]; it
    updates the map [cfg.EventThresholds] and leaves [Load] at the first
    item whose count [parseThreshold] rejects. *)
Fixpoint loadThresholds (items : list string) (thresholds : gmap string Z)
  : error + gmap string Z :=
  match items with
  | [] => inr thresholds
  | item :: rest =>
      match SplitN2 item ":" with
      | [p0; p1] =>
          let reason := TrimSpace p0 in
          let countStr := TrimSpace p1 in
          match parseThreshold countStr with
          | None => inl (ErrInvalidThreshold reason countStr)
          | Some count => loadThresholds rest (<[reason := count]> thresholds)
          end
      | _ => loadThresholds rest thresholds
      end
  end.

(** [func Load(dryRun bool) ( *Config, error)]: the pair of the pointer
    ([None] is [nil]) and the error ([None] is [nil]). *)
Definition Load (env : gmap string string) (dryRun : bool)
  : option Config * option error :=
  let dsn := Getenv env "SENTRY_DSN" in
  let environment := getEnvOrDefault env "SENTRY_ENVIRONMENT" "production" in
  let logLevel := getEnvOrDefault env "KUBE_SENTRY_LOG_LEVEL" "info" in
  if negb dryRun && bool_decide (dsn = EmptyString) then (None, Some ErrMissingDSN)
  else
    let ns := Getenv env "KUBE_SENTRY_NAMESPACES" in
    let namespaces := if bool_decide (ns = EmptyString) then [] else splitAndTrim ns in
    let excludeNs := Getenv env "KUBE_SENTRY_EXCLUDE_NAMESPACES" in
    let excludeNamespaces :=
      if bool_decide (excludeNs = EmptyString) then ["kube-system"]
      else splitAndTrim excludeNs in
    let events := Getenv env "KUBE_SENTRY_EVENTS" in
    let eventReasons :=
      if bool_decide (events = EmptyString) then DefaultEventReasons
      else splitAndTrim events in
    let thresholds := Getenv env "KUBE_SENTRY_THRESHOLDS" in
    match (if bool_decide (thresholds = EmptyString) then inr DefaultEventThresholds
           else loadThresholds (splitAndTrim thresholds) DefaultEventThresholds)
    with
    | inl err => (None, Some err)
    | inr eventThresholds =>
        let enableLogsStr := getEnvOrDefault env "KUBE_SENTRY_ENABLE_LOGS" "true" in
        let enableLogs :=
          bool_decide (enableLogsStr = "true") || bool_decide (enableLogsStr = "1") in
        let dedupStr := getEnvOrDefault env "KUBE_SENTRY_DEDUP_WINDOW" "5m" in
        match ParseDuration dedupStr with
        | None => (None, Some (ErrInvalidDedupWindow dedupStr))
        | Some dedupWindow =>
            (Some {| SentryDSN := dsn;
                     SentryEnvironment := environment;
                     Namespaces := namespaces;
                     ExcludeNamespaces := excludeNamespaces;
                     EventReasons := eventReasons;
                     EventThresholds := eventThresholds;
                     EnableLogs := enableLogs;
                     DedupWindow := dedupWindow;
                     LogLevel := logLevel |},
             None)
        end
    end.

End Load.

End Config.

(** ** Package [main]: the start of the program *)

Module Main.

(** How the first steps of [main] end: [os.Exit(code)], a run-time panic, or
    going on with a configuration. *)
Inductive outcome : Type :=
| Exit (code : Z)
| Panic
| Continue (cfg : Config.Config).

(** [func main()] up to the loading of the configuration: [--version]
    prints the version and exits with 0; an error of [config.Load] is
    logged and exits with 1. *)
Definition startup (Sscanf_d : string -> GoFmt.Scan)
  (ParseDuration : string -> option Dedup.Duration)
  (env : gmap string string) (showVer dryRun : bool) : outcome :=
  if showVer then Exit 0
  else
    match Config.Load Sscanf_d ParseDuration env dryRun with
    | (_, Some err) => Exit 1
    | (Some cfg, None) => Continue cfg
    | (None, None) => Panic
    end.

End Main.

(** * Specification vocabulary *)

(** ** Predicates on the state of the deduplicator *)

Module DedupSpec.

Import Dedup.

(** Every key of the map is listed in [order]. *)
Definition covered (es : gmap string entry) (ord : list string) : Prop :=
  forall k, is_Some (es !! k) -> k ∈ ord.

(** The invariant behind the capacity bound. *)
Definition bounded (d : Deduplicator) : Prop :=
  covered (entries d) (order d) /\ Size d <= MaxEntries.

(** The invariant of an entry in the data model of the specification. *)
Definition entry_ok (e : entry) : Prop :=
  firstSeen e <= lastSeen e <= expiresAt e /\ 1 <= count e.

(** The clock readings of the [Check] calls of a sequence of operations,
    in order.  [cleanup] reads the clock before it takes the lock, so its
    reading may be older than the one of a [Check] that ran before it; it
    does not write it anywhere. *)
Fixpoint check_readings (ops : list op) : list Time :=
  match ops with
  | [] => []
  | OpCheck _ _ _ now :: rest => now :: check_readings rest
  | OpCleanup _ :: rest => check_readings rest
  end.

(** The instants of a list never go back; [t] is the instant before the
    first of them. *)
Fixpoint ascending_from (t : Time) (readings : list Time) : Prop :=
  match readings with
  | [] => True
  | reading :: rest => t <= reading /\ ascending_from reading rest
  end.

(** The clock never goes back between two [Check] calls. *)
Definition nondecreasing (ops : list op) : Prop :=
  match check_readings ops with
  | [] => True
  | reading :: rest => ascending_from reading rest
  end.

(** What the proof of the entry invariant carries along: every entry is
    well formed, was last seen no later than the clock reading [t], and
    counts at most [n] sightings. *)
Definition seen_by (t : Time) (n : Z) (d : Deduplicator) : Prop :=
  forall k e, entries d !! k = Some e ->
    entry_ok e /\ lastSeen e <= t /\ count e <= n.

(** The entry a miss of [Check] installs. *)
Definition fresh (k : string) (now : Time) (w : Duration) : entry :=
  {| key := k; expiresAt := now + w; count := 1;
     firstSeen := now; lastSeen := now |}.

(** A sequence of calls that leaves a key twice in [order]: the entry of
    pod ["web"] is created at time 0; [n] other pods are seen at time 5;
    at time 10 the entry of ["web"] has expired (the window is 10) and
    [Check] installs it anew; one more pod is seen at time 10. *)
Definition pod_name (i : nat) : string := "pod-" +:+ pretty i.

Definition pod_key (p : string) : string := mkKey "ns" p "r".

Definition stale_trace (n : nat) : list op :=
  OpCheck "ns" "web" "r" 0
  :: map (fun p => OpCheck "ns" p "r" 5) (map pod_name (seq 1 n))
  ++ [OpCheck "ns" "web" "r" 10; OpCheck "ns" (pod_name (S n)) "r" 10].

(** The map after [Check] met the pods [ps], none of them known, at the
    clock reading [now]. *)
Definition insert_pods (now : Time) (w : Duration) (ps : list string)
  (es : gmap string entry) : gmap string entry :=
  fold_left (fun m p => <[pod_key p := fresh (pod_key p) now w]> m) ps es.

End DedupSpec.

(** ** The effective namespace of an event, and the characters of a hash *)

Module EventSpec.

Import K8s GoStrings.

(** The involved object's namespace, or the event's own when that one is
    empty. *)
Definition effectiveNamespace (event : Event) : string :=
  if bool_decide (ObjNamespace (InvolvedObject event) = EmptyString)
  then Namespace event
  else ObjNamespace (InvolvedObject event).

(** A byte that is a lowercase letter ([a] to [z]) or a digit. *)
Definition lower_or_digit (c : ascii) : Prop :=
  97 <= byte c <= 122 \/ 48 <= byte c <= 57.

(** A string made of lowercase letters and digits only. *)
Definition lowercase_alphanumeric (s : string) : Prop :=
  Forall lower_or_digit (list_ascii_of_string s).

(** The same test on one byte, as a boolean. *)
Definition lower_or_digitb (c : ascii) : bool :=
  ((97 <=? byte c) && (byte c <=? 122)) || ((48 <=? byte c) && (byte c <=? 57)).

(** A segment that looks like the hash of a pod, and one that looks like the
    hash of a replica set. *)
Definition pod_hash (s : string) : Prop :=
  (String.length s <= 6)%nat /\ lowercase_alphanumeric s.

Definition replicaset_hash (s : string) : Prop :=
  (5 <= String.length s <= 12)%nat /\ lowercase_alphanumeric s.

(** No byte of [s] is [sep]. *)
Definition free_of (sep : ascii) (s : string) : Prop :=
  Forall (fun c => c <> sep) (list_ascii_of_string s).

End EventSpec.

(** ** Concrete inputs used in the examples *)

Module Examples.

(** A filter that watches [Unhealthy] with the default threshold 5 and
    denies [kube-system]. *)
Definition filter_unhealthy : Filter.Filter :=
  Filter.New [] ["kube-system"] ["Unhealthy"] {[ "Unhealthy" := 5 ]}.

(** A warning about a pod of deployment [worker], seen 3 times by the
    cluster: below the threshold. *)
Definition unhealthy_event : K8s.Event :=
  {| K8s.Namespace := "production";
     K8s.InvolvedObject := {| K8s.Kind := "Pod";
                              K8s.ObjNamespace := "production";
                              K8s.Name := "worker-79c6dd4b57-wcdzt" |};
     K8s.Reason := "Unhealthy";
     K8s.Message := "Readiness probe failed";
     K8s.Type_ := "Warning";
     K8s.Count := 3 |}.

(** A deduplicator with a window of 300 that holds one entry, created at
    time 0. *)
Definition one_entry : Dedup.Deduplicator :=
  {| Dedup.window := 300;
     Dedup.entries :=
       {[ "default/my-pod/OOMKilled" :=
            {| Dedup.key := "default/my-pod/OOMKilled"; Dedup.expiresAt := 300;
               Dedup.count := 1; Dedup.firstSeen := 0; Dedup.lastSeen := 0 |} ]};
     Dedup.order := ["default/my-pod/OOMKilled"] |}.

(** An environment whose [KUBE_SENTRY_THRESHOLDS] holds one item, without a
    colon. *)
Definition env_no_colon : gmap string string :=
  {[ "SENTRY_DSN" := "https://key@sentry.example/1";
     "KUBE_SENTRY_THRESHOLDS" := "Unhealthy" ]}.

(** An environment whose [KUBE_SENTRY_THRESHOLDS] holds an item whose count
    is not a number. *)
Definition env_bad_count : gmap string string :=
  {[ "SENTRY_DSN" := "https://key@sentry.example/1";
     "KUBE_SENTRY_THRESHOLDS" := "BackOff:2, Unhealthy:many" ]}.

End Examples.

(** * More of the code: the loops of the watcher and the two senders *)

(** ** Package [watcher]: the loops around [processEvent] *)

Module WatcherLoop.

Import Watcher.

(** [watch.EventType] *)
Inductive EventType : Type :=
| Added | Modified | Deleted | Bookmark | Error.

(** [watch.Event].  The object is a [runtime.Object]: [Some e] when the type
    assertion to [*corev1.Event] succeeds, [None] when it fails. *)
Record WatchEvent : Type := mkWatchEvent {
  Type_ : EventType;
  Object : option K8s.Event
}.

(** What one pass through the [select] of [watchEvents] finds: the context
    is done, the result channel is closed, or the channel delivers an event;
    [now] is what the clock shows if [processEvent] calls [Check]. *)
Inductive selected : Type :=
| CtxDone
| ChanClosed
| Received (ev : WatchEvent) (now : Dedup.Time).

(** The errors the loops return. *)
Inductive error : Type :=
| ErrListEvents
| ErrCreateWatch
| ErrContext
| ErrChannelClosed
| ErrWatch.

(** The [for] loop of [watchEvents] over what the [select] finds, pass after
    pass; the result [None] says that the loop has not returned and waits
    for the next pass. *)
Fixpoint watchLoop (f : Filter.Filter) (w : World) (passes : list selected)
  : World * option error :=
  match passes with
  | [] => (w, None)
  | CtxDone :: _ => (w, Some ErrContext)
  | ChanClosed :: _ => (w, Some ErrChannelClosed)
  | Received ev now :: rest =>
      match Type_ ev with
      | Error => (w, Some ErrWatch)
      | Added | Modified =>
          match Object ev with
          | Some k8sEvent => watchLoop f (processEvent f w k8sEvent now) rest
          | None => watchLoop f w rest
          end
      | Deleted | Bookmark => watchLoop f w rest
      end
  end.

(** [func (w *Watcher) watchEvents(ctx context.Context) error];
    [connection] is [None] when the call of [Watch] fails. *)
Definition watchEvents (f : Filter.Filter) (w : World)
  (connection : option (list selected)) : World * option error :=
  match connection with
  | None => (w, Some ErrCreateWatch)
  | Some passes => watchLoop f w passes
  end.

(** The loop of [ListOnce] over [events.Items], each with what the clock
    shows when it is handled. *)
Fixpoint listLoop (f : Filter.Filter) (w : World)
  (items : list (K8s.Event * Dedup.Time)) : World :=
  match items with
  | [] => w
  | (event, now) :: rest =>
      if Filter.ShouldProcess f event
      then listLoop f (processEvent f w event now) rest
      else listLoop f w rest
  end.

(** [func (w *Watcher) ListOnce(ctx context.Context) error]; [listing] is
    [None] when the call of [List] fails.  The counter [matched] is only
    logged. *)
Definition ListOnce (f : Filter.Filter) (w : World)
  (listing : option (list (K8s.Event * Dedup.Time))) : World * option error :=
  match listing with
  | None => (w, Some ErrListEvents)
  | Some items => (listLoop f w items, None)
  end.

End WatcherLoop.

(** ** Package [sentry]: what the two senders make of an [EventData] *)

Module SentrySend.

(** The message, level, tags and fingerprint of the [sentry.Event] that
    [sendIssue] captures (its [Extra] map and the breadcrumbs hold formatted
    times and the troubleshooting texts and are not part of this record). *)
Record Issue : Type := mkIssue {
  Message : string;
  Level : Filter.Level;
  Tags : gmap string string;
  Fingerprint : list string
}.

(** [func (s *Sender) sendIssue(data EventData, namespace, podName, nodeName,
    reason, kind, deployment string)] *)
Definition sendIssue (data : Sentry.EventData)
  (namespace podName nodeName reason kind deployment : string) : Issue :=
  let message := reason +:+ ": " +:+ podName in
  let tags : gmap string string :=
    <["k8s.kind" := kind]>
      (<["k8s.reason" := reason]>
         (<["k8s.pod" := podName]> {[ "k8s.namespace" := namespace ]})) in
  let tags :=
    if negb (bool_decide (nodeName = EmptyString))
    then <["k8s.node" := nodeName]> tags else tags in
  let tags :=
    if negb (bool_decide (deployment = EmptyString))
       && negb (bool_decide (deployment = podName))
    then <["k8s.deployment" := deployment]> tags else tags in
  {| Message := message;
     Level := Sentry.Severity data;
     Tags := tags;
     Fingerprint := ["k8s"; namespace; deployment; reason] |}.

(** The part of [func (s *Sender) Send(data EventData)] that creates the
    issue: [None] when no issue is created.  [host] is [event.Source.Host],
    a field the record [K8s.Event] does not carry. *)
Definition Send (host : string) (data : Sentry.EventData) : option Issue :=
  let event := Sentry.Event data in
  let namespace := K8s.ObjNamespace (K8s.InvolvedObject event) in
  let namespace :=
    if bool_decide (namespace = EmptyString) then K8s.Namespace event else namespace in
  let podName := K8s.Name (K8s.InvolvedObject event) in
  let nodeName := host in
  let reason := K8s.Reason event in
  let kind := K8s.Kind (K8s.InvolvedObject event) in
  let deployment := Sentry.ExtractDeploymentName podName in
  if Sentry.MeetsThreshold data
  then Some (sendIssue data namespace podName nodeName reason kind deployment)
  else None.

(** [func getModeString(meetsThreshold bool) string] *)
Definition getModeString (meetsThreshold : bool) : string :=
  if meetsThreshold then "log + issue" else "log only".

(** The keys [message], [severity], [meets_threshold], [mode], [tags] and
    [fingerprint] of the object [DryRunSender.Send] prints (its [extra]
    holds formatted times and is not part of this record). *)
Record DryRunOutput : Type := mkDryRunOutput {
  message : string;
  severity : Filter.Level;
  meets_threshold : bool;
  mode : string;
  tags : gmap string string;
  fingerprint : list string
}.

(** [func (d *DryRunSender) Send(data EventData)] *)
Definition DryRunSend (host : string) (data : Sentry.EventData) : DryRunOutput :=
  let event := Sentry.Event data in
  let namespace := K8s.ObjNamespace (K8s.InvolvedObject event) in
  let namespace :=
    if bool_decide (namespace = EmptyString) then K8s.Namespace event else namespace in
  let name := K8s.Name (K8s.InvolvedObject event) in
  {| message := K8s.Reason event +:+ ": " +:+ name;
     severity := Sentry.Severity data;
     meets_threshold := Sentry.MeetsThreshold data;
     mode := getModeString (Sentry.MeetsThreshold data);
     tags :=
       <["k8s.deployment" := Sentry.ExtractDeploymentName name]>
         (<["k8s.node" := host]>
            (<["k8s.kind" := K8s.Kind (K8s.InvolvedObject event)]>
               (<["k8s.reason" := K8s.Reason event]>
                  (<["k8s.pod" := name]> {[ "k8s.namespace" := namespace ]}))));
     fingerprint :=
       ["k8s"; namespace; Sentry.ExtractDeploymentName name; K8s.Reason event] |}.

End SentrySend.

(** ** Package [main]: what [main] builds from the configuration *)

Module MainSetup.

(** [eventFilter := filter.New(cfg.Namespaces, cfg.ExcludeNamespaces,
    cfg.EventReasons, cfg.EventThresholds)] *)
Definition eventFilter (cfg : Config.Config) : Filter.Filter :=
  Filter.New (Config.Namespaces cfg) (Config.ExcludeNamespaces cfg)
             (Config.EventReasons cfg) (Config.EventThresholds cfg).

(** [deduplicator := dedup.New(cfg.DedupWindow)] *)
Definition deduplicator (cfg : Config.Config) : Dedup.Deduplicator :=
  Dedup.New (Config.DedupWindow cfg).

(** The watcher at the start: the new deduplicator, nothing sent. *)
Definition eventWatcher (cfg : Config.Config) : Watcher.World :=
  {| Watcher.dedup := deduplicator cfg; Watcher.sent := [] |}.

End MainSetup.

(** ** Vocabulary for the properties of this part *)

Module MoreSpec.

Import Dedup.

(** An entry that [GetStats] and [Check] still honour at time [now]. *)
Definition live (now : Time) (e : entry) : bool := Before now (expiresAt e).

(** Calls of [Check] on one triple at the given clock readings, one after
    the other: the state at the end and what each call returned. *)
Fixpoint checks (d : Deduplicator) (namespace pod reason : string)
  (readings : list Time) : Deduplicator * list CheckResult :=
  match readings with
  | [] => (d, [])
  | now :: rest =>
      let '(d', result) := Check d namespace pod reason now in
      let '(d'', results) := checks d' namespace pod reason rest in
      (d'', result :: results)
  end.

(** Each reading lies before the end of the window that the call before it
    opened; [t] is the reading of the call before the first. *)
Fixpoint within_window (w : Duration) (t : Time) (readings : list Time) : Prop :=
  match readings with
  | [] => True
  | now :: rest => now < t + w /\ within_window w now rest
  end.

(** What the [i]-th hit after a creation at [t0] returns, for [i] counted
    from 0. *)
Definition hit_results (t0 : Time) (readings : list Time) : list CheckResult :=
  imap (fun i now => (false, Z.of_nat i + 2, t0, now)) readings.

(** The [Check] that [processEvent] makes for an event at the reading
    [now]. *)
Definition check_of (item : K8s.Event * Time) : op :=
  OpCheck (EventSpec.effectiveNamespace (fst item))
          (Sentry.ExtractDeploymentName (K8s.Name (K8s.InvolvedObject (fst item))))
          (K8s.Reason (fst item)) (snd item).

(** The group an event falls in: effective namespace, deployment, reason. *)
Definition group_of (event : K8s.Event) : string * string * string :=
  (EventSpec.effectiveNamespace event,
   Sentry.ExtractDeploymentName (K8s.Name (K8s.InvolvedObject event)),
   K8s.Reason event).

(** The items of a listing that the filter accepts. *)
Definition accepted (f : Filter.Filter) (items : list (K8s.Event * Time))
  : list (K8s.Event * Time) :=
  List.filter (fun item => Filter.ShouldProcess f (fst item)) items.

(** The events that the passes of the [select] hand to [processEvent], each
    with the reading of the clock: the objects of the added and the modified
    deltas that are events. *)
Fixpoint delivered (passes : list WatcherLoop.selected)
  : list (K8s.Event * Time) :=
  match passes with
  | [] => []
  | WatcherLoop.Received ev now :: rest =>
      match WatcherLoop.Type_ ev, WatcherLoop.Object ev with
      | WatcherLoop.Added, Some event | WatcherLoop.Modified, Some event =>
          (event, now) :: delivered rest
      | _, _ => delivered rest
      end
  | _ :: rest => delivered rest
  end.

(** A pass of the [select] that ends [watchEvents]. *)
Definition terminal (s : WatcherLoop.selected) : Prop :=
  match s with
  | WatcherLoop.CtxDone | WatcherLoop.ChanClosed => True
  | WatcherLoop.Received ev _ => WatcherLoop.Type_ ev = WatcherLoop.Error
  end.

(** A pass of the [select] that [watchEvents] lets go by: a delta that is
    deleted or a bookmark, or an added or modified object that is not an
    event. *)
Definition passed_over (s : WatcherLoop.selected) : Prop :=
  match s with
  | WatcherLoop.CtxDone | WatcherLoop.ChanClosed => False
  | WatcherLoop.Received ev _ =>
      WatcherLoop.Type_ ev = WatcherLoop.Deleted
      \/ WatcherLoop.Type_ ev = WatcherLoop.Bookmark
      \/ (WatcherLoop.Type_ ev <> WatcherLoop.Error /\ WatcherLoop.Object ev = None)
  end.

End MoreSpec.

(** ** Concrete inputs for the properties of this part *)

Module MoreExamples.

(** A cache at its capacity: [MaxEntries] entries under keys of two bytes,
    created at time 0 with a window of 300 and listed in [order] as they
    were created. *)
Definition key_of (i : nat) : string :=
  String (ascii_of_nat (i / 100 + 33)) (String (ascii_of_nat (i mod 100 + 33)) EmptyString).

Definition entry_of (i : nat) : Dedup.entry :=
  {| Dedup.key := key_of i; Dedup.expiresAt := 300; Dedup.count := 1;
     Dedup.firstSeen := 0; Dedup.lastSeen := 0 |}.

Definition full_cache : Dedup.Deduplicator :=
  {| Dedup.window := 300;
     Dedup.entries := list_to_map (map (fun i => (key_of i, entry_of i)) (seq 0 (Z.to_nat Dedup.MaxEntries)));
     Dedup.order := map key_of (seq 0 (Z.to_nat Dedup.MaxEntries)) |}.

(** A watcher at its start, with a window of 300. *)
Definition watcher_start : Watcher.World :=
  {| Watcher.dedup := Dedup.New 300; Watcher.sent := [] |}.

(** The same warning as [Examples.unhealthy_event], seen 7 times by the
    cluster: above the threshold. *)
Definition unhealthy_again : K8s.Event :=
  {| K8s.Namespace := "production";
     K8s.InvolvedObject := {| K8s.Kind := "Pod";
                              K8s.ObjNamespace := "production";
                              K8s.Name := "worker-5d8f7c9b64-x2k9p" |};
     K8s.Reason := "Unhealthy";
     K8s.Message := "Readiness probe failed";
     K8s.Type_ := "Warning";
     K8s.Count := 7 |}.

(** Two passes of the [select]: an added event, then a bookmark. *)
Definition two_passes : list WatcherLoop.selected :=
  [ WatcherLoop.Received
      {| WatcherLoop.Type_ := WatcherLoop.Added;
         WatcherLoop.Object := Some Examples.unhealthy_event |} 0;
    WatcherLoop.Received
      {| WatcherLoop.Type_ := WatcherLoop.Bookmark;
         WatcherLoop.Object := None |} 1 ].

(** An environment that sets the DSN and nothing else. *)
Definition env_dsn_only : gmap string string :=
  {[ "SENTRY_DSN" := "https://key@sentry.example/1" ]}.

(** An environment whose [KUBE_SENTRY_THRESHOLDS] names one reason twice. *)
Definition env_backoff_twice : gmap string string :=
  {[ "SENTRY_DSN" := "https://key@sentry.example/1";
     "KUBE_SENTRY_THRESHOLDS" := "BackOff:2,BackOff:7" ]}.

End MoreExamples.

(** * Properties *)

(** ** Arithmetic of [int] *)

Section GoIntFacts.

Import GoInt.

Lemma wrap_in_range (z : Z) : in_range z -> wrap z = z.
Proof.
  unfold in_range, wrap, MinInt, MaxInt. intros H.
  rewrite Z.mod_small by lia. lia.
Qed.

Lemma incr_below_max (x : Z) : MinInt <= x < MaxInt -> incr x = x + 1.
Proof.
  unfold incr. intros H. apply wrap_in_range. unfold in_range. lia.
Qed.

Lemma incr_max : incr MaxInt = MinInt.
Proof. reflexivity. Qed.

Lemma wrap_incr (z : Z) : incr (wrap z) = wrap (z + 1).
Proof.
  unfold incr, wrap.
  replace ((z + 2 ^ 63) mod 2 ^ 64 - 2 ^ 63 + 1 + 2 ^ 63)
    with ((z + 2 ^ 63) mod 2 ^ 64 + 1) by lia.
  replace (z + 1 + 2 ^ 63) with ((z + 2 ^ 63) + 1) by lia.
  rewrite Zplus_mod_idemp_l. reflexivity.
Qed.

End GoIntFacts.

(** ** The deduplicator *)

Section DedupFacts.

Import Dedup DedupSpec.

Implicit Types (d : Deduplicator) (es : gmap string entry)
  (ord : list string) (now : Time).

Lemma evict_below es ord :
  Z.of_nat (size es) < MaxEntries -> evict es ord = (es, ord).
Proof.
  intros H. destruct ord as [|oldest rest]; simpl; [done|].
  destruct (Z.leb_spec MaxEntries (Z.of_nat (size es))); [lia|done].
Qed.

Lemma evict_at_capacity es oldest rest :
  MaxEntries <= Z.of_nat (size es) ->
  evict es (oldest :: rest) = evict (delete oldest es) rest.
Proof.
  intros H. simpl.
  destruct (Z.leb_spec MaxEntries (Z.of_nat (size es))); [done|lia].
Qed.

(** Both loops only delete. *)
Lemma evict_sub ord : forall es es' ord',
  evict es ord = (es', ord') -> es' ⊆ es.
Proof.
  induction ord as [|oldest rest IH]; intros es es' ord' Hev; simpl in Hev.
  - by injection Hev as <- <-.
  - destruct (MaxEntries <=? Z.of_nat (size es)).
    + apply IH in Hev. etrans; [exact Hev|]. apply delete_subseteq.
    + by injection Hev as <- <-.
Qed.

Lemma sweep_sub now ord : forall es acc es' ord',
  sweep now ord es acc = (es', ord') -> es' ⊆ es.
Proof.
  induction ord as [|k rest IH]; intros es acc es' ord' Hsw; simpl in Hsw.
  - by injection Hsw as <- <-.
  - destruct (es !! k) as [e|]; [destruct (Before now (expiresAt e))|].
    + by eapply IH.
    + apply IH in Hsw. etrans; [exact Hsw|]. apply delete_subseteq.
    + by eapply IH.
Qed.

(** The eviction loop only deletes, keeps the map covered by what is left
    of [order], and ends below the capacity. *)
Lemma evict_spec ord : forall es es' ord',
  covered es ord ->
  evict es ord = (es', ord') ->
  covered es' ord' /\ es' ⊆ es /\ Z.of_nat (size es') < MaxEntries.
Proof.
  induction ord as [|oldest rest IH]; intros es es' ord' Hcov Hev.
  - simpl in Hev. injection Hev as <- <-.
    assert (es = ∅) as ->.
    { apply map_empty. intros k. destruct (es !! k) eqn:E; [|done].
      exfalso. specialize (Hcov k (ltac:(eauto))). inversion Hcov. }
    split; [done|]. split; [done|]. rewrite map_size_empty. done.
  - simpl in Hev.
    destruct (Z.leb_spec MaxEntries (Z.of_nat (size es))) as [Hge|Hlt].
    + apply IH in Hev as (Hc & Hsub & Hsz).
      * split; [done|]. split; [|done].
        etrans; [exact Hsub|]. apply delete_subseteq.
      * intros k [e Hk].
        destruct (decide (k = oldest)) as [->|Hne].
        { rewrite lookup_delete_eq in Hk. done. }
        rewrite lookup_delete_ne in Hk by done.
        specialize (Hcov k (ltac:(eauto))).
        apply elem_of_cons in Hcov as [?|?]; [done|done].
    + injection Hev as <- <-. done.
Qed.

(** The loop of [cleanup] only deletes, and the order it rebuilds covers
    the map it leaves. *)
Lemma sweep_spec now ord : forall es acc es' ord',
  (forall k, is_Some (es !! k) -> k ∈ acc \/ k ∈ ord) ->
  sweep now ord es acc = (es', ord') ->
  covered es' ord' /\ es' ⊆ es.
Proof.
  induction ord as [|k rest IH]; intros es acc es' ord' Hcov Hsw.
  - simpl in Hsw. injection Hsw as <- <-. split; [|done].
    intros k Hk. destruct (Hcov k Hk) as [?|Hin]; [done|inversion Hin].
  - simpl in Hsw. destruct (es !! k) as [e|] eqn:Ek.
    + destruct (Before now (expiresAt e)).
      * eapply IH; [|exact Hsw]. intros k' Hk'.
        destruct (Hcov k' Hk') as [?|Hin].
        { left. apply elem_of_app. by left. }
        apply elem_of_cons in Hin as [->|?]; [|by right].
        left. apply elem_of_app. right. by apply list_elem_of_singleton.
      * apply IH in Hsw as (Hc & Hsub).
        { split; [done|]. etrans; [exact Hsub|]. apply delete_subseteq. }
        intros k' [e' Hk'].
        destruct (decide (k' = k)) as [->|Hne].
        { rewrite lookup_delete_eq in Hk'. done. }
        rewrite lookup_delete_ne in Hk' by done.
        destruct (Hcov k' (ltac:(eauto))) as [?|Hin]; [by left|].
        apply elem_of_cons in Hin as [?|?]; [done|by right].
    + eapply IH; [|exact Hsw]. intros k' [e' Hk'].
      destruct (Hcov k' (ltac:(eauto))) as [?|Hin]; [by left|].
      apply elem_of_cons in Hin as [->|?]; [congruence|by right].
Qed.

Lemma addEntry_bounded d k now :
  covered (entries d) (order d) -> bounded (addEntry d k now).
Proof.
  intros Hcov. unfold addEntry.
  destruct (evict (entries d) (order d)) as [es ord] eqn:Hev.
  apply evict_spec in Hev as (Hc & _ & Hsz); [|done].
  split; simpl.
  - intros k' [e' Hk'].
    destruct (decide (k' = k)) as [->|Hne].
    + apply elem_of_app. right. by apply list_elem_of_singleton.
    + rewrite lookup_insert_ne in Hk' by done.
      apply elem_of_app. left. apply Hc. eauto.
  - unfold Size, MaxEntries in *. simpl.
    destruct (es !! k) as [e'|] eqn:Ek.
    + rewrite map_size_insert_Some by eauto. lia.
    + rewrite map_size_insert_None by done. lia.
Qed.

Lemma Check_bounded d namespace pod reason now :
  bounded d -> bounded (fst (Check d namespace pod reason now)).
Proof.
  intros [Hcov Hsz]. unfold Check.
  destruct (entries d !! mkKey namespace pod reason) as [e|] eqn:Ek.
  - destruct (Before now (expiresAt e)); simpl.
    + split; simpl.
      * intros k [e' Hk]. apply Hcov.
        destruct (decide (k = mkKey namespace pod reason)) as [->|Hne]; [eauto|].
        rewrite lookup_insert_ne in Hk by done. eauto.
      * unfold Size in *. simpl. rewrite map_size_insert_Some by eauto. done.
    + apply addEntry_bounded. simpl. intros k [e' Hk]. apply Hcov.
      destruct (decide (k = mkKey namespace pod reason)) as [->|Hne].
      * rewrite lookup_delete_eq in Hk. done.
      * rewrite lookup_delete_ne in Hk by done. eauto.
  - simpl. by apply addEntry_bounded.
Qed.

Lemma cleanup_bounded d now : bounded d -> bounded (cleanup d now).
Proof.
  intros [Hcov Hsz]. unfold cleanup.
  destruct (sweep now (order d) (entries d) []) as [es ord] eqn:Hsw.
  apply sweep_spec in Hsw as (Hc & Hsub).
  - split; [done|]. unfold Size in *. simpl.
    apply map_subseteq_size in Hsub. lia.
  - intros k Hk. right. by apply Hcov.
Qed.

Lemma step_bounded d o : bounded d -> bounded (step d o).
Proof.
  destruct o; simpl; [apply Check_bounded|apply cleanup_bounded].
Qed.

Lemma run_bounded ops : forall d, bounded d -> bounded (run d ops).
Proof.
  induction ops as [|o ops IH]; intros d Hd; [done|].
  simpl. apply IH. by apply step_bounded.
Qed.

Lemma New_bounded w : bounded (New w).
Proof.
  split.
  - intros k [e Hk]. simpl in Hk. rewrite lookup_empty in Hk. done.
  - unfold Size. simpl. rewrite map_size_empty. done.
Qed.

(** *** What one call of [Check] does *)

Lemma addEntry_lookup d k now :
  entries (addEntry d k now) !! k = Some (fresh k now (window d)).
Proof.
  unfold addEntry. destruct (evict (entries d) (order d)) as [es ord].
  simpl. by rewrite lookup_insert_eq.
Qed.

Lemma addEntry_window d k now : window (addEntry d k now) = window d.
Proof.
  unfold addEntry. by destruct (evict (entries d) (order d)).
Qed.

(** A hit: the entry is live. *)
Lemma Check_hit d namespace pod reason now e :
  entries d !! mkKey namespace pod reason = Some e ->
  now < expiresAt e ->
  Check d namespace pod reason now =
    ({| window := window d;
        entries := <[mkKey namespace pod reason :=
                       {| key := key e;
                          expiresAt := now + window d;
                          count := GoInt.incr (count e);
                          firstSeen := firstSeen e;
                          lastSeen := now |}]> (entries d);
        order := order d |},
     (false, GoInt.incr (count e), firstSeen e, now)).
Proof.
  intros He Hlt. unfold Check. rewrite He. unfold Before, Add.
  by destruct (Z.ltb_spec now (expiresAt e)); [|lia].
Qed.

(** A miss: no entry, or an expired one. *)
Lemma Check_miss d namespace pod reason now :
  entries d !! mkKey namespace pod reason = None
  \/ (exists e, entries d !! mkKey namespace pod reason = Some e
                /\ expiresAt e <= now) ->
  exists d',
    Check d namespace pod reason now = (d', (true, 1, now, now))
    /\ entries d' !! mkKey namespace pod reason =
         Some (fresh (mkKey namespace pod reason) now (window d))
    /\ window d' = window d.
Proof.
  intros Hmiss. unfold Check.
  destruct Hmiss as [Hnone|(e & He & Hexp)].
  - rewrite Hnone. eexists. split; [reflexivity|].
    split; [apply addEntry_lookup|apply addEntry_window].
  - rewrite He. unfold Before.
    destruct (Z.ltb_spec now (expiresAt e)); [lia|].
    eexists. split; [reflexivity|]. split.
    + apply (addEntry_lookup
               {| window := window d;
                  entries := delete (mkKey namespace pod reason) (entries d);
                  order := order d |}).
    + by rewrite addEntry_window.
Qed.

(** [Check] answers [isNew = true] on a miss only. *)
Lemma Check_isNew d namespace pod reason now d' c f l :
  Check d namespace pod reason now = (d', (true, c, f, l)) ->
  c = 1 /\ f = now /\ l = now
  /\ entries d' !! mkKey namespace pod reason =
       Some (fresh (mkKey namespace pod reason) now (window d))
  /\ window d' = window d.
Proof.
  unfold Check. intros H.
  destruct (entries d !! mkKey namespace pod reason) as [e|];
    [destruct (Before now (expiresAt e)); [discriminate|]|];
    injection H as <- <- <- <-.
  - split; [done|]. split; [done|]. split; [done|]. split.
    + apply (addEntry_lookup
               {| window := window d;
                  entries := delete (mkKey namespace pod reason) (entries d);
                  order := order d |}).
    + by rewrite addEntry_window.
  - split; [done|]. split; [done|]. split; [done|].
    split; [apply addEntry_lookup|apply addEntry_window].
Qed.

(** C2.  [Check(namespace, group, reason)] at the clock reading [now], with
    [k] the key [namespace + "/" + group + "/" + reason]: when an entry is
    stored under [k] and [now] is strictly before its [expiresAt], the
    entry's count is incremented, its [lastSeen] becomes [now], its
    [expiresAt] becomes [now + window] whatever it was, nothing else
    changes, and the call returns [(false, incremented count, firstSeen,
    now)]; the increment is the one of Go's [int], which adds one below the
    largest [int].  When no entry is stored under [k], or the stored one
    has [expiresAt <= now], a fresh entry with count 1, [firstSeen =
    lastSeen = now] and [expiresAt = now + window] is stored under [k] and
    the call returns [(true, 1, now, now)]. *)
Theorem Check_spec d (namespace group reason : string) now :
  let k := namespace +:+ "/" +:+ group +:+ "/" +:+ reason in
  (forall e, entries d !! k = Some e -> now < expiresAt e ->
     Check d namespace group reason now =
       ({| window := window d;
           entries := <[k := {| key := key e;
                                expiresAt := now + window d;
                                count := GoInt.incr (count e);
                                firstSeen := firstSeen e;
                                lastSeen := now |}]> (entries d);
           order := order d |},
        (false, GoInt.incr (count e), firstSeen e, now))
     /\ (GoInt.MinInt <= count e < GoInt.MaxInt ->
         GoInt.incr (count e) = count e + 1))
  /\ (entries d !! k = None
      \/ (exists e, entries d !! k = Some e /\ expiresAt e <= now) ->
      exists d',
        Check d namespace group reason now = (d', (true, 1, now, now))
        /\ entries d' !! k =
             Some {| key := k; expiresAt := now + window d; count := 1;
                     firstSeen := now; lastSeen := now |}
        /\ window d' = window d).
Proof.
  intros k. split.
  - intros e He Hlt. split; [|apply incr_below_max].
    by apply Check_hit.
  - intros Hmiss. by apply Check_miss.
Qed.

(** C10.  The key is the bare concatenation with ["/"], so the distinct
    triples [("a", "b/c", "r")] and [("a/b", "c", "r")] have one key and
    one cache entry: two triples with the same concatenation are
    indistinguishable to [Check], and once [Check("a", "b/c", "r")] has
    answered [isNew = true], a [Check("a/b", "c", "r")] within the window
    answers [isNew = false] with count 2 and the time of the first call as
    [firstSeen]. *)
Theorem colliding_triples_share_entry d (t1 t2 : Time) d1 (c : Z) (f l : Time) :
  Check d "a" "b/c" "r" t1 = (d1, (true, c, f, l)) ->
  t2 < t1 + window d ->
  (forall d0 ns g r ns' g' r' now,
      ns +:+ "/" +:+ g +:+ "/" +:+ r = ns' +:+ "/" +:+ g' +:+ "/" +:+ r' ->
      Check d0 ns g r now = Check d0 ns' g' r' now)
  /\ ("a", "b/c", "r") <> ("a/b", "c", "r")
  /\ "a" +:+ "/" +:+ "b/c" +:+ "/" +:+ "r" = "a/b" +:+ "/" +:+ "c" +:+ "/" +:+ "r"
  /\ exists d2,
       Check d1 "a/b" "c" "r" t2 = (d2, (false, 2, t1, t2))
       /\ Size d2 = Size d1.
Proof.
  intros Hfirst Hlt. split; [|split; [congruence|split; [reflexivity|]]].
  - intros d0 ns g r ns' g' r' now Hk. unfold Check, mkKey. by rewrite Hk.
  - apply Check_isNew in Hfirst as (-> & -> & -> & Hentry & Hw).
    change (mkKey "a" "b/c" "r") with (mkKey "a/b" "c" "r") in Hentry.
    eexists. split.
    + rewrite (Check_hit d1 "a/b" "c" "r" t2 _ Hentry)
        by (cbn [expiresAt fresh]; lia).
      reflexivity.
    + unfold Size. cbn [entries]. f_equal.
      apply map_size_insert_Some. eauto.
Qed.

(** *** The invariant of an entry *)

Lemma seen_by_submap t n d es :
  es ⊆ entries d -> seen_by t n d ->
  forall k e, es !! k = Some e -> entry_ok e /\ lastSeen e <= t /\ count e <= n.
Proof.
  intros Hsub Hd k e Hk. apply (Hd k).
  by eapply lookup_weaken.
Qed.

Lemma addEntry_seen_by t n d k now :
  0 <= window d -> t <= now -> 0 <= n ->
  seen_by t n d -> seen_by now (n + 1) (addEntry d k now).
Proof.
  intros Hw Ht Hn Hd. unfold addEntry.
  destruct (evict (entries d) (order d)) as [es ord] eqn:Hev.
  apply evict_sub in Hev as Hsub.
  intros k' e' Hk'. simpl in Hk'.
  destruct (decide (k' = k)) as [->|Hne].
  - rewrite lookup_insert_eq in Hk'. injection Hk' as <-.
    unfold entry_ok, Add. simpl. lia.
  - rewrite lookup_insert_ne in Hk' by done.
    destruct (seen_by_submap t n d es Hsub Hd k' e' Hk') as (? & ? & ?).
    split; [done|split; lia].
Qed.

(** A [Check] at a clock reading that did not go back keeps every entry
    well formed, as long as no count has reached the largest [int]. *)
Lemma Check_seen_by t n d namespace pod reason now :
  0 <= window d -> t <= now -> 0 <= n < GoInt.MaxInt ->
  seen_by t n d ->
  seen_by now (n + 1) (fst (Check d namespace pod reason now))
  /\ window (fst (Check d namespace pod reason now)) = window d.
Proof.
  intros Hw Ht Hn Hd. unfold Check.
  destruct (entries d !! mkKey namespace pod reason) as [e|] eqn:Ek.
  - destruct (Before now (expiresAt e)) eqn:Hb; simpl.
    + split; [|done]. intros k' e' Hk'. simpl in Hk'.
      destruct (decide (k' = mkKey namespace pod reason)) as [->|Hne].
      * rewrite lookup_insert_eq in Hk'. injection Hk' as <-.
        destruct (Hd _ _ Ek) as ((Hfl & Hc) & Hl & Hcn).
        unfold entry_ok, Add. simpl.
        rewrite incr_below_max by (unfold GoInt.MinInt; lia). lia.
      * rewrite lookup_insert_ne in Hk' by done.
        destruct (Hd _ _ Hk') as (? & ? & ?). split; [done|split; lia].
    + split.
      * apply (addEntry_seen_by t n); simpl; [done|done|lia|].
        intros k' e' Hk'. simpl in Hk'.
        apply lookup_delete_Some in Hk' as [_ Hk']. by apply (Hd k').
      * by rewrite addEntry_window.
  - split; [|apply addEntry_window].
    apply (addEntry_seen_by t n); [done|done|lia|done].
Qed.

(** A sweep keeps every entry it leaves as it was, whatever its clock
    reading. *)
Lemma cleanup_seen_by t n d now :
  seen_by t n d -> seen_by t n (cleanup d now) /\ window (cleanup d now) = window d.
Proof.
  intros Hd. unfold cleanup.
  destruct (sweep now (order d) (entries d) []) as [es ord] eqn:Hsw.
  apply sweep_sub in Hsw as Hsub. split; [|done].
  intros k' e' Hk'. simpl in Hk'.
  by apply (seen_by_submap t n d es Hsub Hd k' e' Hk').
Qed.

Lemma seen_by_more t n d : seen_by t n d -> seen_by t (n + 1) d.
Proof.
  intros Hd k e Hk. destruct (Hd k e Hk) as (? & ? & ?).
  split; [done|split; lia].
Qed.

Lemma run_app d ops ops' : run d (ops ++ ops') = run (run d ops) ops'.
Proof. apply fold_left_app. Qed.

Lemma run_seen_by ops : forall t n d,
  0 <= window d -> 0 <= n -> n + Z.of_nat (length ops) <= GoInt.MaxInt ->
  ascending_from t (check_readings ops) -> seen_by t n d ->
  exists t', seen_by t' (n + Z.of_nat (length ops)) (run d ops).
Proof.
  induction ops as [|o ops IH]; intros t n d Hw Hn Hlen Hclock Hd.
  - exists t. simpl. by rewrite Z.add_0_r.
  - rewrite length_cons, Nat2Z.inj_succ in *.
    replace (n + Z.succ (Z.of_nat (length ops)))
      with (n + 1 + Z.of_nat (length ops)) by lia.
    destruct o as [namespace pod reason now|now]; cbn [check_readings] in Hclock.
    + destruct Hclock as [Ht Hclock].
      destruct (Check_seen_by t n d namespace pod reason now Hw Ht ltac:(lia) Hd)
        as [Hd' Hw'].
      apply (IH now (n + 1) (step d (OpCheck namespace pod reason now)));
        [simpl; lia|lia|lia|done|done].
    + destruct (cleanup_seen_by t n d now Hd) as [Hd' Hw'].
      apply (IH t (n + 1) (step d (OpCleanup now)));
        [simpl; lia|lia|lia|done|by apply seen_by_more].
Qed.

Lemma ascending_from_start t t' readings :
  t' <= t -> ascending_from t readings -> ascending_from t' readings.
Proof.
  destruct readings as [|reading rest]; [done|].
  intros Hle [? ?]. split; [lia|done].
Qed.

Lemma run_New_entry_ok w ops :
  0 <= w -> nondecreasing ops -> Z.of_nat (length ops) < 2 ^ 63 ->
  forall k e, entries (run (New w) ops) !! k = Some e -> entry_ok e.
Proof.
  intros Hw Hclock Hlen k e Hk. unfold nondecreasing in Hclock.
  destruct (run_seen_by ops
              (match check_readings ops with [] => 0 | reading :: _ => reading end)
              0 (New w)) as [t' Ht'].
  - done.
  - done.
  - unfold GoInt.MaxInt. lia.
  - destruct (check_readings ops) as [|reading rest]; [done|].
    split; [lia|done].
  - intros k' e' Hk'. simpl in Hk'. rewrite lookup_empty in Hk'. done.
  - by destruct (Ht' k e Hk).
Qed.

Lemma check_readings_app ops ops' :
  check_readings (ops ++ ops') = check_readings ops ++ check_readings ops'.
Proof.
  induction ops as [|[? ? ? now|now] ops IH]; simpl; [done| |done].
  by rewrite IH.
Qed.

Lemma ascending_from_prefix t readings readings' :
  ascending_from t (readings ++ readings') -> ascending_from t readings.
Proof.
  revert t. induction readings as [|reading rest IH]; intros t H; [done|].
  destruct H as [? H]. split; [done|]. by apply IH.
Qed.

Lemma nondecreasing_prefix ops ops' : nondecreasing (ops ++ ops') -> nondecreasing ops.
Proof.
  unfold nondecreasing. rewrite check_readings_app.
  destruct (check_readings ops) as [|reading rest]; [done|].
  simpl. apply ascending_from_prefix.
Qed.

(** C7, as amended.  With a non-negative window and a clock that never
    goes back from one [Check] to the next, during the first [2^63 - 1]
    operations on a deduplicator every entry of the cache satisfies
    [firstSeen <= lastSeen <= expiresAt] and [count >= 1], and the next
    operation ([Check] creating an entry, [Check] hitting one, or
    [cleanup]) leaves every entry so. *)
Theorem entry_invariant (w : Duration) (ops : list op) (o : op) :
  0 <= w ->
  nondecreasing (ops ++ [o]) ->
  Z.of_nat (length (ops ++ [o])) < 2 ^ 63 ->
  (forall k e, entries (run (New w) ops) !! k = Some e ->
     firstSeen e <= lastSeen e <= expiresAt e /\ 1 <= count e)
  /\ (forall k e, entries (step (run (New w) ops) o) !! k = Some e ->
     firstSeen e <= lastSeen e <= expiresAt e /\ 1 <= count e).
Proof.
  intros Hw Hclock Hlen. split.
  - apply (run_New_entry_ok w ops Hw).
    + by eapply nondecreasing_prefix.
    + rewrite length_app in Hlen. lia.
  - intros k e. replace (step (run (New w) ops) o) with (run (New w) (ops ++ [o])).
    + by apply (run_New_entry_ok w (ops ++ [o]) Hw).
    + by rewrite run_app.
Qed.

(** *** The count after [2^63] hits *)

Lemma repeated_hits (w : Duration) (n : nat) :
  0 < w ->
  run (New w) (repeat (OpCheck "a" "b" "r" 0) (S n)) =
    {| window := w;
       entries := {[ "a/b/r" := {| key := "a/b/r"; expiresAt := w;
                                   count := GoInt.wrap (Z.of_nat (S n));
                                   firstSeen := 0; lastSeen := 0 |} ]};
       order := ["a/b/r"] |}.
Proof.
  intros Hw. induction n as [|n IH].
  - cbn [repeat run fold_left step]. unfold Check.
    cbn [New entries order window]. rewrite lookup_empty.
    unfold addEntry. cbn [New evict entries order window fst app].
    rewrite insert_empty. reflexivity.
  - replace (repeat (OpCheck "a" "b" "r" 0) (S (S n)))
      with (repeat (OpCheck "a" "b" "r" 0) (S n) ++ [OpCheck "a" "b" "r" 0])
      by (symmetry; apply (repeat_cons (S n))).
    rewrite run_app, IH.
    cbn [run fold_left step]. unfold Check.
    change (mkKey "a" "b" "r") with "a/b/r".
    cbn [entries window order]. rewrite lookup_singleton_eq.
    cbn [expiresAt]. unfold Before.
    destruct (Z.ltb_spec 0 w); [|lia].
    cbn [fst key count firstSeen]. rewrite insert_singleton_eq.
    rewrite wrap_incr, (Nat2Z.inj_succ (S n)). reflexivity.
Qed.

Lemma nondecreasing_repeat (namespace pod reason : string) (now : Time) (n : nat) :
  nondecreasing (repeat (OpCheck namespace pod reason now) n).
Proof.
  destruct n as [|n]; [done|]. unfold nondecreasing. cbn [repeat check_readings].
  induction n as [|n IH]; [done|]. split; [lia|done].
Qed.

(** C7, the claim as stated fails: a window of one nanosecond, a clock
    that stands still, and [2^63] calls [Check("a", "b", "r")]; every call
    after the first is a hit, the 64-bit count wraps around, and the entry
    is left with the count [-2^63]. *)
Lemma count_wraps_after_2_63_hits :
  0 <= 1
  /\ nondecreasing (repeat (OpCheck "a" "b" "r" 0) (Z.to_nat (2 ^ 63)))
  /\ exists e,
       entries (run (New 1) (repeat (OpCheck "a" "b" "r" 0) (Z.to_nat (2 ^ 63))))
         !! "a/b/r" = Some e
       /\ count e = - 2 ^ 63
       /\ ~ (firstSeen e <= lastSeen e <= expiresAt e /\ 1 <= count e).
Proof.
  assert (exists n, Z.to_nat (2 ^ 63) = S n /\ Z.of_nat (S n) = 2 ^ 63)
    as (n & -> & Hn).
  { exists (Z.to_nat (2 ^ 63 - 1)). split; lia. }
  split; [lia|]. split.
  - apply (nondecreasing_repeat "a" "b" "r" 0 (S n)).
  - rewrite repeated_hits by lia. eexists. split.
    + cbn [entries]. apply lookup_singleton_eq.
    + cbn [count firstSeen lastSeen expiresAt]. rewrite Hn.
      change (GoInt.wrap (2 ^ 63)) with (- 2 ^ 63). split; [done|]. lia.
Qed.

(** C6.  After any sequence of [Check] calls and [cleanup] sweeps, over
    any keys and clock readings, [Size()] is at most [MaxEntries] = 10000;
    keys listed in [order] without a live entry, or listed twice, do not
    break the bound. *)
Theorem Size_le_MaxEntries (w : Duration) (ops : list op) :
  Size (run (New w) ops) <= MaxEntries /\ MaxEntries = 10000.
Proof.
  split; [|reflexivity].
  apply (run_bounded ops (New w) (New_bounded w)).
Qed.

End DedupFacts.

(** ** The order of eviction *)

Section EvictionOrder.

Import Dedup DedupSpec.

Implicit Types (d : Deduplicator) (es : gmap string entry) (now : Time).

Lemma append_inj_r (s x y : string) : x +:+ s = y +:+ s -> x = y.
Proof.
  assert (forall a b : string,
             String.length (a +:+ b) = (String.length a + String.length b)%nat)
    as Hlen.
  { intros a b. induction a as [|c a IH]; simpl; [done|]. by rewrite IH. }
  revert y. induction x as [|a x IH]; intros [|b y] H.
  - done.
  - apply (f_equal String.length) in H. rewrite !Hlen in H. simpl in H. lia.
  - apply (f_equal String.length) in H. rewrite !Hlen in H. simpl in H. lia.
  - simpl in H. injection H as -> H. f_equal. by apply IH.
Qed.

Lemma pod_key_inj (p q : string) : pod_key p = pod_key q -> p = q.
Proof.
  unfold pod_key, mkKey. intros H. injection H as H.
  change (p +:+ "/r" = q +:+ "/r") in H. by apply append_inj_r in H.
Qed.

Lemma pod_name_inj (i j : nat) : pod_name i = pod_name j -> i = j.
Proof.
  unfold pod_name. intros H. injection H as H.
  change (pretty i = pretty j) in H. by apply (inj pretty).
Qed.

Lemma pod_name_not_web (i : nat) : pod_name i <> "web".
Proof. unfold pod_name. simpl. discriminate. Qed.

Lemma pod_name_not_new (i : nat) : pod_name i <> "new".
Proof. unfold pod_name. simpl. discriminate. Qed.

(** A [Check] of an unknown key below the capacity appends. *)
Lemma Check_unknown d namespace pod reason now :
  entries d !! mkKey namespace pod reason = None ->
  Z.of_nat (size (entries d)) < MaxEntries ->
  Check d namespace pod reason now =
    ({| window := window d;
        entries := <[mkKey namespace pod reason :=
                       fresh (mkKey namespace pod reason) now (window d)]>
                     (entries d);
        order := order d ++ [mkKey namespace pod reason] |},
     (true, 1, now, now)).
Proof.
  intros Hk Hsz. unfold Check. rewrite Hk. unfold addEntry.
  by rewrite evict_below.
Qed.

Lemma insert_pods_lookup_other now w ps : forall es k,
  k ∉ map pod_key ps -> insert_pods now w ps es !! k = es !! k.
Proof.
  induction ps as [|p ps IH]; intros es k Hk; [done|].
  simpl in *. apply not_elem_of_cons in Hk as [Hne Hk].
  rewrite IH by done. by rewrite lookup_insert_ne.
Qed.

Lemma insert_pods_lookup now w ps : forall es p,
  p ∈ ps -> insert_pods now w ps es !! pod_key p = Some (fresh (pod_key p) now w).
Proof.
  induction ps as [|q ps IH]; intros es p Hp; [inversion Hp|].
  simpl. destruct (decide (p ∈ ps)) as [Hin|Hnin].
  - by apply IH.
  - apply elem_of_cons in Hp as [->|?]; [|done].
    rewrite insert_pods_lookup_other.
    + by rewrite lookup_insert_eq.
    + intros Hin. apply list_elem_of_fmap in Hin as (p' & Heq & Hin).
      apply pod_key_inj in Heq as ->. done.
Qed.

Lemma insert_pods_size now w ps : forall es,
  NoDup ps -> (forall p, p ∈ ps -> es !! pod_key p = None) ->
  size (insert_pods now w ps es) = (size es + length ps)%nat.
Proof.
  induction ps as [|p ps IH]; intros es Hnd Hfresh; simpl; [lia|].
  apply NoDup_cons in Hnd as [Hp Hnd].
  rewrite IH; [|done|].
  - rewrite map_size_insert_None; [lia|]. apply Hfresh. by left.
  - intros q Hq. rewrite lookup_insert_ne.
    + apply Hfresh. by right.
    + intros Heq. apply pod_key_inj in Heq as ->. done.
Qed.

(** A run of [Check] calls on distinct unknown pods below the capacity. *)
Lemma run_unknown_pods now ps : forall d,
  NoDup ps -> (forall p, p ∈ ps -> entries d !! pod_key p = None) ->
  Z.of_nat (size (entries d)) + Z.of_nat (length ps) <= MaxEntries ->
  run d (map (fun p => OpCheck "ns" p "r" now) ps) =
    {| window := window d;
       entries := insert_pods now (window d) ps (entries d);
       order := order d ++ map pod_key ps |}.
Proof.
  induction ps as [|p ps IH]; intros d Hnd Hfresh Hsz.
  - simpl. rewrite app_nil_r. by destruct d.
  - apply NoDup_cons in Hnd as [Hp Hnd].
    cbn [map run fold_left step].
    rewrite Check_unknown;
      [|apply Hfresh; by left|rewrite length_cons in Hsz; lia].
    cbn [fst]. change (fold_left step ?l ?x) with (run x l).
    rewrite IH; cbn [window entries order].
    + by rewrite <- app_assoc.
    + done.
    + intros q Hq. rewrite lookup_insert_ne.
      * apply Hfresh. by right.
      * intros Heq. apply pod_key_inj in Heq as ->. done.
    + rewrite map_size_insert_None by (apply Hfresh; by left).
      rewrite length_cons in Hsz. lia.
Qed.

(** *** The state after [stale_trace n], two short of the capacity *)

Section StaleKey.

Variable n : nat.
Hypothesis Hn : Z.of_nat n + 2 = MaxEntries.

Let web : string := pod_key "web".
Let last : string := pod_key (pod_name (S n)).
Let ps : list string := map pod_name (seq 1 n).
Let E2 : gmap string entry :=
  insert_pods 5 10 ps {[ web := fresh web 0 10 ]}.
Let E3 : gmap string entry := <[web := fresh web 10 10]> (delete web E2).
Let E4 : gmap string entry := <[last := fresh last 10 10]> E3.

Lemma ps_NoDup : NoDup ps.
Proof.
  apply NoDup_fmap_2; [|apply NoDup_seq].
  intros i j. apply pod_name_inj.
Qed.

Lemma ps_length : length ps = n.
Proof. unfold ps. by rewrite length_map, length_seq. Qed.

Lemma web_not_pod : web ∉ map pod_key ps.
Proof.
  intros Hin. apply list_elem_of_fmap in Hin as (p & Heq & Hin).
  apply pod_key_inj in Heq as <-.
  apply list_elem_of_fmap in Hin as (i & Heq & _).
  symmetry in Heq. by apply pod_name_not_web in Heq.
Qed.

Lemma last_not_pod : last ∉ map pod_key ps.
Proof.
  intros Hin. apply list_elem_of_fmap in Hin as (p & Heq & Hin).
  apply pod_key_inj in Heq as <-.
  apply list_elem_of_fmap in Hin as (i & Heq & Hi).
  apply pod_name_inj in Heq as <-. apply elem_of_seq in Hi. lia.
Qed.

Lemma last_not_web : last <> web.
Proof.
  intros Heq. apply pod_key_inj in Heq. by apply pod_name_not_web in Heq.
Qed.

Lemma E2_web : E2 !! web = Some (fresh web 0 10).
Proof.
  unfold E2. rewrite insert_pods_lookup_other by apply web_not_pod.
  apply lookup_singleton_eq.
Qed.

Lemma E2_size : size E2 = S n.
Proof.
  unfold E2. rewrite insert_pods_size.
  - by rewrite map_size_singleton, ps_length.
  - apply ps_NoDup.
  - intros p Hp. apply lookup_singleton_ne. intros Heq.
    apply pod_key_inj in Heq as <-.
    apply list_elem_of_fmap in Hp as (i & Heq & _).
    symmetry in Heq. by apply pod_name_not_web in Heq.
Qed.

Lemma E3_size : size E3 = S n.
Proof.
  unfold E3. rewrite map_size_insert_None by apply lookup_delete_eq.
  rewrite map_size_delete_Some, E2_size by (rewrite E2_web; eauto). done.
Qed.

Lemma E3_last : E3 !! last = None.
Proof.
  unfold E3. rewrite lookup_insert_ne by (intros H; by apply last_not_web).
  rewrite lookup_delete_ne by (intros H; by apply last_not_web).
  unfold E2. rewrite insert_pods_lookup_other by apply last_not_pod.
  apply lookup_singleton_ne. intros H. by apply last_not_web.
Qed.

Lemma E4_size : size E4 = S (S n).
Proof.
  unfold E4. by rewrite map_size_insert_None, E3_size by apply E3_last.
Qed.

Lemma stale_state :
  run (New 10) (stale_trace n) =
    {| window := 10; entries := E4;
       order := ((web :: map pod_key ps) ++ [web]) ++ [last] |}.
Proof.
  unfold stale_trace. cbn [run fold_left step].
  rewrite Check_unknown;
    [|apply lookup_empty|cbn [New entries]; by rewrite map_size_empty].
  cbn [fst New window entries order app].
  change (fold_left step ?l ?x) with (run x l).
  rewrite run_app, run_unknown_pods; cbn [window entries order].
  - rewrite insert_empty. fold pod_key. fold (pod_key "web"). fold web.
    fold ps. fold E2.
    cbn [run fold_left step]. unfold Check at 2.
    cbn [entries window order]. fold (pod_key "web"). fold web.
    rewrite E2_web.
    change (Before 10 (expiresAt (fresh web 0 10))) with false.
    cbn [fst]. unfold addEntry at 1. cbn [entries window order].
    rewrite evict_below.
    2:{ rewrite map_size_delete_Some, E2_size by (rewrite E2_web; eauto).
        unfold MaxEntries in *. simpl. lia. }
    fold (fresh web 10 10). fold E3.
    rewrite Check_unknown; cbn [entries window order].
    + reflexivity.
    + apply E3_last.
    + change (Z.of_nat (size E3) < MaxEntries).
      rewrite E3_size. unfold MaxEntries in *. lia.
  - apply ps_NoDup.
  - intros p Hp. rewrite insert_empty. apply lookup_singleton_ne.
    intros Heq. apply (pod_key_inj "web" p) in Heq as <-.
    apply list_elem_of_fmap in Hp as (i & Heq & _).
    symmetry in Heq. by apply pod_name_not_web in Heq.
  - rewrite insert_empty, map_size_singleton.
    change (map pod_name (seq 1 n)) with ps. rewrite ps_length.
    unfold MaxEntries in *. lia.
Qed.

(** At the capacity, the next unknown key evicts the head of [order]:
    the key of ["web"], whose entry is the last but one installed. *)
Lemma stale_eviction (Hpos : (1 <= n)%nat) :
  let d := run (New 10) (stale_trace n) in
  let d' := fst (Check d "ns" "new" "r" 10) in
  Size d = MaxEntries
  /\ entries d !! web = Some (fresh web 10 10)
  /\ entries d !! pod_key (pod_name 1) = Some (fresh (pod_key (pod_name 1)) 5 10)
  /\ entries d' !! web = None
  /\ entries d' !! pod_key (pod_name 1) = Some (fresh (pod_key (pod_name 1)) 5 10)
  /\ Size d' = MaxEntries.
Proof.
  intros d d'. unfold d', d. rewrite stale_state. clear d d'.
  assert (pod_key "new" <> web) as Hnew_web.
  { intros Heq. apply pod_key_inj in Heq. discriminate. }
  assert (pod_key "new" <> last) as Hnew_last.
  { intros Heq. apply pod_key_inj in Heq. symmetry in Heq.
    by apply pod_name_not_new in Heq. }
  assert (pod_name 1 ∈ ps) as Hone.
  { apply list_elem_of_fmap. exists 1%nat. split; [done|].
    apply elem_of_seq. lia. }
  assert (pod_key (pod_name 1) <> web) as Hone_web.
  { intros Heq. apply pod_key_inj in Heq. by apply pod_name_not_web in Heq. }
  assert (pod_key (pod_name 1) <> last) as Hone_last.
  { intros Heq. apply pod_key_inj, pod_name_inj in Heq. lia. }
  assert (pod_key (pod_name 1) <> pod_key "new") as Hone_new.
  { intros Heq. apply pod_key_inj in Heq. by apply pod_name_not_new in Heq. }
  assert (E4 !! web = Some (fresh web 10 10)) as HE4_web.
  { unfold E4. rewrite lookup_insert_ne by done.
    unfold E3. apply lookup_insert_eq. }
  assert (E4 !! pod_key (pod_name 1)
          = Some (fresh (pod_key (pod_name 1)) 5 10)) as HE4_one.
  { unfold E4. rewrite lookup_insert_ne by done.
    unfold E3. rewrite lookup_insert_ne by done.
    rewrite lookup_delete_ne by done.
    unfold E2. by apply insert_pods_lookup. }
  assert (E4 !! pod_key "new" = None) as HE4_new.
  { unfold E4. rewrite lookup_insert_ne by done.
    unfold E3. rewrite lookup_insert_ne by done.
    rewrite lookup_delete_ne by done.
    unfold E2. rewrite insert_pods_lookup_other.
    - by apply lookup_singleton_ne.
    - intros Hin. apply list_elem_of_fmap in Hin as (p & Heq & Hin).
      apply pod_key_inj in Heq as <-.
      apply list_elem_of_fmap in Hin as (i & Heq & _).
      symmetry in Heq. by apply pod_name_not_new in Heq. }
  split; [|split; [|split; [|split; [|split]]]].
  - unfold Size. cbn [entries]. rewrite E4_size. lia.
  - done.
  - done.
  - unfold Check. cbn [entries window order]. fold (pod_key "new").
    rewrite HE4_new. unfold addEntry. cbn [entries window order app].
    rewrite evict_at_capacity by (rewrite E4_size; lia).
    rewrite evict_below.
    2:{ rewrite map_size_delete_Some, E4_size by (rewrite HE4_web; eauto).
        unfold MaxEntries in *. simpl. lia. }
    cbn [fst entries]. rewrite lookup_insert_ne by done.
    apply lookup_delete_eq.
  - unfold Check. cbn [entries window order]. fold (pod_key "new").
    rewrite HE4_new. unfold addEntry. cbn [entries window order app].
    rewrite evict_at_capacity by (rewrite E4_size; lia).
    rewrite evict_below.
    2:{ rewrite map_size_delete_Some, E4_size by (rewrite HE4_web; eauto).
        unfold MaxEntries in *. simpl. lia. }
    cbn [fst entries]. rewrite lookup_insert_ne by done.
    by rewrite lookup_delete_ne.
  - unfold Check. cbn [entries window order]. fold (pod_key "new").
    rewrite HE4_new. unfold addEntry. cbn [entries window order app].
    rewrite evict_at_capacity by (rewrite E4_size; lia).
    rewrite evict_below.
    2:{ rewrite map_size_delete_Some, E4_size by (rewrite HE4_web; eauto).
        unfold MaxEntries in *. simpl. lia. }
    unfold Size. cbn [fst entries].
    rewrite map_size_insert_None.
    + rewrite map_size_delete_Some, E4_size by (rewrite HE4_web; eauto). simpl. lia.
    + by rewrite lookup_delete_ne.
Qed.

End StaleKey.

(** C8, the code at the failing input.  The trace [stale_trace 9998] fills
    the cache to [MaxEntries] live entries; the entry of [ns/web/r] in it
    was installed at time 10, after the entry of [ns/pod-1/r] (time 5),
    which is still live.  The next [Check] of an unknown key evicts
    [ns/web/r] and keeps [ns/pod-1/r]: the entry deleted is not the live
    entry whose most recent insertion is the oldest. *)
Theorem eviction_removes_reinserted_entry :
  let d := run (New 10) (stale_trace (Z.to_nat 9998)) in
  let d' := fst (Check d "ns" "new" "r" 10) in
  Size d = MaxEntries
  /\ (exists e, entries d !! "ns/web/r" = Some e /\ firstSeen e = 10)
  /\ (exists e, entries d !! "ns/pod-1/r" = Some e /\ firstSeen e = 5)
  /\ entries d' !! "ns/web/r" = None
  /\ is_Some (entries d' !! "ns/pod-1/r")
  /\ Size d' = MaxEntries.
Proof.
  assert (Z.of_nat (Z.to_nat 9998) + 2 = MaxEntries) as Hn
    by (unfold MaxEntries; lia).
  assert (1 <= Z.to_nat 9998)%nat as Hpos by lia.
  destruct (stale_eviction (Z.to_nat 9998) Hn Hpos)
    as (H1 & H2 & H3 & H4 & H5 & H6).
  change (pod_key "web") with "ns/web/r" in H2, H4.
  change (pod_key (pod_name 1)) with "ns/pod-1/r" in H3, H5.
  split; [exact H1|]. split; [eexists; split; [exact H2|reflexivity]|].
  split; [eexists; split; [exact H3|reflexivity]|].
  split; [exact H4|]. split; [eexists; exact H5|exact H6].
Qed.

End EvictionOrder.

(** ** The filter *)

Section FilterFacts.

Import K8s Filter EventSpec.

Implicit Types (f : Filter) (e : Event).

Lemma allow_set_nonempty f :
  (0 <? Z.of_nat (size (namespaces f))) = true <-> namespaces f <> ∅.
Proof.
  rewrite Z.ltb_lt. split.
  - intros Hpos Heq. rewrite Heq, size_empty in Hpos. lia.
  - intros Hne. destruct (decide (size (namespaces f) = 0%nat)) as [H0|H0]; [|lia].
    apply size_empty_iff in H0. apply leibniz_equiv in H0. done.
Qed.

(** The chain of early returns of [ShouldProcess] as one conjunction. *)
Lemma ShouldProcess_eq f e :
  ShouldProcess f e =
    negb ((0 <? Z.of_nat (size (namespaces f)))
          && negb (bool_decide (effectiveNamespace e ∈ namespaces f)))
    && negb (bool_decide (effectiveNamespace e ∈ excludeNamespaces f))
    && bool_decide (Reason e ∈ eventReasons f)
    && bool_decide (Type_ e = EventTypeWarning).
Proof.
  unfold ShouldProcess.
  change (if bool_decide (ObjNamespace (InvolvedObject e) = EmptyString)
          then Namespace e else ObjNamespace (InvolvedObject e))
    with (effectiveNamespace e).
  destruct (0 <? Z.of_nat (size (namespaces f)));
    destruct (bool_decide (effectiveNamespace e ∈ namespaces f));
    destruct (bool_decide (effectiveNamespace e ∈ excludeNamespaces f));
    destruct (bool_decide (Reason e ∈ eventReasons f));
    destruct (bool_decide (Type_ e = EventTypeWarning)); reflexivity.
Qed.

(** C3.  [ShouldProcess(e)] is true exactly when the four conditions hold:
    the effective namespace is in the allow set whenever that set is not
    empty; it is not in the deny set; the reason is watched; the type is
    [Warning].  In particular an event of another type is rejected. *)
Theorem ShouldProcess_spec f e :
  ((ShouldProcess f e = true) <->
     (((namespaces f <> ∅) -> (effectiveNamespace e ∈ namespaces f))
      /\ (effectiveNamespace e ∉ excludeNamespaces f)
      /\ Reason e ∈ eventReasons f
      /\ Type_ e = "Warning"))
  /\ (Type_ e <> "Warning" -> ShouldProcess f e = false).
Proof.
  assert ((ShouldProcess f e = true) <->
     (((namespaces f <> ∅) -> (effectiveNamespace e ∈ namespaces f))
      /\ (effectiveNamespace e ∉ excludeNamespaces f)
      /\ Reason e ∈ eventReasons f
      /\ Type_ e = "Warning")) as Hiff.
  { rewrite ShouldProcess_eq, !andb_true_iff, !negb_true_iff,
      andb_false_iff, negb_false_iff, !bool_decide_eq_true,
      bool_decide_eq_false.
    split.
    - intros (((Hallow & Hdeny) & Hreason) & Htype).
      split; [|done]. intros Hne. destruct Hallow as [Hsz|Hin]; [|done].
      apply allow_set_nonempty in Hne. congruence.
    - intros (Hallow & Hdeny & Hreason & Htype).
      split; [split; [split|]|]; try done.
      destruct (0 <? Z.of_nat (size (namespaces f))) eqn:Hsz; [|by left].
      right. by apply Hallow, allow_set_nonempty. }
  split; [exact Hiff|].
  intros Hty. apply not_true_is_false. intros Hsp.
  apply Hiff in Hsp as (_ & _ & _ & ?). done.
Qed.

(** C4.  [MeetsThreshold(e)] is true exactly when the reason of [e] has no
    configured threshold or the count of [e] reaches the one configured; it
    is a function of the reason and the count of the event and of the
    thresholds of the filter alone. *)
Theorem MeetsThreshold_spec f e :
  ((MeetsThreshold f e = true) <->
     (eventThresholds f !! Reason e = None
      \/ exists threshold,
           eventThresholds f !! Reason e = Some threshold
           /\ threshold <= Count e))
  /\ (forall f' e',
        eventThresholds f' = eventThresholds f ->
        Reason e' = Reason e -> Count e' = Count e ->
        MeetsThreshold f' e' = MeetsThreshold f e).
Proof.
  split.
  - unfold MeetsThreshold.
    destruct (eventThresholds f !! Reason e) as [t|].
    + rewrite Z.leb_le. split.
      * intros H. right. by exists t.
      * intros [?|(t' & Heq & ?)]; [done|]. by injection Heq as ->.
    + split; [by left|done].
  - intros f' e' Hf Hr Hc. unfold MeetsThreshold. by rewrite Hf, Hr, Hc.
Qed.

End FilterFacts.

(** ** Runes and bytes *)

Section Utf8Facts.

Import GoStrings.

Lemma byte_range (c : ascii) : 0 <= byte c < 256.
Proof.
  unfold byte. pose proof (N_ascii_bounded c). lia.
Qed.

Lemma lor_max (a b : Z) : 0 <= a -> 0 <= b -> Z.max a b <= Z.lor a b.
Proof.
  intros Ha Hb.
  pose proof (Z.add_lor_land a b) as Hadd.
  pose proof (Z.sub_land_same_l a b) as Hl.
  pose proof (Z.sub_land_same_l b a) as Hr.
  rewrite (Z.land_comm b a) in Hr.
  assert (0 <= Z.land a (Z.lnot b)) by (apply Z.land_nonneg; by left).
  assert (0 <= Z.land b (Z.lnot a)) by (apply Z.land_nonneg; by left).
  lia.
Qed.

Lemma land_low_bits (a : Z) (k : Z) :
  0 <= k -> Z.land a (Z.ones k) = a mod 2 ^ k.
Proof. intros Hk. by apply Z.land_ones. Qed.

(** The bits of a leading byte, shifted into place, are at least the bits
    themselves times the weight of the place. *)
Lemma shifted_bits (x : Z) (k : Z) : 0 <= k -> Z.shiftl x k = x * 2 ^ k.
Proof. intros Hk. by apply Z.shiftl_mul_pow2. Qed.

Lemma lor_ge_l (a b : Z) : 0 <= a -> 0 <= b -> a <= Z.lor a b.
Proof. intros Ha Hb. pose proof (lor_max a b Ha Hb). lia. Qed.

Lemma lor_ge_r (a b : Z) : 0 <= a -> 0 <= b -> b <= Z.lor a b.
Proof. intros Ha Hb. pose proof (lor_max a b Ha Hb). lia. Qed.

Lemma low_bits_nonneg (a k : Z) : 0 <= k -> 0 <= Z.land a (Z.ones k).
Proof.
  intros Hk. rewrite land_low_bits by done.
  apply Z.mod_pos_bound. by apply Z.pow_pos_nonneg.
Qed.

Lemma shifted_nonneg (a k : Z) : 0 <= a -> 0 <= Z.shiftl a k.
Proof. intros Ha. by apply Z.shiftl_nonneg. Qed.

(** The code point of a two-byte sequence. *)
Lemma rune2_high (s0 s1 : Z) :
  0xC2 <= s0 <= 0xDF ->
  0x80 <= Z.lor (Z.shiftl (Z.land s0 0x1F) 6) (Z.land s1 0x3F).
Proof.
  intros H0.
  change 0x1F with (Z.ones 5). change 0x3F with (Z.ones 6).
  etrans; [|apply lor_ge_l;
             [apply shifted_nonneg, low_bits_nonneg; lia
             |apply low_bits_nonneg; lia]].
  rewrite land_low_bits, shifted_bits by lia.
  Z.div_mod_to_equations. lia.
Qed.

(** The code point of a three-byte sequence; after [0xE0] the second byte
    is at least [0xA0]. *)
Lemma rune3_high (s0 s1 s2 : Z) :
  0xE0 <= s0 <= 0xEF -> 0x80 <= s1 <= 0xBF -> (s0 = 0xE0 -> 0xA0 <= s1) ->
  0x80 <= Z.lor (Z.lor (Z.shiftl (Z.land s0 0x0F) 12)
                       (Z.shiftl (Z.land s1 0x3F) 6))
                (Z.land s2 0x3F).
Proof.
  intros H0 H1 HE0.
  change 0x0F with (Z.ones 4). change 0x3F with (Z.ones 6).
  assert (0 <= Z.shiftl (Z.land s0 (Z.ones 4)) 12)
    by (apply shifted_nonneg, low_bits_nonneg; lia).
  assert (0 <= Z.shiftl (Z.land s1 (Z.ones 6)) 6)
    by (apply shifted_nonneg, low_bits_nonneg; lia).
  etrans; [|apply lor_ge_l; [by apply Z.lor_nonneg|apply low_bits_nonneg; lia]].
  destruct (decide (s0 = 0xE0)) as [HE|HE].
  - etrans; [|by apply lor_ge_r].
    rewrite land_low_bits, shifted_bits by lia.
    specialize (HE0 HE). Z.div_mod_to_equations. lia.
  - etrans; [|by apply lor_ge_l].
    rewrite land_low_bits, shifted_bits by lia.
    Z.div_mod_to_equations. lia.
Qed.

(** The code point of a four-byte sequence; after [0xF0] the second byte
    is at least [0x90]. *)
Lemma rune4_high (s0 s1 s2 s3 : Z) :
  0xF0 <= s0 <= 0xF4 -> 0x80 <= s1 <= 0xBF -> (s0 = 0xF0 -> 0x90 <= s1) ->
  0x80 <= Z.lor (Z.lor (Z.lor (Z.shiftl (Z.land s0 0x07) 18)
                              (Z.shiftl (Z.land s1 0x3F) 12))
                       (Z.shiftl (Z.land s2 0x3F) 6))
                (Z.land s3 0x3F).
Proof.
  intros H0 H1 HF0.
  change 0x07 with (Z.ones 3). change 0x3F with (Z.ones 6).
  assert (0 <= Z.shiftl (Z.land s0 (Z.ones 3)) 18)
    by (apply shifted_nonneg, low_bits_nonneg; lia).
  assert (0 <= Z.shiftl (Z.land s1 (Z.ones 6)) 12)
    by (apply shifted_nonneg, low_bits_nonneg; lia).
  assert (0 <= Z.shiftl (Z.land s2 (Z.ones 6)) 6)
    by (apply shifted_nonneg, low_bits_nonneg; lia).
  etrans; [|apply lor_ge_l; [|apply low_bits_nonneg; lia]].
  2:{ apply Z.lor_nonneg. split; [by apply Z.lor_nonneg|done]. }
  etrans; [|apply lor_ge_l; [by apply Z.lor_nonneg|done]].
  destruct (decide (s0 = 0xF0)) as [HF|HF].
  - etrans; [|by apply lor_ge_r].
    rewrite land_low_bits, shifted_bits by lia.
    specialize (HF0 HF). Z.div_mod_to_equations. lia.
  - etrans; [|by apply lor_ge_l].
    rewrite land_low_bits, shifted_bits by lia.
    Z.div_mod_to_equations. lia.
Qed.

(** What the table [first] says about a leading byte. *)
Lemma first_Some (s0 sz lo hi : Z) :
  first s0 = Some (sz, lo, hi) ->
  (sz = 2 /\ 0xC2 <= s0 <= 0xDF /\ 0x80 <= lo)
  \/ (sz = 3 /\ 0xE0 <= s0 <= 0xEF /\ 0x80 <= lo /\ hi <= 0xBF
      /\ (s0 = 0xE0 -> 0xA0 <= lo))
  \/ (sz = 4 /\ 0xF0 <= s0 <= 0xF4 /\ 0x80 <= lo /\ hi <= 0xBF
      /\ (s0 = 0xF0 -> 0x90 <= lo)).
Proof.
  unfold first. intros H.
  repeat match type of H with
         | (if ?b then _ else _) = _ =>
             let E := fresh "E" in destruct b eqn:E
         end; try discriminate; injection H as <- <- <-;
    repeat match goal with
           | H : (_ <? _) = true |- _ => apply Z.ltb_lt in H
           | H : (_ <? _) = false |- _ => apply Z.ltb_ge in H
           | H : (_ =? _) = true |- _ => apply Z.eqb_eq in H
           | H : (_ =? _) = false |- _ => apply Z.eqb_neq in H
           end; lia.
Qed.

(** A rune decoded from a sequence that starts with a byte [>= 0x80] is
    [RuneError] or a code point outside ASCII. *)
Lemma DecodeRune_high (c0 : ascii) (t0 : string) :
  0x80 <= byte c0 -> 0x80 <= fst (DecodeRune (String c0 t0)).
Proof.
  intros Hhigh. unfold DecodeRune.
  destruct (Z.ltb_spec (byte c0) 0x80) as [?|_]; [lia|].
  destruct (first (byte c0)) as [[[sz lo] hi]|] eqn:Hfirst; [|done].
  destruct t0 as [|c1 t1]; [done|].
  destruct ((byte c1 <? lo) || (hi <? byte c1)) eqn:Hrange; [done|].
  apply orb_false_iff in Hrange as [Hlo Hhi].
  apply Z.ltb_ge in Hlo, Hhi.
  apply first_Some in Hfirst
    as [(-> & H0 & Hl)|[(-> & H0 & Hl & Hh & HE)|(-> & H0 & Hl & Hh & HF)]].
  - cbn [Z.leb Z.compare Pos.compare Pos.compare_cont fst].
    by apply rune2_high.
  - cbn [Z.leb Z.compare Pos.compare Pos.compare_cont].
    destruct t1 as [|c2 t2]; [done|].
    destruct (continuation (byte c2)); [|done].
    cbn [negb fst]. apply rune3_high; [done|lia|]. intros HE0. specialize (HE HE0). lia.
  - cbn [Z.leb Z.compare Pos.compare Pos.compare_cont].
    destruct t1 as [|c2 t2]; [done|].
    destruct (continuation (byte c2)); [|done].
    cbn [negb]. destruct t2 as [|c3 t3]; [done|].
    destruct (continuation (byte c3)); [|done].
    cbn [negb fst]. apply rune4_high; [done|lia|]. intros HF0. specialize (HF HF0). lia.
Qed.

End Utf8Facts.

(** ** Grouping pods by deployment *)

Section SentryFacts.

Import GoStrings Sentry EventSpec.

Lemma rune_ok_byte (c : ascii) : rune_ok (byte c) = lower_or_digitb c.
Proof.
  unfold rune_ok, lower_or_digitb.
  destruct ((97 <=? byte c) && (byte c <=? 122));
    destruct ((48 <=? byte c) && (byte c <=? 57)); reflexivity.
Qed.

Lemma rune_ok_high (r : Z) : 0x80 <= r -> rune_ok r = false.
Proof.
  intros H. unfold rune_ok.
  destruct (Z.leb_spec r 122); [lia|]. destruct (Z.leb_spec r 57); [lia|].
  by rewrite !andb_false_r.
Qed.

Lemma lower_or_digitb_high (c : ascii) : 0x80 <= byte c -> lower_or_digitb c = false.
Proof. intros H. rewrite <- rune_ok_byte. by apply rune_ok_high. Qed.

(** The loop over the runes of [s] finds what a loop over its bytes would
    find, and [length s] iterations are enough for it. *)
Lemma isAlphanumeric_loop_bytes (fuel : nat) : forall s : string,
  (String.length s <= fuel)%nat ->
  isAlphanumeric_loop fuel s = forallb lower_or_digitb (list_ascii_of_string s).
Proof.
  induction fuel as [|fuel IH]; intros [|c t] Hlen; simpl in Hlen; try done; [lia|].
  cbn [isAlphanumeric_loop list_ascii_of_string forallb].
  destruct (Z.ltb_spec (byte c) 0x80) as [Hlow|Hhigh].
  - assert (DecodeRune (String c t) = (byte c, 1%nat)) as ->.
    { unfold DecodeRune. by destruct (Z.ltb_spec (byte c) 0x80); [|lia]. }
    rewrite rune_ok_byte. cbn [skip]. rewrite IH by lia. done.
  - pose proof (DecodeRune_high c t Hhigh) as Hr.
    destruct (DecodeRune (String c t)) as [r width]. cbn [fst] in Hr.
    by rewrite rune_ok_high, lower_or_digitb_high.
Qed.

Lemma lower_or_digitb_spec (c : ascii) :
  lower_or_digitb c = true <-> lower_or_digit c.
Proof.
  unfold lower_or_digitb, lower_or_digit.
  rewrite orb_true_iff, !andb_true_iff, !Z.leb_le. done.
Qed.

(** [isAlphanumeric(s)] holds exactly for the strings of lowercase letters
    and digits. *)
Lemma isAlphanumeric_spec (s : string) :
  isAlphanumeric s = true <-> lowercase_alphanumeric s.
Proof.
  unfold isAlphanumeric, lowercase_alphanumeric.
  rewrite isAlphanumeric_loop_bytes by done.
  rewrite forallb_forall, List.Forall_forall.
  split; intros H c Hc; apply lower_or_digitb_spec; by apply H.
Qed.

(** [Split] gives at least one segment, the segments contain no separator,
    and joining them with the separator gives the string back. *)
Lemma Split_nonempty (s : string) (sep : ascii) : Split s sep <> [].
Proof.
  destruct s as [|c t]; simpl; [done|].
  destruct (Ascii.eqb c sep); [done|]. by destruct (Split t sep).
Qed.

Lemma Split_free (s : string) (sep : ascii) : Forall (free_of sep) (Split s sep).
Proof.
  induction s as [|c t IH]; simpl.
  - repeat constructor.
  - destruct (Ascii.eqb_spec c sep) as [->|Hne].
    + constructor; [constructor|done].
    + destruct (Split t sep) as [|part parts]; [repeat constructor; done|].
      inversion IH as [|? ? Hpart Hparts]; subst.
      constructor; [|done]. by constructor.
Qed.

Lemma Join_Split (s : string) (sep : ascii) :
  Join (Split s sep) (String sep EmptyString) = s.
Proof.
  induction s as [|c t IH]; simpl; [done|].
  destruct (Ascii.eqb_spec c sep) as [->|Hne].
  - pose proof (Split_nonempty t sep).
    destruct (Split t sep) as [|part parts] eqn:E; [done|].
    simpl. by rewrite <- IH.
  - pose proof (Split_nonempty t sep).
    destruct (Split t sep) as [|part parts] eqn:E; [done|].
    rewrite <- IH. by destruct parts.
Qed.

(** Segments without a separator are found again by [Split]: with
    [Join_Split] and [Split_free], [Split s sep] is the one list of
    separator-free segments that [Join] turns into [s]. *)
Lemma Split_segment (part : string) (sep : ascii) :
  free_of sep part -> Split part sep = [part].
Proof.
  unfold free_of. induction part as [|c t IH]; simpl; intros Hfree; [done|].
  apply Forall_cons in Hfree as [Hc Hfree].
  destruct (Ascii.eqb_spec c sep) as [->|_]; [done|]. by rewrite IH.
Qed.

Lemma Split_first (part rest : string) (sep : ascii) :
  free_of sep part ->
  Split (part +:+ String sep rest) sep = part :: Split rest sep.
Proof.
  unfold free_of. induction part as [|c t IH]; simpl; intros Hfree.
  - by rewrite Ascii.eqb_refl.
  - apply Forall_cons in Hfree as [Hc Hfree].
    destruct (Ascii.eqb_spec c sep) as [->|_]; [done|]. by rewrite IH.
Qed.

Lemma Split_Join (parts : list string) (sep : ascii) :
  parts <> [] -> Forall (free_of sep) parts ->
  Split (Join parts (String sep EmptyString)) sep = parts.
Proof.
  induction parts as [|part [|part' parts] IH]; intros Hne Hfree; [done| |].
  - apply Forall_cons in Hfree as [Hpart _]. by apply Split_segment.
  - apply Forall_cons in Hfree as [Hpart Hfree].
    change (Join (part :: part' :: parts) (String sep EmptyString))
      with (part +:+ String sep (Join (part' :: parts) (String sep EmptyString))).
    rewrite Split_first by done. by rewrite IH.
Qed.

(** A list of at least two elements ends with its last two elements. *)
Lemma last_two (parts : list string) :
  (2 <= length parts)%nat ->
  parts = take (length parts - 2) parts
          ++ [default EmptyString (parts !! (length parts - 2)%nat);
              default EmptyString (parts !! (length parts - 1)%nat)].
Proof.
  intros Hlen.
  rewrite <- (take_drop (length parts - 2) parts) at 1. f_equal.
  destruct (drop (length parts - 2) parts) as [|a [|b [|c l]]] eqn:Hdrop.
  - apply (f_equal length) in Hdrop. rewrite length_drop in Hdrop. simpl in Hdrop. lia.
  - apply (f_equal length) in Hdrop. rewrite length_drop in Hdrop. simpl in Hdrop. lia.
  - assert (parts !! (length parts - 2)%nat = Some a) as ->.
    { rewrite <- (Nat.add_0_r (length parts - 2)), <- lookup_drop.
      by rewrite Hdrop. }
    assert (parts !! (length parts - 1)%nat = Some b) as ->.
    { replace (length parts - 1)%nat with (length parts - 2 + 1)%nat by lia.
      rewrite <- lookup_drop. by rewrite Hdrop. }
    done.
  - apply (f_equal length) in Hdrop. rewrite length_drop in Hdrop. simpl in Hdrop. lia.
Qed.

(** The decision of [ExtractDeploymentName] on the list of segments. *)
Lemma ExtractDeploymentName_parts (podName : string) (prefix : list string)
  (secondLastPart lastPart : string) :
  Split podName "-" = prefix ++ [secondLastPart; lastPart] ->
  prefix <> [] ->
  ExtractDeploymentName podName =
    if (len lastPart <=? 6) && (5 <=? len secondLastPart)
       && (len secondLastPart <=? 12)
       && (isAlphanumeric lastPart && isAlphanumeric secondLastPart)
    then Join prefix "-"
    else podName.
Proof.
  intros Hparts Hprefix. unfold ExtractDeploymentName. rewrite Hparts.
  assert (length (prefix ++ [secondLastPart; lastPart]) = S (S (length prefix)))
    as Hlen by (rewrite length_app; simpl; lia).
  rewrite Hlen.
  destruct (Z.ltb_spec (Z.of_nat (S (S (length prefix)))) 3) as [Hlt|_].
  { destruct prefix; [done|]. simpl in Hlt. lia. }
  replace (S (S (length prefix)) - 1)%nat with (length prefix + 1)%nat by lia.
  replace (S (S (length prefix)) - 2)%nat with (length prefix + 0)%nat by lia.
  rewrite !lookup_app_r, !Nat.add_0_r by lia.
  replace (length prefix + 1 - length prefix)%nat with 1%nat by lia.
  rewrite Nat.sub_diag, take_app_length. cbn [lookup list_lookup default].
  unfold id.
  destruct ((len lastPart <=? 6) && (5 <=? len secondLastPart)
            && (len secondLastPart <=? 12)); [|done].
  by destruct (isAlphanumeric lastPart && isAlphanumeric secondLastPart).
Qed.

(** C5.  [ExtractDeploymentName] works on the segments of the pod name
    between the dashes.  When there are at least three of them, the last
    has at most 6 bytes, all lowercase letters or digits, and the one before
    has between 5 and 12 bytes, all lowercase letters or digits, the result
    is the segments before these two, joined with dashes; in every other
    case it is the pod name itself.  ["worker-79c6dd4b57-wcdzt"] gives
    ["worker"]; ["redis-0"] and ["a-b-c"] are returned as they are. *)
Theorem ExtractDeploymentName_spec (podName : string) :
  let parts := Split podName "-" in
  let shaped (prefix : list string) (secondLastPart lastPart : string) :=
    parts = prefix ++ [secondLastPart; lastPart] /\ prefix <> []
    /\ pod_hash lastPart /\ replicaset_hash secondLastPart in
  Join parts "-" = podName
  /\ Forall (free_of "-") parts
  /\ (forall prefix secondLastPart lastPart,
        shaped prefix secondLastPart lastPart ->
        ExtractDeploymentName podName = Join prefix "-")
  /\ ((~ exists prefix secondLastPart lastPart,
           shaped prefix secondLastPart lastPart) ->
      ExtractDeploymentName podName = podName)
  /\ ExtractDeploymentName "worker-79c6dd4b57-wcdzt" = "worker"
  /\ ExtractDeploymentName "redis-0" = "redis-0"
  /\ ExtractDeploymentName "a-b-c" = "a-b-c".
Proof.
  intros parts shaped.
  assert (forall a b : string,
             ((len b <=? 6) && (5 <=? len a) && (len a <=? 12)
              && (isAlphanumeric b && isAlphanumeric a)) = true
             <-> pod_hash b /\ replicaset_hash a) as Hcond.
  { intros a b. unfold pod_hash, replicaset_hash, len.
    rewrite !andb_true_iff, !Z.leb_le, !isAlphanumeric_spec. intuition lia. }
  split; [apply Join_Split|]. split; [apply Split_free|].
  split; [|split; [|by vm_compute]].
  - intros prefix a b (Hparts & Hprefix & Hb & Ha).
    rewrite (ExtractDeploymentName_parts podName prefix a b Hparts Hprefix).
    by rewrite (proj2 (Hcond a b)).
  - intros Hnone.
    destruct (Nat.lt_ge_cases (length parts) 3) as [Hshort|Hlong].
    + unfold ExtractDeploymentName. fold parts.
      by destruct (Z.ltb_spec (Z.of_nat (length parts)) 3); [|lia].
    + pose proof (last_two parts ltac:(lia)) as Hparts.
      set (prefix := take (length parts - 2) parts) in *.
      set (a := default EmptyString (parts !! (length parts - 2)%nat)) in *.
      set (b := default EmptyString (parts !! (length parts - 1)%nat)) in *.
      assert (prefix <> []) as Hprefix.
      { intros Hnil. apply (f_equal length) in Hnil.
        unfold prefix in Hnil. rewrite length_take in Hnil. simpl in Hnil. lia. }
      rewrite (ExtractDeploymentName_parts podName prefix a b Hparts Hprefix).
      destruct ((len b <=? 6) && (5 <=? len a) && (len a <=? 12)
                && (isAlphanumeric b && isAlphanumeric a)) eqn:Hc; [|done].
      exfalso. apply Hnone. exists prefix, a, b.
      apply Hcond in Hc as [? ?]. done.
Qed.

End SentryFacts.

(** ** The watcher *)

Section WatcherFacts.

Import K8s Watcher EventSpec.

(** C1.  For an event that passes [ShouldProcess], [processEvent] calls
    [Check] on the effective namespace, the deployment derived from the pod
    name, and the reason, whatever [MeetsThreshold] says: the deduplicator
    is left in the state that call produces.  It then hands one [EventData]
    to the sender, whose flag [MeetsThreshold] is true exactly when
    [MeetsThreshold(event)] is true and that call returned [isNew = true]. *)
Theorem processEvent_spec (f : Filter.Filter) (w : World) (event : Event)
  (now : Dedup.Time) (d' : Dedup.Deduplicator) (isNew : bool) (count : Z)
  (firstSeen lastSeen : Dedup.Time) :
  Filter.ShouldProcess f event = true ->
  Dedup.Check (dedup w) (effectiveNamespace event)
    (Sentry.ExtractDeploymentName (Name (InvolvedObject event)))
    (Reason event) now = (d', (isNew, count, firstSeen, lastSeen)) ->
  exists data,
    processEvent f w event now = {| dedup := d'; sent := sent w ++ [data] |}
    /\ Sentry.Event data = event
    /\ Sentry.Count data = count
    /\ Sentry.FirstSeen data = firstSeen
    /\ Sentry.LastSeen data = lastSeen
    /\ ((Sentry.MeetsThreshold data = true) <->
        (Filter.MeetsThreshold f event = true /\ isNew = true)).
Proof.
  intros Hsp Hcheck. unfold processEvent. rewrite Hsp. cbn [negb].
  change (if bool_decide (ObjNamespace (InvolvedObject event) = EmptyString)
          then Namespace event else ObjNamespace (InvolvedObject event))
    with (effectiveNamespace event).
  rewrite Hcheck. eexists. split; [reflexivity|].
  cbn [Sentry.Event Sentry.Count Sentry.FirstSeen Sentry.LastSeen
       Sentry.MeetsThreshold].
  do 4 (split; [reflexivity|]). apply andb_true_iff.
Qed.

End WatcherFacts.

(** ** Loading the configuration *)

Section ConfigFacts.

Import GoStrings Config EventSpec.

Variable Sscanf_d : string -> GoFmt.Scan.
Variable ParseDuration : string -> option Dedup.Duration.

(** [Cut] finds the first separator. *)
Lemma Cut_Some (s : string) (sep : ascii) (before after : string) :
  Cut s sep = Some (before, after) <->
  s = before +:+ String sep after /\ free_of sep before.
Proof.
  revert before. induction s as [|c t IH]; intros before.
  - simpl. split; [done|]. intros [H _]. by destruct before.
  - cbn [Cut]. destruct (Ascii.eqb_spec c sep) as [->|Hne].
    + split.
      * intros H. injection H as <- <-. split; [done|constructor].
      * intros [H Hfree]. destruct before as [|b before].
        -- simpl in H. by injection H as <-.
        -- simpl in H. injection H as <- _.
           unfold free_of in Hfree. simpl in Hfree.
           apply Forall_cons in Hfree as [Hb _]. done.
    + split.
      * intros H. destruct (Cut t sep) as [[b a]|] eqn:Hcut; [|done].
        injection H as <- <-.
        destruct (proj1 (IH b) eq_refl) as [-> Hfree].
        split; [done|]. unfold free_of. simpl. by constructor.
      * intros [H Hfree]. destruct before as [|b' before].
        -- simpl in H. injection H as -> _. done.
        -- simpl in H. injection H as <- H.
           unfold free_of in Hfree. simpl in Hfree.
           apply Forall_cons in Hfree as [_ Hfree].
           by rewrite (proj2 (IH before) (conj H Hfree)).
Qed.

Lemma Cut_None (s : string) (sep : ascii) : Cut s sep = None <-> free_of sep s.
Proof.
  unfold free_of. induction s as [|c t IH]; simpl.
  - split; [constructor|done].
  - destruct (Ascii.eqb_spec c sep) as [->|Hne].
    + split; [done|]. intros H. by apply Forall_cons in H as [? _].
    + destruct (Cut t sep) as [[b a]|].
      * split; [done|]. intros H. apply Forall_cons in H as [_ H].
        by apply IH in H.
      * split; [|done]. intros _. constructor; [done|]. by apply IH.
Qed.

(** The loop over the items passes over the items without a colon: they
    neither change the thresholds nor raise an error. *)
Lemma loadThresholds_skips (items : list string) (thresholds : gmap string Z) :
  Forall (free_of ":") items ->
  loadThresholds Sscanf_d items thresholds = inr thresholds.
Proof.
  induction items as [|item items IH]; intros Hfree; [done|].
  apply Forall_cons in Hfree as [Hitem Hfree]. simpl.
  unfold SplitN2. rewrite (proj2 (Cut_None item ":") Hitem). by apply IH.
Qed.

(** The loop over the items stops with an error at the first item that has
    a colon and a count [parseThreshold] rejects. *)
Lemma loadThresholds_rejects (items : list string) : forall thresholds item reason countStr,
  item ∈ items ->
  SplitN2 item ":" = [reason; countStr] ->
  parseThreshold Sscanf_d (TrimSpace countStr) = None ->
  exists err, loadThresholds Sscanf_d items thresholds = inl err.
Proof.
  induction items as [|i items IH]; intros thresholds item reason countStr Hin Hsplit Hbad.
  - inversion Hin.
  - simpl. apply elem_of_cons in Hin as [<-|Hin].
    + rewrite Hsplit, Hbad. eauto.
    + destruct (SplitN2 i ":") as [|p0 [|p1 [|p2 l]]]; try by eapply IH.
      destruct (parseThreshold Sscanf_d (TrimSpace p1)); [by eapply IH|eauto].
Qed.

Lemma splitAndTrim_empty : splitAndTrim EmptyString = [].
Proof. reflexivity. Qed.

(** C9, as amended.  When [KUBE_SENTRY_THRESHOLDS], split at the commas and
    trimmed, has an item [reason:count] (the text before its first colon,
    the text after it) whose count, trimmed, [parseThreshold] rejects,
    [Load] returns an error and no configuration, and [main], started
    without [--version], exits with 1. *)
Theorem Load_rejects_bad_count (env : gmap string string) (dryRun : bool)
  (item reason countStr : string) :
  item ∈ splitAndTrim (Getenv env "KUBE_SENTRY_THRESHOLDS") ->
  item = reason +:+ ":" +:+ countStr -> free_of ":" reason ->
  parseThreshold Sscanf_d (TrimSpace countStr) = None ->
  (exists err, Load Sscanf_d ParseDuration env dryRun = (None, Some err))
  /\ Main.startup Sscanf_d ParseDuration env false dryRun = Main.Exit 1.
Proof.
  intros Hin Hitem Hfree Hbad.
  assert (exists err, Load Sscanf_d ParseDuration env dryRun = (None, Some err))
    as [err Herr].
  { unfold Load.
    destruct (negb dryRun && bool_decide (Getenv env "SENTRY_DSN" = EmptyString));
      [eauto|].
    case_bool_decide as Hempty.
    { rewrite Hempty, splitAndTrim_empty in Hin. inversion Hin. }
    destruct (loadThresholds_rejects
                (splitAndTrim (Getenv env "KUBE_SENTRY_THRESHOLDS"))
                DefaultEventThresholds item reason countStr Hin) as [err ->].
    - unfold SplitN2. by rewrite (proj2 (Cut_Some item ":" reason countStr)).
    - done.
    - eauto. }
  split; [eauto|]. unfold Main.startup. by rewrite Herr.
Qed.

End ConfigFacts.

(** ** The theorems at concrete inputs *)

Section Instances.

Import Examples.

(** [processEvent] on a warning below its threshold, with an empty cache:
    [Check] is called and creates the entry; the event is sent without the
    flag. *)
Lemma processEvent_spec_witness :
  Filter.ShouldProcess filter_unhealthy unhealthy_event = true
  /\ Filter.MeetsThreshold filter_unhealthy unhealthy_event = false
  /\ exists data,
       Watcher.processEvent filter_unhealthy
         {| Watcher.dedup := Dedup.New 300; Watcher.sent := [] |}
         unhealthy_event 0
       = {| Watcher.dedup :=
              fst (Dedup.Check (Dedup.New 300) "production" "worker" "Unhealthy" 0);
            Watcher.sent := [] ++ [data] |}
       /\ Sentry.Event data = unhealthy_event
       /\ Sentry.Count data = 1
       /\ Sentry.FirstSeen data = 0
       /\ Sentry.LastSeen data = 0
       /\ ((Sentry.MeetsThreshold data = true) <->
           (Filter.MeetsThreshold filter_unhealthy unhealthy_event = true
            /\ true = true)).
Proof.
  split; [reflexivity|]. split; [reflexivity|].
  apply (processEvent_spec filter_unhealthy
           {| Watcher.dedup := Dedup.New 300; Watcher.sent := [] |}
           unhealthy_event 0
           (fst (Dedup.Check (Dedup.New 300) "production" "worker" "Unhealthy" 0))
           true 1 0 0); reflexivity.
Defined.

(** [Check] on a live entry and on an unknown key. *)
Lemma Check_spec_witness :
  (Dedup.Check one_entry "default" "my-pod" "OOMKilled" 7 =
     ({| Dedup.window := 300;
         Dedup.entries :=
           <["default/my-pod/OOMKilled" :=
               {| Dedup.key := "default/my-pod/OOMKilled";
                  Dedup.expiresAt := 7 + 300;
                  Dedup.count := GoInt.incr 1;
                  Dedup.firstSeen := 0; Dedup.lastSeen := 7 |}]>
             (Dedup.entries one_entry);
         Dedup.order := ["default/my-pod/OOMKilled"] |},
      (false, GoInt.incr 1, 0, 7))
   /\ (GoInt.MinInt <= 1 < GoInt.MaxInt -> GoInt.incr 1 = 1 + 1))
  /\ exists d',
       Dedup.Check one_entry "default" "other-pod" "OOMKilled" 7
       = (d', (true, 1, 7, 7))
       /\ Dedup.entries d' !! "default/other-pod/OOMKilled" =
            Some {| Dedup.key := "default/other-pod/OOMKilled";
                    Dedup.expiresAt := 7 + 300; Dedup.count := 1;
                    Dedup.firstSeen := 7; Dedup.lastSeen := 7 |}
       /\ Dedup.window d' = 300.
Proof.
  split.
  - apply (proj1 (Check_spec one_entry "default" "my-pod" "OOMKilled" 7)
             {| Dedup.key := "default/my-pod/OOMKilled"; Dedup.expiresAt := 300;
                Dedup.count := 1; Dedup.firstSeen := 0; Dedup.lastSeen := 0 |});
      [reflexivity|simpl; lia].
  - apply (proj2 (Check_spec one_entry "default" "other-pod" "OOMKilled" 7)).
    left. reflexivity.
Defined.

(** The entry invariant after a creation and across a hit. *)
Lemma entry_invariant_witness :
  (forall k e,
      Dedup.entries
        (Dedup.run (Dedup.New 300) [Dedup.OpCheck "default" "my-pod" "OOMKilled" 0])
        !! k = Some e ->
      Dedup.firstSeen e <= Dedup.lastSeen e <= Dedup.expiresAt e
      /\ 1 <= Dedup.count e)
  /\ (forall k e,
        Dedup.entries
          (Dedup.step
             (Dedup.run (Dedup.New 300)
                [Dedup.OpCheck "default" "my-pod" "OOMKilled" 0])
             (Dedup.OpCheck "default" "my-pod" "OOMKilled" 7))
          !! k = Some e ->
        Dedup.firstSeen e <= Dedup.lastSeen e <= Dedup.expiresAt e
        /\ 1 <= Dedup.count e).
Proof.
  apply (entry_invariant 300
           [Dedup.OpCheck "default" "my-pod" "OOMKilled" 0]
           (Dedup.OpCheck "default" "my-pod" "OOMKilled" 7)).
  - lia.
  - simpl. split; [lia|exact I].
  - simpl. lia.
Defined.

(** Two triples, one key, seven nanoseconds apart in a window of 300. *)
Lemma colliding_triples_share_entry_witness :
  (forall d0 ns g r ns' g' r' now,
      ns +:+ "/" +:+ g +:+ "/" +:+ r = ns' +:+ "/" +:+ g' +:+ "/" +:+ r' ->
      Dedup.Check d0 ns g r now = Dedup.Check d0 ns' g' r' now)
  /\ ("a", "b/c", "r") <> ("a/b", "c", "r")
  /\ "a" +:+ "/" +:+ "b/c" +:+ "/" +:+ "r" = "a/b" +:+ "/" +:+ "c" +:+ "/" +:+ "r"
  /\ exists d2,
       Dedup.Check (fst (Dedup.Check (Dedup.New 300) "a" "b/c" "r" 0))
         "a/b" "c" "r" 7 = (d2, (false, 2, 0, 7))
       /\ Dedup.Size d2
          = Dedup.Size (fst (Dedup.Check (Dedup.New 300) "a" "b/c" "r" 0)).
Proof.
  apply (colliding_triples_share_entry (Dedup.New 300) 0 7
           (fst (Dedup.Check (Dedup.New 300) "a" "b/c" "r" 0)) 1 0 0).
  - reflexivity.
  - simpl. lia.
Defined.

(** C9, the claim as stated fails: [KUBE_SENTRY_THRESHOLDS=Unhealthy] holds
    an item without a colon, which is not of the form [Reason:N]; [Load]
    passes it over and returns a configuration with the default thresholds
    and no error, and [main] goes on with it. *)
Lemma Load_skips_item_without_colon :
  Config.splitAndTrim (Config.Getenv env_no_colon "KUBE_SENTRY_THRESHOLDS")
    = ["Unhealthy"]
  /\ EventSpec.free_of ":" "Unhealthy"
  /\ exists cfg,
       Config.Load GoFmt.Sscanf_d GoTime.ParseDuration_tested env_no_colon false
         = (Some cfg, None)
       /\ Config.EventThresholds cfg = Config.DefaultEventThresholds
       /\ Config.DedupWindow cfg = 5 * GoTime.Minute
       /\ Main.startup GoFmt.Sscanf_d GoTime.ParseDuration_tested env_no_colon
            false false = Main.Continue cfg.
Proof.
  split; [reflexivity|]. split.
  - unfold EventSpec.free_of. simpl. repeat constructor; discriminate.
  - eexists. split; [vm_compute; reflexivity|]. repeat split; reflexivity.
Qed.

(** An item with a colon and a count that is not a number. *)
Lemma Load_rejects_bad_count_witness :
  "Unhealthy:many"
    ∈ Config.splitAndTrim (Config.Getenv env_bad_count "KUBE_SENTRY_THRESHOLDS")
  /\ Config.parseThreshold GoFmt.Sscanf_d (GoStrings.TrimSpace "many") = None
  /\ (exists err,
        Config.Load GoFmt.Sscanf_d GoTime.ParseDuration_tested env_bad_count false
        = (None, Some err))
  /\ Main.startup GoFmt.Sscanf_d GoTime.ParseDuration_tested env_bad_count
       false false = Main.Exit 1.
Proof.
  assert ("Unhealthy:many"
            ∈ Config.splitAndTrim
                (Config.Getenv env_bad_count "KUBE_SENTRY_THRESHOLDS")) as Hin.
  { change ("Unhealthy:many" ∈ ["BackOff:2"; "Unhealthy:many"]).
    apply list_elem_of_further, list_elem_of_here. }
  split; [exact Hin|]. split; [reflexivity|].
  apply (Load_rejects_bad_count GoFmt.Sscanf_d GoTime.ParseDuration_tested
           env_bad_count false "Unhealthy:many" "Unhealthy" "many").
  - exact Hin.
  - reflexivity.
  - unfold EventSpec.free_of. simpl. repeat constructor; discriminate.
  - reflexivity.
Defined.

End Instances.

(** * More properties *)

(** ** The deduplicator: reading back, expiry, isolation *)

Section MoreDedup.

Import Dedup DedupSpec MoreSpec.

Implicit Types (d : Deduplicator) (es : gmap string entry) (now : Time).

(** Whatever [Check] returns is what it leaves in the entry of the key. *)
Lemma Check_entry_after d namespace pod reason now d' (isNew : bool) (c : Z)
  (f l : Time) :
  Check d namespace pod reason now = (d', (isNew, c, f, l)) ->
  exists e,
    entries d' !! mkKey namespace pod reason = Some e
    /\ expiresAt e = now + window d /\ count e = c
    /\ firstSeen e = f /\ lastSeen e = l /\ l = now
    /\ window d' = window d.
Proof.
  unfold Check. intros H.
  destruct (entries d !! mkKey namespace pod reason) as [e|] eqn:Ek;
    [destruct (Before now (expiresAt e))|]; injection H as <- <- <- <- <-.
  - eexists. split; [apply lookup_insert_eq|]. by repeat split.
  - eexists. split.
    + apply (addEntry_lookup
               {| window := window d;
                  entries := delete (mkKey namespace pod reason) (entries d);
                  order := order d |}).
    + repeat split. by rewrite addEntry_window.
  - eexists. split; [apply addEntry_lookup|].
    repeat split. apply addEntry_window.
Qed.

(** X1.  What [Check] returned can be read back with [GetStats] for as long
    as the window that the call opened lasts: a [GetStats] on the same
    triple at a time before [now + window] finds the entry and returns the
    count and the two timestamps of that [Check]. *)
Theorem GetStats_after_Check d namespace pod reason now d' (isNew : bool)
  (c : Z) (f l : Time) (later : Time) :
  Check d namespace pod reason now = (d', (isNew, c, f, l)) ->
  later < now + window d ->
  GetStats d' namespace pod reason later = (c, f, l, true).
Proof.
  intros Hcheck Hlater.
  apply Check_entry_after in Hcheck as (e & He & Hexp & <- & <- & <- & _ & _).
  unfold GetStats. rewrite He. unfold Before. rewrite Hexp.
  by destruct (Z.ltb_spec later (now + window d)); [|lia].
Qed.

(** X2.  Once a triple has been quiet for a whole window it is new again:
    after a [Check] at [now], hit or miss, a [Check] on the same triple at
    [now + window] or later answers [isNew = true] with count 1, and
    [GetStats] does not find the triple at such a time. *)
Theorem Check_after_quiet_window d namespace pod reason now d' (result : CheckResult)
  (later : Time) :
  Check d namespace pod reason now = (d', result) ->
  now + window d <= later ->
  (exists d'',
      Check d' namespace pod reason later = (d'', (true, 1, later, later)))
  /\ GetStats d' namespace pod reason later = (0, 0, 0, false).
Proof.
  destruct result as [[[isNew c] f] l]. intros Hcheck Hlater.
  apply Check_entry_after in Hcheck as (e & He & Hexp & _ & _ & _ & _ & Hw).
  split.
  - destruct (Check_miss d' namespace pod reason later) as (d'' & Hc & _).
    + right. exists e. split; [done|]. lia.
    + by exists d''.
  - unfold GetStats. rewrite He. unfold Before.
    by destruct (Z.ltb_spec later (expiresAt e)); [lia|].
Qed.

(** What the sweep leaves of a map: the entries that are live, and the
    expired ones whose key the order does not list. *)
Lemma sweep_lookup now ord : forall es acc es' ord',
  sweep now ord es acc = (es', ord') ->
  forall k,
    es' !! k = match es !! k with
               | Some e => if live now e then Some e
                           else if bool_decide (k ∈ ord) then None else Some e
               | None => None
               end.
Proof.
  unfold live.
  induction ord as [|k0 rest IH]; intros es acc es' ord' Hsw k; simpl in Hsw.
  - injection Hsw as <- <-. destruct (es !! k) as [e|]; [|done].
    destruct (Before now (expiresAt e)); [done|].
    case_bool_decide as Hin; [inversion Hin|done].
  - destruct (es !! k0) as [e0|] eqn:Ek0;
      [destruct (Before now (expiresAt e0)) eqn:Hlive0|].
    + rewrite (IH _ _ _ _ Hsw k).
      destruct (es !! k) as [e|] eqn:Ek; [|done].
      destruct (Before now (expiresAt e)) eqn:Hlive; [done|].
      assert (k <> k0) by congruence.
      case_bool_decide as Hin1; case_bool_decide as Hin2; [done| | |done].
      { exfalso. apply Hin2. by right. }
      { apply elem_of_cons in Hin2 as [?|?]; done. }
    + rewrite (IH _ _ _ _ Hsw k).
      destruct (decide (k = k0)) as [->|Hne].
      * rewrite lookup_delete_eq, Ek0, Hlive0.
        by rewrite bool_decide_eq_true_2 by set_solver.
      * rewrite lookup_delete_ne by done.
        destruct (es !! k) as [e|]; [|done].
        destruct (Before now (expiresAt e)); [done|].
      case_bool_decide as Hin1; case_bool_decide as Hin2; [done| | |done].
      { exfalso. apply Hin2. by right. }
      { apply elem_of_cons in Hin2 as [?|?]; done. }
    + rewrite (IH _ _ _ _ Hsw k).
      destruct (es !! k) as [e|] eqn:Ek; [|done].
      destruct (Before now (expiresAt e)); [done|].
      assert (k <> k0) by congruence.
      case_bool_decide as Hin1; case_bool_decide as Hin2; [done| | |done].
      { exfalso. apply Hin2. by right. }
      { apply elem_of_cons in Hin2 as [?|?]; done. }
Qed.

(** The order the sweep rebuilds lists keys of live entries only. *)
Lemma sweep_order now ord : forall es acc es' ord',
  sweep now ord es acc = (es', ord') ->
  forall k, k ∈ ord' ->
    k ∈ acc \/ exists e, es !! k = Some e /\ live now e = true.
Proof.
  unfold live.
  induction ord as [|k0 rest IH]; intros es acc es' ord' Hsw k Hk; simpl in Hsw.
  - injection Hsw as <- <-. by left.
  - destruct (es !! k0) as [e0|] eqn:Ek0;
      [destruct (Before now (expiresAt e0)) eqn:Hlive0|].
    + destruct (IH _ _ _ _ Hsw k Hk) as [Hin|?]; [|by right].
      apply elem_of_app in Hin as [?|Hin]; [by left|].
      apply list_elem_of_singleton in Hin as ->. right. eauto.
    + destruct (IH _ _ _ _ Hsw k Hk) as [?|(e & He & ?)]; [by left|].
      right. apply lookup_delete_Some in He as [_ He]. eauto.
    + by apply (IH _ _ _ _ Hsw k Hk).
Qed.

(** X3.  On a deduplicator reached from [New] by [Check] calls and sweeps,
    [cleanup] at time [now] removes exactly the expired entries: an entry
    stays, unchanged, when [now] is before its [expiresAt] and is gone
    otherwise; and every key the rebuilt [order] lists has a live entry. *)
Theorem cleanup_keeps_live (w : Duration) (ops : list op) now :
  (forall k,
      entries (cleanup (run (New w) ops) now) !! k =
        match entries (run (New w) ops) !! k with
        | Some e => if now <? expiresAt e then Some e else None
        | None => None
        end)
  /\ (forall k, k ∈ order (cleanup (run (New w) ops) now) ->
        exists e, entries (cleanup (run (New w) ops) now) !! k = Some e
                  /\ now < expiresAt e).
Proof.
  destruct (run_bounded ops (New w) (New_bounded w)) as [Hcov _].
  set (d := run (New w) ops) in *. unfold cleanup.
  destruct (sweep now (order d) (entries d) []) as [es ord] eqn:Hsw.
  cbn [entries order]. split.
  - intros k. rewrite (sweep_lookup _ _ _ _ _ _ Hsw k).
    destruct (entries d !! k) as [e|] eqn:Ek; [|done].
    unfold live, Before. destruct (now <? expiresAt e); [done|].
    rewrite bool_decide_eq_true_2; [done|]. apply Hcov. eauto.
  - intros k Hk.
    destruct (sweep_order _ _ _ _ _ _ Hsw k Hk) as [Hin|(e & He & Hlive)];
      [inversion Hin|].
    exists e. rewrite (sweep_lookup _ _ _ _ _ _ Hsw k), He, Hlive.
    split; [done|]. unfold live, Before in Hlive. by apply Z.ltb_lt.
Qed.

(** X4.  The sweeper cannot be seen through [GetStats]: for any state, after
    a [cleanup] at time [now] a [GetStats] at that time or later answers
    what it would have answered without the sweep. *)
Theorem GetStats_after_cleanup d now namespace pod reason (later : Time) :
  now <= later ->
  GetStats (cleanup d now) namespace pod reason later
  = GetStats d namespace pod reason later.
Proof.
  intros Hlater. unfold GetStats, cleanup.
  destruct (sweep now (order d) (entries d) []) as [es ord] eqn:Hsw.
  cbn [entries]. rewrite (sweep_lookup _ _ _ _ _ _ Hsw).
  destruct (entries d !! mkKey namespace pod reason) as [e|]; [|done].
  unfold live, Before.
  destruct (Z.ltb_spec now (expiresAt e)); [done|].
  case_bool_decide; [|done].
  by destruct (Z.ltb_spec later (expiresAt e)); [lia|].
Qed.

(** X5.  Below the capacity a [Check] touches the entry of its own key
    only: the entry stored under any other key is what it was, and the
    size grows by one at most. *)
Theorem Check_leaves_other_keys d namespace pod reason now (other : string) :
  Size d < MaxEntries ->
  other <> mkKey namespace pod reason ->
  entries (fst (Check d namespace pod reason now)) !! other = entries d !! other
  /\ Size (fst (Check d namespace pod reason now)) <= Size d + 1.
Proof.
  unfold Size. intros Hsize Hother. unfold Check.
  destruct (entries d !! mkKey namespace pod reason) as [e|] eqn:Ek;
    [destruct (Before now (expiresAt e))|]; cbn [fst].
  - cbn [entries]. rewrite lookup_insert_ne by done.
    rewrite map_size_insert_Some by eauto. split; [done|lia].
  - unfold addEntry. cbn [entries order window].
    rewrite evict_below
      by (rewrite map_size_delete_Some by eauto; lia).
    cbn [entries]. rewrite lookup_insert_ne, lookup_delete_ne by done.
    rewrite map_size_insert_None by apply lookup_delete_eq.
    rewrite map_size_delete_Some by eauto. split; [done|lia].
  - unfold addEntry. rewrite evict_below by done.
    cbn [entries]. rewrite lookup_insert_ne by done.
    rewrite map_size_insert_None by done. split; [done|lia].
Qed.

(** X6.  At the capacity, when the head of [order] is the key of an entry
    of the map, a [Check] of an unknown key evicts that entry and no other:
    the new map is the old one without the head of [order] and with the new
    entry, and the new key goes to the end of [order]. *)
Theorem Check_evicts_head_of_order d namespace pod reason now
  (oldest : string) (rest : list string) :
  Size d = MaxEntries ->
  order d = oldest :: rest ->
  is_Some (entries d !! oldest) ->
  entries d !! mkKey namespace pod reason = None ->
  Check d namespace pod reason now =
    ({| window := window d;
        entries := <[mkKey namespace pod reason :=
                       fresh (mkKey namespace pod reason) now (window d)]>
                     (delete oldest (entries d));
        order := rest ++ [mkKey namespace pod reason] |},
     (true, 1, now, now)).
Proof.
  unfold Size. intros Hsize Horder Holdest Hnew.
  unfold Check. rewrite Hnew. unfold addEntry. rewrite Horder.
  rewrite evict_at_capacity by lia.
  rewrite evict_below; [done|].
  rewrite map_size_delete_Some by done. unfold MaxEntries in *. lia.
Qed.

(** *** A window that is zero or negative *)

Lemma cleanup_window d now : window (cleanup d now) = window d.
Proof.
  unfold cleanup. by destruct (sweep now (order d) (entries d) []).
Qed.

Lemma Check_without_window (t : Time) d namespace pod reason now :
  window d <= 0 -> t <= now ->
  (forall k e, entries d !! k = Some e -> expiresAt e <= t) ->
  snd (Check d namespace pod reason now) = (true, 1, now, now)
  /\ (forall k e, entries (fst (Check d namespace pod reason now)) !! k = Some e ->
        expiresAt e <= now)
  /\ window (fst (Check d namespace pod reason now)) = window d.
Proof.
  intros Hw Ht Hexp. unfold Check.
  assert (forall d0 : Deduplicator,
             window d0 = window d -> entries d0 ⊆ entries d ->
             forall k e,
               entries (addEntry d0 (mkKey namespace pod reason) now) !! k = Some e ->
               expiresAt e <= now) as Hadd.
  { intros d0 Hw0 Hsub k e. unfold addEntry.
    destruct (evict (entries d0) (order d0)) as [es ord] eqn:Hev.
    apply evict_sub in Hev. cbn [entries]. intros Hk.
    destruct (decide (k = mkKey namespace pod reason)) as [->|Hne].
    - rewrite lookup_insert_eq in Hk. injection Hk as <-.
      unfold Add. cbn [expiresAt]. lia.
    - rewrite lookup_insert_ne in Hk by done.
      assert (entries d !! k = Some e) as Hd.
      { eapply lookup_weaken; [|exact Hsub]. by eapply lookup_weaken. }
      specialize (Hexp k e Hd). lia. }
  destruct (entries d !! mkKey namespace pod reason) as [e|] eqn:Ek.
  - specialize (Hexp _ _ Ek) as He. unfold Before.
    destruct (Z.ltb_spec now (expiresAt e)); [lia|]. cbn [fst snd].
    split; [done|]. split; [|by rewrite addEntry_window].
    apply Hadd; [done|]. cbn [entries]. apply delete_subseteq.
  - cbn [fst snd]. split; [done|]. split; [|apply addEntry_window].
    by apply Hadd.
Qed.

Lemma run_without_window ops : forall (t : Time) d namespace pod reason now,
  window d <= 0 ->
  (forall k e, entries d !! k = Some e -> expiresAt e <= t) ->
  ascending_from t (check_readings (ops ++ [OpCheck namespace pod reason now])) ->
  snd (Check (run d ops) namespace pod reason now) = (true, 1, now, now).
Proof.
  induction ops as [|o ops IH]; intros t d namespace pod reason now Hw Hexp Hclock.
  - destruct Hclock as [Ht _].
    by destruct (Check_without_window t d namespace pod reason now Hw Ht Hexp).
  - destruct o as [ns0 pod0 r0 now0|now0]; cbn [app check_readings] in Hclock.
    + destruct Hclock as [Ht Hclock].
      destruct (Check_without_window t d ns0 pod0 r0 now0 Hw Ht Hexp)
        as (_ & Hexp' & Hw').
      apply (IH now0 (step d (OpCheck ns0 pod0 r0 now0))); [simpl; lia|done|done].
    + apply (IH t (step d (OpCleanup now0)));
        [simpl; by rewrite cleanup_window| |done].
      intros k e Hk. simpl in Hk. unfold cleanup in Hk.
      destruct (sweep now0 (order d) (entries d) []) as [es ord] eqn:Hsw.
      apply sweep_sub in Hsw. apply (Hexp k).
      by eapply lookup_weaken.
Qed.

(** X7.  A window that is zero or negative switches deduplication off: on a
    deduplicator built with such a window, with a clock that never goes
    back from one [Check] to the next, every [Check] answers
    [(true, 1, now, now)], whatever came before. *)
Theorem nonpositive_window_never_dedups (w : Duration) (ops : list op)
  (namespace pod reason : string) now :
  w <= 0 ->
  nondecreasing (ops ++ [OpCheck namespace pod reason now]) ->
  snd (Check (run (New w) ops) namespace pod reason now) = (true, 1, now, now).
Proof.
  intros Hw Hclock. unfold nondecreasing in Hclock.
  destruct (check_readings (ops ++ [OpCheck namespace pod reason now]))
    as [|reading rest] eqn:Hr.
  { rewrite check_readings_app in Hr. by destruct (check_readings ops). }
  apply (run_without_window ops reading (New w)); [done| |].
  - intros k e Hk. simpl in Hk. by rewrite lookup_empty in Hk.
  - rewrite Hr. split; [lia|done].
Qed.

(** *** Counting the sightings *)

Lemma checks_hits (namespace pod reason : string) (t0 : Time) readings :
  forall d e (t : Time),
    entries d !! mkKey namespace pod reason = Some e ->
    expiresAt e = t + window d -> firstSeen e = t0 -> 1 <= count e ->
    count e + Z.of_nat (length readings) <= GoInt.MaxInt ->
    within_window (window d) t readings ->
    snd (checks d namespace pod reason readings)
    = imap (fun i now => (false, count e + Z.of_nat i + 1, t0, now)) readings.
Proof.
  induction readings as [|now rest IH]; intros d e t He Hexp Hfirst Hc Hlen Hwin;
    [done|].
  destruct Hwin as [Hnow Hwin]. rewrite length_cons, Nat2Z.inj_succ in Hlen.
  cbn [checks imap].
  rewrite (Check_hit d namespace pod reason now e He) by lia.
  set (d' := {| window := window d;
                entries := <[mkKey namespace pod reason :=
                               {| key := key e; expiresAt := now + window d;
                                  count := GoInt.incr (count e);
                                  firstSeen := firstSeen e; lastSeen := now |}]>
                             (entries d);
                order := order d |}).
  specialize (IH d' _ now (lookup_insert_eq _ _ _)).
  cbn [expiresAt firstSeen count] in IH.
  rewrite incr_below_max in * by (unfold GoInt.MinInt; lia).
  destruct (checks d' namespace pod reason rest) as [d'' results].
  cbn [snd] in *. rewrite IH; [|done|done|lia|lia|done].
  rewrite Hfirst, Z.add_0_r. f_equal.
  apply imap_ext. intros i x _. cbn. f_equal. f_equal. f_equal. lia.
Qed.

(** X8.  Sightings within the window are counted one by one: after a
    [Check] that answered [isNew = true] at [t0], further calls on the same
    triple, each before the end of the window that the call before it
    opened, answer [isNew = false] with the counts 2, 3, 4, ..., with [t0]
    as [firstSeen] and their own reading as [lastSeen] (for fewer than
    [2^63 - 1] calls, so that the count stays in an [int]). *)
Theorem consecutive_checks_count d namespace pod reason (t0 : Time) d0
  (c : Z) (f l : Time) (readings : list Time) :
  Check d namespace pod reason t0 = (d0, (true, c, f, l)) ->
  within_window (window d) t0 readings ->
  Z.of_nat (length readings) < 2 ^ 63 - 1 ->
  snd (checks d0 namespace pod reason readings) = hit_results t0 readings.
Proof.
  intros Hfirst Hwin Hlen.
  apply Check_isNew in Hfirst as (_ & _ & _ & Hentry & Hw).
  rewrite <- Hw in Hwin.
  rewrite (checks_hits namespace pod reason t0 readings d0 _ t0 Hentry);
    cbn [fresh expiresAt firstSeen count]; try done.
  - unfold hit_results. apply imap_ext. intros i x _. cbn.
    f_equal. f_equal. f_equal. lia.
  - by rewrite Hw.
  - unfold GoInt.MaxInt. lia.
Qed.

End MoreDedup.

(** ** The filter, as [New] builds it from the lists of the configuration *)

Section MoreFilter.

Import K8s Filter EventSpec.

Implicit Types (f : Filter) (e : Event).

Lemma toSet_acc (slice : list string) : forall (acc : gset string) (s : string),
  s ∈ fold_left (fun set s => {[ s ]} ∪ set) slice acc <-> (s ∈ slice \/ s ∈ acc).
Proof.
  induction slice as [|x l IH]; intros acc s; simpl.
  - split; [by right|]. intros [H|H]; [inversion H|done].
  - rewrite IH, elem_of_union, elem_of_singleton, elem_of_cons. tauto.
Qed.

(** [toSet] keeps the elements of the slice, whatever their order and their
    number of occurrences. *)
Lemma toSet_elem (s : string) (slice : list string) : s ∈ toSet slice <-> s ∈ slice.
Proof.
  unfold toSet. rewrite toSet_acc. split; [|by left].
  intros [H|H]; [done|]. by apply not_elem_of_empty in H.
Qed.

Lemma toSet_nil (slice : list string) : toSet slice = ∅ <-> slice = [].
Proof.
  split; [|by intros ->].
  destruct slice as [|x l]; [done|]. intros Hempty. exfalso.
  assert (x ∈ toSet (x :: l)) as Hin by (apply toSet_elem, list_elem_of_here).
  rewrite Hempty in Hin. by apply not_elem_of_empty in Hin.
Qed.

(** The test [len(f.namespaces) > 0] on a filter built by [New]. *)
Lemma toSet_size (nss : list string) :
  ((0 <? Z.of_nat (size (toSet nss))) = false) <-> (nss = []).
Proof.
  rewrite <- toSet_nil. split.
  - intros Hsz. destruct (decide (toSet nss = ∅)) as [|Hne]; [done|].
    apply (allow_set_nonempty (New nss [] [] ∅)) in Hne.
    cbn [New namespaces] in Hne. congruence.
  - intros ->. by rewrite size_empty.
Qed.

(** The severities of the table of [defaultSeverityMap]. *)
Lemma defaultSeverityMap_range (reason : string) (level : Level) :
  defaultSeverityMap !! reason = Some level ->
  (level = LevelError \/ level = LevelWarning
   \/ (level = LevelInfo /\ reason = "NodeReady"))
  /\ (reason = "NodeReady" -> level = LevelInfo).
Proof.
  intros H. unfold defaultSeverityMap in H.
  apply elem_of_list_to_map_2 in H.
  repeat (apply elem_of_cons in H as [H|H];
          [injection H as -> ->; split; [auto|done]|]).
  inversion H.
Qed.

(** X9.  The filter that [New] builds from the lists of the configuration
    accepts an event exactly when the list of allowed namespaces is empty or
    holds the effective namespace of the event, the list of excluded
    namespaces does not hold it, the list of reasons holds the reason of the
    event, and the event is a warning.  Order and repetitions in the lists
    make no difference, and the thresholds play no part. *)
Theorem New_ShouldProcess (nss excl reasons : list string)
  (thresholds : gmap string Z) e :
  (ShouldProcess (New nss excl reasons thresholds) e = true) <->
  ((nss = [] \/ effectiveNamespace e ∈ nss)
   /\ (effectiveNamespace e ∉ excl)
   /\ Reason e ∈ reasons
   /\ Type_ e = "Warning").
Proof.
  rewrite ShouldProcess_eq, !andb_true_iff, !negb_true_iff,
    andb_false_iff, negb_false_iff, !bool_decide_eq_true, bool_decide_eq_false.
  cbn [New namespaces excludeNamespaces eventReasons].
  rewrite !toSet_elem, toSet_size.
  unfold EventTypeWarning. tauto.
Qed.

(** X10.  [MeetsThreshold] compares the count of the event with what
    [GetThreshold] returns for its reason (the configured threshold, or 1
    when none is configured) exactly when the reason has a configured
    threshold or the cluster counted the event at least once: an event of
    count 0 whose reason has no threshold meets the threshold although its
    count is below the 1 that [GetThreshold] reports. *)
Theorem MeetsThreshold_GetThreshold f e :
  (MeetsThreshold f e = (GetThreshold f (Reason e) <=? Count e)) <->
  (is_Some (eventThresholds f !! Reason e) \/ 1 <= Count e).
Proof.
  unfold MeetsThreshold, GetThreshold.
  destruct (eventThresholds f !! Reason e) as [threshold|].
  - split; [intros _; left; eauto|done].
  - split.
    + intros Heq. right. symmetry in Heq. by apply Z.leb_le in Heq.
    + intros [[? Hsome]|Hcount]; [done|]. symmetry. by apply Z.leb_le.
Qed.

(** X11.  The severity that a filter built by [New] gives to a reason is
    [error], [warning] or [info], never [debug] or [fatal]; it is [info] for
    the reason [NodeReady] and for no other; a reason that the table does
    not hold gets [warning].  The lists and the thresholds the filter was
    built from play no part. *)
Theorem GetSeverity_range (nss excl reasons : list string)
  (thresholds : gmap string Z) (reason : string) :
  let level := GetSeverity (New nss excl reasons thresholds) reason in
  (level = LevelError \/ level = LevelWarning \/ level = LevelInfo)
  /\ ((level = LevelInfo) <-> (reason = "NodeReady"))
  /\ (defaultSeverityMap !! reason = None -> level = LevelWarning).
Proof.
  unfold GetSeverity. cbn [New severityMap].
  destruct (defaultSeverityMap !! reason) as [level|] eqn:Hlevel.
  - apply defaultSeverityMap_range in Hlevel as [Hrange Hready].
    split; [tauto|]. split; [|done]. split; [|done].
    intros ->. by destruct Hrange as [?|[?|[_ ?]]].
  - split; [auto|]. split; [|done]. split; [done|].
    intros ->. by vm_compute in Hlevel.
Qed.

End MoreFilter.

(** ** Pod names and the deployments they are grouped under *)

Section MoreSentry.

Import GoStrings Sentry EventSpec.

Lemma append_assoc (a b c : string) : (a +:+ b) +:+ c = a +:+ (b +:+ c).
Proof.
  induction a as [|x a IH]; [done|].
  change (String x ((a +:+ b) +:+ c) = String x (a +:+ (b +:+ c))).
  by rewrite IH.
Qed.

(** A lowercase letter or a digit is not a dash. *)
Lemma alnum_free_of_dash (s : string) : lowercase_alphanumeric s -> free_of "-" s.
Proof.
  unfold lowercase_alphanumeric, free_of. intros Hs.
  eapply Forall_impl; [exact Hs|]. cbv beta.
  intros c Hc ->. unfold lower_or_digit in Hc.
  change (byte "-") with 45 in Hc. lia.
Qed.

(** The segments of two strings put together with a separator between
    them. *)
Lemma Split_app (a b : string) (sep : ascii) :
  Split (a +:+ String sep b) sep = Split a sep ++ Split b sep.
Proof.
  induction a as [|c t IH]; simpl.
  - by rewrite Ascii.eqb_refl.
  - destruct (Ascii.eqb_spec c sep) as [->|Hne]; rewrite IH; [done|].
    pose proof (Split_nonempty t sep). by destruct (Split t sep).
Qed.

Lemma Join_snoc2 (prefix : list string) (a b : string) :
  prefix <> [] ->
  Join (prefix ++ [a; b]) "-" = Join prefix "-" +:+ "-" +:+ a +:+ "-" +:+ b.
Proof.
  induction prefix as [|p [|q l] IH]; intros Hne; [done|done|].
  change (Join ((p :: q :: l) ++ [a; b]) "-")
    with (p +:+ "-" +:+ Join ((q :: l) ++ [a; b]) "-").
  rewrite IH by done.
  change (Join (p :: q :: l) "-") with (p +:+ "-" +:+ Join (q :: l) "-").
  by rewrite !append_assoc.
Qed.

(** The test of [ExtractDeploymentName] on the last two segments. *)
Lemma hash_test (a b : string) :
  ((len b <=? 6) && (5 <=? len a) && (len a <=? 12)
   && (isAlphanumeric b && isAlphanumeric a)) = true
  <-> (pod_hash b /\ replicaset_hash a).
Proof.
  unfold pod_hash, replicaset_hash, len.
  rewrite !andb_true_iff, !Z.leb_le, !isAlphanumeric_spec. intuition lia.
Qed.

(** X12.  The pods of one deployment are grouped under the name of the
    deployment, whatever replica set they belong to: for every name
    [deployment] (it may hold dashes, and segments that look like hashes),
    a replica-set hash of 5 to 12 lowercase letters and digits and a pod
    hash of at most 6, [ExtractDeploymentName] gives [deployment] for the
    pod [deployment-rs-pod]. *)
Theorem ExtractDeploymentName_of_rollout (deployment rs pod : string) :
  replicaset_hash rs -> pod_hash pod ->
  ExtractDeploymentName (deployment +:+ "-" +:+ rs +:+ "-" +:+ pod) = deployment.
Proof.
  intros Hrs Hpod.
  assert (Split (deployment +:+ "-" +:+ rs +:+ "-" +:+ pod) "-"
          = Split deployment "-" ++ [rs; pod]) as Hparts.
  { change (deployment +:+ "-" +:+ rs +:+ "-" +:+ pod)
      with (deployment +:+ String "-" (rs +:+ String "-" pod)).
    rewrite !Split_app.
    rewrite (Split_segment rs) by (apply alnum_free_of_dash, Hrs).
    by rewrite (Split_segment pod) by (apply alnum_free_of_dash, Hpod). }
  rewrite (ExtractDeploymentName_parts _ _ _ _ Hparts (Split_nonempty _ _)).
  rewrite (proj2 (hash_test rs pod)) by done.
  apply Join_Split.
Qed.

(** X13.  [ExtractDeploymentName] returns the pod name as it is, or the pod
    name without its last two segments, and then these two look like the
    hash of a replica set and the hash of a pod: the pod name is the result
    followed by a dash, the one, a dash, and the other.  It never shortens a
    name in another way. *)
Theorem ExtractDeploymentName_strips_hashes (podName : string) :
  ExtractDeploymentName podName = podName
  \/ exists rs pod,
       replicaset_hash rs /\ pod_hash pod
       /\ podName = ExtractDeploymentName podName +:+ "-" +:+ rs +:+ "-" +:+ pod.
Proof.
  destruct (Nat.lt_ge_cases (length (Split podName "-")) 3) as [Hshort|Hlong].
  { left. unfold ExtractDeploymentName.
    by destruct (Z.ltb_spec (Z.of_nat (length (Split podName "-"))) 3); [|lia]. }
  pose proof (last_two (Split podName "-") ltac:(lia)) as Hparts.
  set (parts := Split podName "-") in *.
  set (prefix := take (length parts - 2) parts) in *.
  set (a := default EmptyString (parts !! (length parts - 2)%nat)) in *.
  set (b := default EmptyString (parts !! (length parts - 1)%nat)) in *.
  assert (prefix <> []) as Hprefix.
  { intros Hnil. apply (f_equal length) in Hnil.
    unfold prefix in Hnil. rewrite length_take in Hnil. simpl in Hnil. lia. }
  rewrite (ExtractDeploymentName_parts podName prefix a b Hparts Hprefix).
  destruct ((len b <=? 6) && (5 <=? len a) && (len a <=? 12)
            && (isAlphanumeric b && isAlphanumeric a)) eqn:Htest; [|by left].
  right. exists a, b. apply hash_test in Htest as [Hb Ha].
  split; [done|]. split; [done|].
  rewrite <- Join_snoc2 by done. rewrite <- Hparts. symmetry. apply Join_Split.
Qed.

End MoreSentry.

(** ** The watcher: repeated events, the listing and the watch loop *)

Section MoreWatcher.

Import K8s Watcher WatcherLoop MoreSpec EventSpec.

Implicit Types (f : Filter.Filter) (w : World).

(** What [processEvent] does with an event that the filter accepts. *)
Lemma processEvent_accepted f w event now d' (isNew : bool) (c : Z)
  (fs ls : Dedup.Time) :
  Filter.ShouldProcess f event = true ->
  Dedup.Check (dedup w) (effectiveNamespace event)
    (Sentry.ExtractDeploymentName (Name (InvolvedObject event)))
    (Reason event) now = (d', (isNew, c, fs, ls)) ->
  processEvent f w event now =
    {| dedup := d';
       sent := sent w ++
               [ {| Sentry.Event := event;
                    Sentry.Severity := Filter.GetSeverity f (Reason event);
                    Sentry.Count := c;
                    Sentry.FirstSeen := fs;
                    Sentry.LastSeen := ls;
                    Sentry.MeetsThreshold :=
                      Filter.MeetsThreshold f event && isNew |} ] |}.
Proof.
  intros Hsp Hcheck. unfold processEvent. rewrite Hsp. cbn [negb].
  change (if bool_decide (ObjNamespace (InvolvedObject event) = EmptyString)
          then Namespace event else ObjNamespace (InvolvedObject event))
    with (effectiveNamespace event).
  by rewrite Hcheck.
Qed.

Lemma processEvent_rejected f w event now :
  Filter.ShouldProcess f event = false -> processEvent f w event now = w.
Proof. intros Hsp. unfold processEvent. by rewrite Hsp. Qed.

(** X14.  An accepted event that falls in the group (effective namespace,
    deployment, reason) of an accepted event handled before it, and arrives
    before the window of that one has run out, is handed to the sender with
    [MeetsThreshold = false], whatever its own count and whether or not the
    first one created an issue: [Send] creates no issue for it.  It carries
    the count of the first plus one and the first-seen time of the first. *)
Theorem repeated_event_creates_no_issue f w (e1 e2 : Event) (t1 t2 : Dedup.Time) :
  Filter.ShouldProcess f e1 = true ->
  Filter.ShouldProcess f e2 = true ->
  group_of e1 = group_of e2 ->
  t2 < t1 + Dedup.window (dedup w) ->
  exists d2 data1 data2,
    processEvent f (processEvent f w e1 t1) e2 t2
    = {| dedup := d2; sent := sent w ++ [data1; data2] |}
    /\ Sentry.Event data1 = e1 /\ Sentry.Event data2 = e2
    /\ Sentry.MeetsThreshold data2 = false
    /\ (forall host, SentrySend.Send host data2 = None)
    /\ Sentry.Count data2 = GoInt.incr (Sentry.Count data1)
    /\ Sentry.FirstSeen data2 = Sentry.FirstSeen data1
    /\ Sentry.LastSeen data2 = t2.
Proof.
  intros H1 H2 Hgroup Ht. unfold group_of in Hgroup.
  injection Hgroup as Hns Hdep Hr.
  destruct (Dedup.Check (dedup w) (effectiveNamespace e1)
              (Sentry.ExtractDeploymentName (Name (InvolvedObject e1)))
              (Reason e1) t1) as [d1 [[[isNew1 c1] fs1] ls1]] eqn:Hc1.
  rewrite (processEvent_accepted f w e1 t1 d1 isNew1 c1 fs1 ls1 H1 Hc1).
  destruct (Check_entry_after _ _ _ _ _ _ _ _ _ _ Hc1)
    as (e & He & Hexp & Hcount & Hfs & _ & _ & Hw).
  pose proof (Check_hit d1 _ _ _ t2 e He ltac:(lia)) as Hc2.
  rewrite Hns, Hdep, Hr in Hc2.
  erewrite processEvent_accepted; [|exact H2|exact Hc2].
  cbn [sent]. rewrite <- app_assoc.
  eexists _, _, _. split; [reflexivity|]. cbn.
  rewrite andb_false_r, Hcount, Hfs. by repeat split.
Qed.

(** The deduplicator and the events sent after one accepted event. *)
Lemma processEvent_step f w event now :
  Filter.ShouldProcess f event = true ->
  dedup (processEvent f w event now) = Dedup.step (dedup w) (check_of (event, now))
  /\ map Sentry.Event (sent (processEvent f w event now))
     = map Sentry.Event (sent w) ++ [event].
Proof.
  intros Hsp.
  destruct (Dedup.Check (dedup w) (effectiveNamespace event)
              (Sentry.ExtractDeploymentName (Name (InvolvedObject event)))
              (Reason event) now) as [d' [[[isNew c] fs] ls]] eqn:Hc.
  rewrite (processEvent_accepted f w event now d' isNew c fs ls Hsp Hc).
  cbn [dedup sent]. split.
  - unfold check_of, Dedup.step. cbn [fst snd]. by rewrite Hc.
  - by rewrite map_app.
Qed.

Lemma listLoop_cons f w event now rest :
  listLoop f w ((event, now) :: rest) = listLoop f (processEvent f w event now) rest.
Proof.
  cbn [listLoop]. destruct (Filter.ShouldProcess f event) eqn:Hsp; [done|].
  by rewrite processEvent_rejected.
Qed.

(** X15.  [ListOnce] on a listing that the API server returned: it returns
    no error; the deduplicator ends in the state that the [Check] calls for
    the accepted items, in the order of the listing, lead to; and the sender
    has been handed exactly the accepted events, in that order, after what
    it had been handed before.  The items the filter rejects leave no
    trace. *)
Theorem ListOnce_processes_accepted f w (items : list (Event * Dedup.Time)) :
  exists w',
    ListOnce f w (Some items) = (w', None)
    /\ dedup w' = Dedup.run (dedup w) (map check_of (accepted f items))
    /\ map Sentry.Event (sent w')
       = map Sentry.Event (sent w) ++ map fst (accepted f items).
Proof.
  exists (listLoop f w items). split; [done|]. revert w.
  induction items as [|[event now] items IH]; intros w.
  - cbn. by rewrite app_nil_r.
  - unfold accepted. cbn [listLoop List.filter fst].
    destruct (Filter.ShouldProcess f event) eqn:Hsp; [|apply IH].
    destruct (IH (processEvent f w event now)) as [Hd Hs].
    destruct (processEvent_step f w event now Hsp) as [Hd1 Hs1].
    unfold accepted in Hd, Hs. rewrite Hd, Hs, Hd1, Hs1.
    split; [done|]. cbn [map fst]. by rewrite <- app_assoc.
Qed.

Lemma watchLoop_delivered f passes : forall w,
  (forall s, s ∈ passes -> ~ terminal s) ->
  watchLoop f w passes = (listLoop f w (delivered passes), None).
Proof.
  induction passes as [|s passes IH]; intros w Hnone; [done|].
  assert (~ terminal s) as Hs by (apply Hnone, list_elem_of_here).
  assert (forall s', s' ∈ passes -> ~ terminal s') as Hrest
    by (intros s' Hin; by apply Hnone, list_elem_of_further).
  destruct s as [| |ev now]; [by destruct Hs|by destruct Hs|].
  cbn [watchLoop delivered terminal] in *.
  destruct (Type_ ev); try done; try (by apply IH);
    (destruct (Object ev) as [event|]; [|by apply IH]);
    rewrite listLoop_cons; by apply IH.
Qed.

Lemma watchLoop_terminal f pre s post : forall w,
  (forall s', s' ∈ pre -> ~ terminal s') -> terminal s ->
  exists err,
    watchLoop f w (pre ++ s :: post) = (listLoop f w (delivered pre), Some err).
Proof.
  induction pre as [|s0 pre IH]; intros w Hnone Hs.
  - cbn [app delivered listLoop]. destruct s as [| |ev now]; cbn [watchLoop]; eauto.
    cbn [terminal] in Hs. rewrite Hs. eauto.
  - assert (~ terminal s0) as Hs0 by (apply Hnone, list_elem_of_here).
    assert (forall s', s' ∈ pre -> ~ terminal s') as Hrest
      by (intros s' Hin; by apply Hnone, list_elem_of_further).
    destruct s0 as [| |ev now]; [by destruct Hs0|by destruct Hs0|].
    cbn [app watchLoop delivered terminal] in *.
    destruct (Type_ ev); try done; try (by apply IH);
      (destruct (Object ev) as [event|]; [|by apply IH]);
      rewrite listLoop_cons; by apply IH.
Qed.

(** X16.  [watchEvents] over a watch that was established: as long as no
    pass of the [select] finds the context done, the channel closed or an
    error delta, the loop has not returned and the watcher is where
    [ListOnce] would be after a listing of the events delivered so far (the
    objects of the added and modified deltas); the deleted deltas, the
    bookmarks and the objects that are no events leave no trace.  The first
    pass that finds one of the three ends the loop with an error, and
    nothing that follows it is handled. *)
Theorem watchEvents_until_terminal f w (pre : list selected) :
  (forall s, s ∈ pre -> ~ terminal s) ->
  watchEvents f w (Some pre) = (listLoop f w (delivered pre), None)
  /\ (forall s post,
        terminal s ->
        exists err,
          watchEvents f w (Some (pre ++ s :: post))
          = (listLoop f w (delivered pre), Some err)).
Proof.
  intros Hnone. split; [by apply watchLoop_delivered|].
  intros s post Hs. by apply watchLoop_terminal.
Qed.

(** After an event of a group has been handled, the events of the group
    that follow, each within the window of the one before, are hits. *)
Lemma burst_suppressed f (e0 : Event) (items : list (Event * Dedup.Time)) :
  forall w (t : Dedup.Time),
  (exists e,
      Dedup.entries (dedup w)
        !! Dedup.mkKey (effectiveNamespace e0)
             (Sentry.ExtractDeploymentName (Name (InvolvedObject e0))) (Reason e0)
      = Some e
      /\ Dedup.expiresAt e = t + Dedup.window (dedup w)) ->
  Forall (fun item => Filter.ShouldProcess f (fst item) = true
                      /\ group_of (fst item) = group_of e0) items ->
  within_window (Dedup.window (dedup w)) t (map snd items) ->
  exists rest,
    sent (listLoop f w items) = sent w ++ rest
    /\ map Sentry.Event rest = map fst items
    /\ Forall (fun data => Sentry.MeetsThreshold data = false) rest.
Proof.
  induction items as [|[event now] items IH]; intros w t (e & He & Hexp) Hall Hwin.
  - exists []. by rewrite app_nil_r.
  - apply Forall_cons in Hall as [[Hsp Hgroup] Hall]. cbn [fst] in Hsp, Hgroup.
    cbn [map snd within_window] in Hwin. destruct Hwin as [Hnow Hwin].
    unfold group_of in Hgroup. injection Hgroup as Hns Hdep Hr.
    rewrite listLoop_cons.
    pose proof (Check_hit (dedup w) _ _ _ now e He ltac:(lia)) as Hhit.
    rewrite <- Hns, <- Hdep, <- Hr in Hhit.
    destruct (Dedup.Check (dedup w) (effectiveNamespace event)
                (Sentry.ExtractDeploymentName (Name (InvolvedObject event)))
                (Reason event) now) as [d' [[[isNew c] fs] ls]] eqn:Hcheck.
    assert (isNew = false) as -> by (by injection Hhit).
    clear Hhit.
    rewrite (processEvent_accepted f w event now d' false c fs ls Hsp Hcheck).
    destruct (Check_entry_after _ _ _ _ _ _ _ _ _ _ Hcheck)
      as (e' & He' & Hexp' & _ & _ & _ & _ & Hw').
    rewrite Hns, Hdep, Hr in He'.
    match goal with
    | |- context [listLoop f ?w1 items] => pose proof (IH w1 now) as IH1
    end.
    cbn [dedup sent] in IH1. rewrite Hw' in IH1.
    destruct IH1 as (rest & Hsent & Hev & Hrest); [by exists e'|done|done|].
    rewrite Hsent, <- app_assoc.
    eexists (_ :: rest). split; [reflexivity|]. split.
    + cbn [map Sentry.Event fst]. by rewrite Hev.
    + constructor; [|done]. cbn. apply andb_false_r.
Qed.

(** X17.  Of a burst of accepted events of one group, each arriving before
    the window of the one before it has run out, only the first can create
    an issue: every later one is handed to the sender with
    [MeetsThreshold = false], however large its count.  When the first
    event of the burst is below its threshold, the burst creates no issue at
    all. *)
Theorem only_first_of_burst_can_alert f w (e0 : Event) (t0 : Dedup.Time)
  (items : list (Event * Dedup.Time)) :
  Filter.ShouldProcess f e0 = true ->
  Forall (fun item => Filter.ShouldProcess f (fst item) = true
                      /\ group_of (fst item) = group_of e0) items ->
  within_window (Dedup.window (dedup w)) t0 (map snd items) ->
  exists data0 rest,
    sent (listLoop f (processEvent f w e0 t0) items) = sent w ++ data0 :: rest
    /\ Sentry.Event data0 = e0
    /\ (Filter.MeetsThreshold f e0 = false -> Sentry.MeetsThreshold data0 = false)
    /\ map Sentry.Event rest = map fst items
    /\ Forall (fun data => Sentry.MeetsThreshold data = false
                           /\ forall host, SentrySend.Send host data = None) rest.
Proof.
  intros Hsp Hall Hwin.
  destruct (Dedup.Check (dedup w) (effectiveNamespace e0)
              (Sentry.ExtractDeploymentName (Name (InvolvedObject e0)))
              (Reason e0) t0) as [d1 [[[isNew c] fs] ls]] eqn:Hcheck.
  rewrite (processEvent_accepted f w e0 t0 d1 isNew c fs ls Hsp Hcheck).
  destruct (Check_entry_after _ _ _ _ _ _ _ _ _ _ Hcheck)
    as (e & He & Hexp & _ & _ & _ & _ & Hw).
  match goal with
  | |- context [listLoop f ?w1 items] =>
      pose proof (burst_suppressed f e0 items w1 t0) as Hburst
  end.
  cbn [dedup sent] in Hburst. rewrite Hw in Hburst.
  destruct Hburst as (rest & Hsent & Hev & Hrest); [by exists e|done|done|].
  rewrite Hsent, <- app_assoc.
  eexists _, rest. split; [reflexivity|]. split; [done|]. split.
  { cbn. by intros ->. }
  split; [done|].
  eapply Forall_impl; [exact Hrest|]. cbv beta.
  intros data Hdata. split; [done|]. intros host.
  unfold SentrySend.Send. by rewrite Hdata.
Qed.

(** The invariant of the cache across the handling of an event. *)
Lemma processEvent_bounded f w event now :
  DedupSpec.bounded (dedup w) -> DedupSpec.bounded (dedup (processEvent f w event now)).
Proof.
  intros Hb. destruct (Filter.ShouldProcess f event) eqn:Hsp.
  - rewrite (proj1 (processEvent_step f w event now Hsp)). by apply step_bounded.
  - by rewrite processEvent_rejected.
Qed.

Lemma listLoop_bounded f items : forall w,
  DedupSpec.bounded (dedup w) -> DedupSpec.bounded (dedup (listLoop f w items)).
Proof.
  induction items as [|[event now] items IH]; intros w Hb; [done|].
  rewrite listLoop_cons. by apply IH, processEvent_bounded.
Qed.

Lemma watchLoop_bounded f passes : forall w,
  DedupSpec.bounded (dedup w) ->
  DedupSpec.bounded (dedup (fst (watchLoop f w passes))).
Proof.
  induction passes as [|s passes IH]; intros w Hb; [done|].
  destruct s as [| |ev now]; [done|done|]. cbn [watchLoop].
  destruct (Type_ ev); try done; try (by apply IH);
    (destruct (Object ev) as [event|]; [|by apply IH]);
    by apply IH, processEvent_bounded.
Qed.

(** X18.  The watcher keeps the cache of the deduplicator within its bounds:
    when every key of the map is listed in [order] and the map holds at most
    [MaxEntries] entries, the same is true after [watchEvents], however the
    watch ends, and after [ListOnce]; so it is true after any number of
    reconnects of a watcher that [main] starts with a new deduplicator. *)
Theorem watcher_keeps_cache_bounded f w (connection : option (list selected))
  (listing : option (list (Event * Dedup.Time))) :
  DedupSpec.bounded (dedup w) ->
  (DedupSpec.bounded (dedup (fst (watchEvents f w connection)))
   /\ Dedup.Size (dedup (fst (watchEvents f w connection))) <= Dedup.MaxEntries)
  /\ (DedupSpec.bounded (dedup (fst (ListOnce f w listing)))
      /\ Dedup.Size (dedup (fst (ListOnce f w listing))) <= Dedup.MaxEntries)
  /\ (forall cfg, DedupSpec.bounded (dedup (MainSetup.eventWatcher cfg))).
Proof.
  intros Hb.
  assert (DedupSpec.bounded (dedup (fst (watchEvents f w connection)))) as Hwatch.
  { destruct connection as [passes|]; [|done]. by apply watchLoop_bounded. }
  assert (DedupSpec.bounded (dedup (fst (ListOnce f w listing)))) as Hlist.
  { destruct listing as [items|]; [|done]. by apply listLoop_bounded. }
  split; [split; [done|apply Hwatch]|].
  split; [split; [done|apply Hlist]|].
  intros cfg. apply New_bounded.
Qed.

End MoreWatcher.

(** ** The two senders *)

Section MoreSender.

Import K8s SentrySend MoreSpec EventSpec.

(** The tags of [sendIssue] against the tags of the dry run, for the two
    conditions under which [sendIssue] adds a tag. *)
Lemma tags_compared (namespace podName reason kind nodeName deployment : string)
  (withNode withDeployment : bool) (k : string) :
  let base : gmap string string :=
    <["k8s.kind" := kind]>
      (<["k8s.reason" := reason]>
         (<["k8s.pod" := podName]> {[ "k8s.namespace" := namespace ]})) in
  let issue1 := if withNode then <["k8s.node" := nodeName]> base else base in
  let issue2 :=
    if withDeployment then <["k8s.deployment" := deployment]> issue1 else issue1 in
  let printed :=
    <["k8s.deployment" := deployment]> (<["k8s.node" := nodeName]> base) in
  (forall v, issue2 !! k = Some v -> printed !! k = Some v)
  /\ (is_Some (printed !! k) -> issue2 !! k = None ->
      (k = "k8s.node" /\ withNode = false)
      \/ (k = "k8s.deployment" /\ withDeployment = false)).
Proof.
  intros base issue1 issue2 printed.
  subst base issue1 issue2 printed. cbv beta.
  destruct (decide (k = "k8s.namespace")) as [->|Hk1];
    [destruct withNode, withDeployment; vm_compute; (split; [done|by intros _ ?])|].
  destruct (decide (k = "k8s.pod")) as [->|Hk2];
    [destruct withNode, withDeployment; vm_compute; (split; [done|by intros _ ?])|].
  destruct (decide (k = "k8s.reason")) as [->|Hk3];
    [destruct withNode, withDeployment; vm_compute; (split; [done|by intros _ ?])|].
  destruct (decide (k = "k8s.kind")) as [->|Hk4];
    [destruct withNode, withDeployment; vm_compute; (split; [done|by intros _ ?])|].
  destruct (decide (k = "k8s.node")) as [->|Hk5];
    [destruct withNode, withDeployment; vm_compute;
     (split; [done|intros _ ?; first [done|by left]])|].
  destruct (decide (k = "k8s.deployment")) as [->|Hk6];
    [destruct withNode, withDeployment; vm_compute;
     (split; [done|intros _ ?; first [done|by right]])|].
  split.
  - intros v.
    destruct withNode, withDeployment;
      rewrite ?lookup_insert_ne, ?lookup_singleton_ne by done; done.
  - intros [v Hv].
    rewrite !lookup_insert_ne, lookup_singleton_ne in Hv by done. done.
Qed.

(** X19.  What the dry run prints agrees with what [Send] would create.  The
    fingerprint printed is built from the group of the event, the triple
    under which [processEvent] deduplicates it.  When [Send] creates an
    issue, the dry run reports [meets_threshold] and the mode
    ["log + issue"], and the message, the severity, the fingerprint and
    every tag of the issue are printed as they are in the issue; the dry
    run prints a tag the issue lacks only for [k8s.node] when the host is
    empty and for [k8s.deployment] when the deployment is empty or is the
    pod name.  When [Send] creates no issue, the mode is ["log only"]. *)
Theorem DryRunSend_mirrors_Send (host : string) (data : Sentry.EventData) :
  let out := DryRunSend host data in
  let podName := Name (InvolvedObject (Sentry.Event data)) in
  let deployment := Sentry.ExtractDeploymentName podName in
  fingerprint out
  = (let '(namespace, deployment, reason) := group_of (Sentry.Event data) in
     ["k8s"; namespace; deployment; reason])
  /\ match Send host data with
     | Some issue =>
         meets_threshold out = true /\ mode out = "log + issue"
         /\ Message issue = message out /\ Level issue = severity out
         /\ Fingerprint issue = fingerprint out
         /\ (forall k v, Tags issue !! k = Some v -> tags out !! k = Some v)
         /\ (forall k, is_Some (tags out !! k) -> Tags issue !! k = None ->
               (k = "k8s.node" /\ host = EmptyString)
               \/ (k = "k8s.deployment"
                   /\ (deployment = EmptyString \/ deployment = podName)))
     | None => meets_threshold out = false /\ mode out = "log only"
     end.
Proof.
  intros out podName deployment. split; [done|].
  unfold Send. destruct (Sentry.MeetsThreshold data) eqn:Hmeets.
  - unfold out, DryRunSend, sendIssue. rewrite Hmeets.
    cbn [meets_threshold mode getModeString Message message Level severity
         Fingerprint fingerprint Tags tags].
    fold podName. fold deployment.
    split; [done|]. split; [done|]. split; [done|]. split; [done|].
    split; [done|].
    split.
    + intros k. apply tags_compared.
    + intros k Hprinted Hissue.
      destruct (proj2 (tags_compared _ _ _ _ _ _ _ _ k) Hprinted Hissue)
        as [[-> Hnode]|[-> Hdep]]; [left|right]; (split; [done|]).
      * apply negb_false_iff in Hnode. by apply bool_decide_eq_true in Hnode.
      * apply andb_false_iff in Hdep as [Hdep|Hdep];
          apply negb_false_iff in Hdep; apply bool_decide_eq_true in Hdep;
          [by left|by right].
  - unfold out, DryRunSend. by rewrite Hmeets.
Qed.

End MoreSender.

(** ** The configuration: the lists, the thresholds and the errors of [Load] *)

Section MoreConfig.

Import GoStrings Config EventSpec.

Variable Sscanf_d : string -> GoFmt.Scan.
Variable ParseDuration : string -> option Dedup.Duration.

(** Trimming removes bytes at the two ends; it brings in no byte that was not
    there. *)
Lemma strip_prefix_free (c : ascii) (p : string) : forall s rest,
  strip_prefix p s = Some rest -> free_of c s -> free_of c rest.
Proof.
  induction p as [|a p IH]; intros s rest H Hfree.
  - destruct s; simpl in H; by injection H as <-.
  - destruct s as [|b s]; simpl in H; [done|].
    destruct (Ascii.eqb a b); [|done].
    unfold free_of in Hfree. simpl in Hfree. apply Forall_cons in Hfree as [_ Hfree].
    by apply (IH s).
Qed.

Lemma strip_space_free (c : ascii) (s rest : string) :
  strip_space s = Some rest -> free_of c s -> free_of c rest.
Proof.
  unfold strip_space. induction spaces as [|sp l IH]; simpl; [done|].
  destruct (strip_prefix sp s) as [r|] eqn:Hsp; [|exact IH].
  intros H Hfree. injection H as <-. by apply (strip_prefix_free c sp s).
Qed.

Lemma TrimLeft_loop_free (c : ascii) (fuel : nat) : forall s,
  free_of c s -> free_of c (TrimLeft_loop fuel s).
Proof.
  induction fuel as [|fuel IH]; intros s Hfree; simpl; [done|].
  destruct (strip_space s) as [rest|] eqn:Hs; [|done].
  apply IH. by apply (strip_space_free c s).
Qed.

Lemma rev_string_free (c : ascii) (s : string) :
  free_of c s -> free_of c (rev_string s).
Proof.
  unfold free_of, rev_string. rewrite list_ascii_of_string_of_list_ascii.
  apply List.Forall_rev.
Qed.

Lemma strip_space_end_free (c : ascii) (s rest : string) :
  strip_space_end s = Some rest -> free_of c s -> free_of c rest.
Proof.
  unfold strip_space_end. induction spaces as [|sp l IH]; simpl; [done|].
  destruct (strip_prefix (rev_string sp) (rev_string s)) as [r|] eqn:Hsp; [|exact IH].
  intros H Hfree. injection H as <-. apply rev_string_free.
  apply (strip_prefix_free c _ _ _ Hsp). by apply rev_string_free.
Qed.

Lemma TrimRight_loop_free (c : ascii) (fuel : nat) : forall s,
  free_of c s -> free_of c (TrimRight_loop fuel s).
Proof.
  induction fuel as [|fuel IH]; intros s Hfree; simpl; [done|].
  destruct (strip_space_end s) as [rest|] eqn:Hs; [|done].
  apply IH. by apply (strip_space_end_free c s).
Qed.

Lemma TrimSpace_free (c : ascii) (s : string) :
  free_of c s -> free_of c (TrimSpace s).
Proof.
  intros Hfree. unfold TrimSpace, TrimRightSpace, TrimLeftSpace.
  by apply TrimRight_loop_free, TrimLeft_loop_free.
Qed.

(** The loop of [splitAndTrim], from any list built so far. *)
Lemma splitAndTrim_loop (parts : list string) : forall result,
  fold_left (fun result p =>
               let trimmed := TrimSpace p in
               if bool_decide (trimmed = EmptyString) then result
               else result ++ [trimmed]) parts result
  = result ++ filter (fun x => x <> EmptyString) (map TrimSpace parts).
Proof.
  induction parts as [|p parts IH]; intros result; simpl.
  - by rewrite app_nil_r.
  - rewrite IH. case_bool_decide as Hempty.
    + by rewrite filter_cons_False by (intros ?; done).
    + rewrite filter_cons_True by done. by rewrite <- app_assoc.
Qed.

(** X20.  What [splitAndTrim] returns: the pieces of the string between its
    commas, trimmed, in their order, without the ones that trimming leaves
    empty.  So no item is empty, no item holds a comma, and the result is
    empty exactly when every piece is blank: a list variable such as
    [KUBE_SENTRY_NAMESPACES] that holds only commas and white space gives
    the empty list. *)
Theorem splitAndTrim_items (s : string) :
  splitAndTrim s
  = filter (fun x => x <> EmptyString) (map TrimSpace (Split s ","))
  /\ Forall (fun x => x <> EmptyString /\ free_of "," x) (splitAndTrim s)
  /\ ((splitAndTrim s = []) <->
      Forall (fun p => TrimSpace p = EmptyString) (Split s ",")).
Proof.
  assert (splitAndTrim s
          = filter (fun x => x <> EmptyString) (map TrimSpace (Split s ",")))
    as Heq by (unfold splitAndTrim; by rewrite splitAndTrim_loop).
  split; [exact Heq|]. rewrite Heq. split.
  - apply Forall_forall. intros x Hin.
    apply list_elem_of_filter in Hin as [Hne Hin]. split; [done|].
    apply list_elem_of_fmap in Hin as (p & -> & Hp).
    apply TrimSpace_free.
    pose proof (Split_free s ",") as Hfree.
    by apply (proj1 (Forall_forall _ _) Hfree).
  - clear Heq. induction (Split s ",") as [|p parts IH]; simpl.
    + split; [constructor|done].
    + destruct (decide (TrimSpace p = EmptyString)) as [Hp|Hp].
      * rewrite filter_cons_False by (intros ?; done).
        rewrite IH. split; [by constructor|].
        intros H. by apply Forall_cons in H as [_ ?].
      * rewrite filter_cons_True by done. split; [done|].
        intros H. by apply Forall_cons in H as [? _].
Qed.

(** An item with a colon: the text before its first colon and the text
    after it. *)
Lemma SplitN2_pair (item p0 p1 : string) :
  SplitN2 item ":" = [p0; p1] <-> (item = p0 +:+ ":" +:+ p1 /\ free_of ":" p0).
Proof.
  rewrite <- (Cut_Some item ":" p0 p1). unfold SplitN2.
  destruct (Cut item ":") as [[b a]|]; [|done].
  split; intros H; by injection H as -> ->.
Qed.

(** [Load] with the two branches for [KUBE_SENTRY_THRESHOLDS] as one: the
    loop over no item returns the default thresholds. *)
Lemma Load_eq (env : gmap string string) (dryRun : bool) :
  Load Sscanf_d ParseDuration env dryRun =
    if negb dryRun && bool_decide (Getenv env "SENTRY_DSN" = EmptyString)
    then (None, Some ErrMissingDSN)
    else
      match loadThresholds Sscanf_d
              (splitAndTrim (Getenv env "KUBE_SENTRY_THRESHOLDS"))
              DefaultEventThresholds with
      | inl err => (None, Some err)
      | inr eventThresholds =>
          match ParseDuration (getEnvOrDefault env "KUBE_SENTRY_DEDUP_WINDOW" "5m") with
          | None =>
              (None,
               Some (ErrInvalidDedupWindow
                       (getEnvOrDefault env "KUBE_SENTRY_DEDUP_WINDOW" "5m")))
          | Some dedupWindow =>
              (Some {| SentryDSN := Getenv env "SENTRY_DSN";
                       SentryEnvironment :=
                         getEnvOrDefault env "SENTRY_ENVIRONMENT" "production";
                       Namespaces :=
                         if bool_decide (Getenv env "KUBE_SENTRY_NAMESPACES" = EmptyString)
                         then []
                         else splitAndTrim (Getenv env "KUBE_SENTRY_NAMESPACES");
                       ExcludeNamespaces :=
                         if bool_decide
                              (Getenv env "KUBE_SENTRY_EXCLUDE_NAMESPACES" = EmptyString)
                         then ["kube-system"]
                         else splitAndTrim (Getenv env "KUBE_SENTRY_EXCLUDE_NAMESPACES");
                       EventReasons :=
                         if bool_decide (Getenv env "KUBE_SENTRY_EVENTS" = EmptyString)
                         then DefaultEventReasons
                         else splitAndTrim (Getenv env "KUBE_SENTRY_EVENTS");
                       EventThresholds := eventThresholds;
                       EnableLogs :=
                         bool_decide
                           (getEnvOrDefault env "KUBE_SENTRY_ENABLE_LOGS" "true" = "true")
                         || bool_decide
                              (getEnvOrDefault env "KUBE_SENTRY_ENABLE_LOGS" "true" = "1");
                       DedupWindow := dedupWindow;
                       LogLevel := getEnvOrDefault env "KUBE_SENTRY_LOG_LEVEL" "info" |},
               None)
          end
      end.
Proof.
  unfold Load.
  destruct (negb dryRun && bool_decide (Getenv env "SENTRY_DSN" = EmptyString));
    [done|].
  destruct (bool_decide (Getenv env "KUBE_SENTRY_THRESHOLDS" = EmptyString)) eqn:Hth;
    [|done].
  apply bool_decide_eq_true in Hth. by rewrite Hth.
Qed.

(** The loop over the items, cut in two. *)
Lemma loadThresholds_app (pre post : list string) : forall thresholds,
  loadThresholds Sscanf_d (pre ++ post) thresholds
  = match loadThresholds Sscanf_d pre thresholds with
    | inl err => inl err
    | inr thresholds' => loadThresholds Sscanf_d post thresholds'
    end.
Proof.
  induction pre as [|item pre IH]; intros thresholds; [done|].
  cbn [app loadThresholds].
  destruct (SplitN2 item ":") as [|p0 [|p1 [|p2 l]]]; try apply IH.
  destruct (parseThreshold Sscanf_d (TrimSpace p1)); [apply IH|done].
Qed.

(** The error of the loop names an item with a colon whose count is
    rejected. *)
Lemma loadThresholds_error (items : list string) : forall thresholds err,
  loadThresholds Sscanf_d items thresholds = inl err ->
  exists item p0 p1,
    item ∈ items /\ SplitN2 item ":" = [p0; p1]
    /\ parseThreshold Sscanf_d (TrimSpace p1) = None
    /\ err = ErrInvalidThreshold (TrimSpace p0) (TrimSpace p1).
Proof.
  induction items as [|item items IH]; intros thresholds err H; [done|].
  cbn [loadThresholds] in H.
  assert (forall m, loadThresholds Sscanf_d items m = inl err ->
            exists item0 p0 p1,
              item0 ∈ item :: items /\ SplitN2 item0 ":" = [p0; p1]
              /\ parseThreshold Sscanf_d (TrimSpace p1) = None
              /\ err = ErrInvalidThreshold (TrimSpace p0) (TrimSpace p1)) as Hrest.
  { intros m Hm. destruct (IH m err Hm) as (i & p0 & p1 & Hin & ?).
    exists i, p0, p1. split; [by apply list_elem_of_further|done]. }
  destruct (SplitN2 item ":") as [|p0 [|p1 [|p2 l]]] eqn:Hsplit;
    try (by eapply Hrest).
  destruct (parseThreshold Sscanf_d (TrimSpace p1)) eqn:Hparse; [by eapply Hrest|].
  injection H as <-. exists item, p0, p1.
  split; [apply list_elem_of_here|done].
Qed.

(** An item that names another reason leaves the threshold of a reason as it
    is. *)
Lemma loadThresholds_other (reason : string) (items : list string) :
  forall thresholds thresholds',
  loadThresholds Sscanf_d items thresholds = inr thresholds' ->
  (forall item p0 p1,
      item ∈ items -> SplitN2 item ":" = [p0; p1] -> TrimSpace p0 <> reason) ->
  thresholds' !! reason = thresholds !! reason.
Proof.
  induction items as [|item items IH]; intros m m' H Hother.
  - by injection H as <-.
  - cbn [loadThresholds] in H.
    assert (forall i p0 p1,
               i ∈ items -> SplitN2 i ":" = [p0; p1] -> TrimSpace p0 <> reason)
      as Hrest by (intros i p0 p1 Hin; apply Hother; by apply list_elem_of_further).
    destruct (SplitN2 item ":") as [|p0 [|p1 [|p2 l]]] eqn:Hsplit;
      try (by apply (IH m m')).
    destruct (parseThreshold Sscanf_d (TrimSpace p1)) as [count|]; [|done].
    rewrite (IH _ _ H Hrest).
    apply lookup_insert_ne. apply (Hother item p0 p1); [apply list_elem_of_here|done].
Qed.

(** X21.  [Load] returns a configuration exactly when three things hold:
    the DSN is set or the run is a dry run; every item of
    [KUBE_SENTRY_THRESHOLDS] that holds a colon has, after its first colon,
    a count that [parseThreshold] accepts once trimmed; and
    [time.ParseDuration] accepts [KUBE_SENTRY_DEDUP_WINDOW], or ["5m"] when
    the variable is empty.  No other variable can make [Load] fail.  When it
    fails it returns an error and no configuration: never both, never
    neither. *)
Theorem Load_succeeds_iff (env : gmap string string) (dryRun : bool) :
  ((exists cfg, Load Sscanf_d ParseDuration env dryRun = (Some cfg, None)) <->
   ((dryRun = true \/ Getenv env "SENTRY_DSN" <> EmptyString)
    /\ (forall item reason countStr,
          item ∈ splitAndTrim (Getenv env "KUBE_SENTRY_THRESHOLDS") ->
          item = reason +:+ ":" +:+ countStr -> free_of ":" reason ->
          parseThreshold Sscanf_d (TrimSpace countStr) <> None)
    /\ ParseDuration (getEnvOrDefault env "KUBE_SENTRY_DEDUP_WINDOW" "5m") <> None))
  /\ ((exists cfg, Load Sscanf_d ParseDuration env dryRun = (Some cfg, None))
      \/ (exists err, Load Sscanf_d ParseDuration env dryRun = (None, Some err))).
Proof.
  rewrite Load_eq.
  destruct (negb dryRun && bool_decide (Getenv env "SENTRY_DSN" = EmptyString))
    eqn:Hdsn.
  { split; [|right; eauto]. split; [by intros [cfg ?]|].
    intros ([Hdry|Hset] & _).
    - by rewrite Hdry in Hdsn.
    - apply andb_true_iff in Hdsn as [_ Hempty].
      by apply bool_decide_eq_true in Hempty. }
  assert (dryRun = true \/ Getenv env "SENTRY_DSN" <> EmptyString) as Hok.
  { apply andb_false_iff in Hdsn as [Hdry|Hset].
    - left. by apply negb_false_iff.
    - right. by apply bool_decide_eq_false in Hset. }
  destruct (loadThresholds Sscanf_d
              (splitAndTrim (Getenv env "KUBE_SENTRY_THRESHOLDS"))
              DefaultEventThresholds) as [err|eventThresholds] eqn:Hth.
  { split; [|right; eauto]. split; [by intros [cfg ?]|].
    intros (_ & Hitems & _).
    apply loadThresholds_error in Hth as (item & p0 & p1 & Hin & Hsplit & Hbad & _).
    apply SplitN2_pair in Hsplit as [Hitem Hfree].
    by destruct (Hitems item p0 p1 Hin Hitem Hfree). }
  assert (forall item reason countStr,
             item ∈ splitAndTrim (Getenv env "KUBE_SENTRY_THRESHOLDS") ->
             item = reason +:+ ":" +:+ countStr -> free_of ":" reason ->
             parseThreshold Sscanf_d (TrimSpace countStr) <> None) as Hitems.
  { intros item reason countStr Hin Hitem Hfree Hbad.
    destruct (loadThresholds_rejects Sscanf_d _ DefaultEventThresholds
                item reason countStr Hin) as [err Herr]; [|done|congruence].
    by apply SplitN2_pair. }
  destruct (ParseDuration (getEnvOrDefault env "KUBE_SENTRY_DEDUP_WINDOW" "5m"))
    as [dedupWindow|] eqn:Hwindow.
  - split; [|left; eauto]. split; [done|eauto].
  - split; [|right; eauto]. split; [by intros [cfg ?]|].
    by intros (_ & _ & ?).
Qed.

(** X22.  Every error of [Load] names what is wrong.  The missing-DSN error
    is returned exactly when the run is no dry run and [SENTRY_DSN] is empty,
    whatever the other variables hold: this check comes first.  A threshold
    error carries the trimmed reason and the trimmed count of an item of
    [KUBE_SENTRY_THRESHOLDS] whose count [parseThreshold] rejects.  A
    window error carries the value that [time.ParseDuration] rejected. *)
Theorem Load_error_names_cause (env : gmap string string) (dryRun : bool) :
  ((Load Sscanf_d ParseDuration env dryRun = (None, Some ErrMissingDSN)) <->
   (dryRun = false /\ Getenv env "SENTRY_DSN" = EmptyString))
  /\ (forall reason countStr,
        Load Sscanf_d ParseDuration env dryRun
        = (None, Some (ErrInvalidThreshold reason countStr)) ->
        parseThreshold Sscanf_d countStr = None
        /\ exists item p0 p1,
             item ∈ splitAndTrim (Getenv env "KUBE_SENTRY_THRESHOLDS")
             /\ item = p0 +:+ ":" +:+ p1 /\ free_of ":" p0
             /\ reason = TrimSpace p0 /\ countStr = TrimSpace p1)
  /\ (forall value,
        Load Sscanf_d ParseDuration env dryRun
        = (None, Some (ErrInvalidDedupWindow value)) ->
        value = getEnvOrDefault env "KUBE_SENTRY_DEDUP_WINDOW" "5m"
        /\ ParseDuration value = None).
Proof.
  rewrite Load_eq.
  destruct (negb dryRun && bool_decide (Getenv env "SENTRY_DSN" = EmptyString))
    eqn:Hdsn.
  { split; [|by split].
    apply andb_true_iff in Hdsn as [Hdry Hempty].
    apply negb_true_iff in Hdry. by apply bool_decide_eq_true in Hempty. }
  assert (~ (dryRun = false /\ Getenv env "SENTRY_DSN" = EmptyString)) as Hno.
  { intros [-> Hempty]. by rewrite Hempty in Hdsn. }
  destruct (loadThresholds Sscanf_d
              (splitAndTrim (Getenv env "KUBE_SENTRY_THRESHOLDS"))
              DefaultEventThresholds) as [err|eventThresholds] eqn:Hth.
  { apply loadThresholds_error in Hth
      as (item & p0 & p1 & Hin & Hsplit & Hbad & ->).
    apply SplitN2_pair in Hsplit as [Hitem Hfree].
    split; [by split|]. split; [|done].
    intros reason countStr H. injection H as <- <-.
    split; [done|]. by exists item, p0, p1. }
  destruct (ParseDuration (getEnvOrDefault env "KUBE_SENTRY_DEDUP_WINDOW" "5m"))
    as [dedupWindow|] eqn:Hwindow.
  - split; [by split|]. by split.
  - split; [by split|]. split; [done|].
    intros value H. by injection H as <-.
Qed.

(** X23.  How [KUBE_SENTRY_THRESHOLDS] changes the thresholds of a
    configuration that [Load] returns: a reason that no item names keeps its
    default threshold, or none when it has no default; a reason that an
    item names gets the count of the last item that names it. *)
Theorem Load_thresholds_merge (env : gmap string string) (dryRun : bool)
  (cfg : Config) (reason : string) :
  Load Sscanf_d ParseDuration env dryRun = (Some cfg, None) ->
  ((forall item p0 p1,
       item ∈ splitAndTrim (Getenv env "KUBE_SENTRY_THRESHOLDS") ->
       item = p0 +:+ ":" +:+ p1 -> free_of ":" p0 -> TrimSpace p0 <> reason) ->
   EventThresholds cfg !! reason = DefaultEventThresholds !! reason)
  /\ (forall pre item post p0 p1,
        splitAndTrim (Getenv env "KUBE_SENTRY_THRESHOLDS") = pre ++ item :: post ->
        item = p0 +:+ ":" +:+ p1 -> free_of ":" p0 -> TrimSpace p0 = reason ->
        (forall item' q0 q1,
            item' ∈ post ->
            item' = q0 +:+ ":" +:+ q1 -> free_of ":" q0 -> TrimSpace q0 <> reason) ->
        exists count,
          parseThreshold Sscanf_d (TrimSpace p1) = Some count
          /\ EventThresholds cfg !! reason = Some count).
Proof.
  rewrite Load_eq. intros Hload.
  destruct (negb dryRun && bool_decide (Getenv env "SENTRY_DSN" = EmptyString));
    [done|].
  destruct (loadThresholds Sscanf_d
              (splitAndTrim (Getenv env "KUBE_SENTRY_THRESHOLDS"))
              DefaultEventThresholds) as [err|eventThresholds] eqn:Hth; [done|].
  destruct (ParseDuration (getEnvOrDefault env "KUBE_SENTRY_DEDUP_WINDOW" "5m"));
    [|done].
  injection Hload as <-. cbn [EventThresholds]. split.
  - intros Hother. apply (loadThresholds_other reason _ _ _ Hth).
    intros item p0 p1 Hin Hsplit. apply SplitN2_pair in Hsplit as [Hitem Hfree].
    by apply (Hother item p0 p1).
  - intros pre item post p0 p1 Hitems Hitem Hfree Hreason Hlater.
    rewrite Hitems, loadThresholds_app in Hth.
    destruct (loadThresholds Sscanf_d pre DefaultEventThresholds)
      as [err|thresholds1]; [done|].
    cbn [loadThresholds] in Hth.
    rewrite (proj2 (SplitN2_pair item p0 p1) (conj Hitem Hfree)) in Hth.
    destruct (parseThreshold Sscanf_d (TrimSpace p1)) as [count|]; [|done].
    exists count. split; [done|].
    rewrite (loadThresholds_other reason _ _ _ Hth).
    + rewrite Hreason. apply lookup_insert_eq.
    + intros item' q0 q1 Hin Hsplit. apply SplitN2_pair in Hsplit as [Hq Hqfree].
      by apply (Hlater item' q0 q1).
Qed.

(** [Load] returns a configuration or an error, never both and never
    neither. *)
Lemma Load_config_or_error (env : gmap string string) (dryRun : bool) :
  (exists cfg, Load Sscanf_d ParseDuration env dryRun = (Some cfg, None))
  \/ (exists err, Load Sscanf_d ParseDuration env dryRun = (None, Some err)).
Proof.
  rewrite Load_eq.
  destruct (negb dryRun && bool_decide (Getenv env "SENTRY_DSN" = EmptyString));
    [right; eauto|].
  destruct (loadThresholds Sscanf_d
              (splitAndTrim (Getenv env "KUBE_SENTRY_THRESHOLDS"))
              DefaultEventThresholds); [right; eauto|].
  destruct (ParseDuration (getEnvOrDefault env "KUBE_SENTRY_DEDUP_WINDOW" "5m"));
    [left|right]; eauto.
Qed.

(** X24.  How the first steps of [main] end: with [--version] it exits with
    0 and does not look at the environment; otherwise it exits with 1
    exactly when [Load] returns an error, and goes on with the configuration
    that [Load] returns when there is none.  It exits with no other code,
    and it never goes on with a nil configuration (a dereference of which
    would be a run-time panic). *)
Theorem startup_outcomes (env : gmap string string) (showVer dryRun : bool) :
  Main.startup Sscanf_d ParseDuration env showVer dryRun <> Main.Panic
  /\ ((Main.startup Sscanf_d ParseDuration env showVer dryRun = Main.Exit 0)
      <-> (showVer = true))
  /\ ((Main.startup Sscanf_d ParseDuration env showVer dryRun = Main.Exit 1)
      <-> (showVer = false
           /\ exists err,
                Load Sscanf_d ParseDuration env dryRun = (None, Some err)))
  /\ (forall code,
        Main.startup Sscanf_d ParseDuration env showVer dryRun = Main.Exit code ->
        code = 0 \/ code = 1)
  /\ (forall cfg,
        (Main.startup Sscanf_d ParseDuration env showVer dryRun = Main.Continue cfg)
        <-> (showVer = false
             /\ Load Sscanf_d ParseDuration env dryRun = (Some cfg, None))).
Proof.
  unfold Main.startup. destruct showVer.
  { split; [done|]. split; [done|]. split; [by split; [|intros [? _]]|].
    split; [intros code H; injection H as <-; by left|].
    intros cfg. by split; [|intros [? _]]. }
  destruct (Load_config_or_error env dryRun) as [[cfg ->]|[err ->]].
  - split; [done|]. split; [done|].
    split; [split; [done|by intros [_ [err ?]]]|].
    split; [done|]. intros cfg'. split.
    + intros H. by injection H as <-.
    + intros [_ H]. by injection H as <-.
  - split; [done|]. split; [done|].
    split; [split; [eauto|done]|].
    split; [intros code H; injection H as <-; by right|].
    intros cfg. by split; [|intros [_ ?]].
Qed.

(** Every reason that is watched by default has a default threshold between
    1 and 5 and a severity of [error] or [warning]. *)
Lemma default_reason_tables (reason : string) :
  reason ∈ DefaultEventReasons ->
  exists threshold,
    DefaultEventThresholds !! reason = Some threshold
    /\ 1 <= threshold <= 5
    /\ (Filter.defaultSeverityMap !! reason = Some Filter.LevelError
        \/ Filter.defaultSeverityMap !! reason = Some Filter.LevelWarning).
Proof.
  intros H. unfold DefaultEventReasons in H.
  repeat (apply elem_of_cons in H as [->|H];
          [eexists; split; [vm_compute; reflexivity|];
           split; [lia|]; vm_compute; auto|]).
  inversion H.
Qed.

(** X25.  The filter of a deployment that sets none of the four list
    variables.  It accepts an event exactly when the event is a warning, its
    effective namespace is not [kube-system], and its reason is one of the
    default reasons.  Every event it accepts has a configured threshold,
    between 1 and 5, that its count is compared with, and a severity of
    [error] or [warning]: the three tables of defaults agree on the reasons
    they cover. *)
Theorem default_configuration_filter (env : gmap string string) (dryRun : bool)
  (cfg : Config) (e : K8s.Event) :
  Load Sscanf_d ParseDuration env dryRun = (Some cfg, None) ->
  Getenv env "KUBE_SENTRY_NAMESPACES" = EmptyString ->
  Getenv env "KUBE_SENTRY_EXCLUDE_NAMESPACES" = EmptyString ->
  Getenv env "KUBE_SENTRY_EVENTS" = EmptyString ->
  Getenv env "KUBE_SENTRY_THRESHOLDS" = EmptyString ->
  let f := MainSetup.eventFilter cfg in
  ((Filter.ShouldProcess f e = true) <->
   (effectiveNamespace e <> "kube-system"
    /\ K8s.Reason e ∈ DefaultEventReasons
    /\ K8s.Type_ e = "Warning"))
  /\ (Filter.ShouldProcess f e = true ->
      exists threshold,
        Filter.eventThresholds f !! K8s.Reason e = Some threshold
        /\ 1 <= threshold <= 5
        /\ Filter.MeetsThreshold f e = (threshold <=? K8s.Count e)
        /\ (Filter.GetSeverity f (K8s.Reason e) = Filter.LevelError
            \/ Filter.GetSeverity f (K8s.Reason e) = Filter.LevelWarning)).
Proof.
  rewrite Load_eq. intros Hload Hns Hexcl Hevents Hth f.
  assert (f = Filter.New [] ["kube-system"] DefaultEventReasons
                DefaultEventThresholds) as Hf.
  { unfold f. clear f.
    destruct (negb dryRun && bool_decide (Getenv env "SENTRY_DSN" = EmptyString));
      [done|].
    rewrite Hth in Hload. cbn [loadThresholds] in Hload.
    change (splitAndTrim EmptyString) with (@nil string) in Hload.
    cbn [loadThresholds] in Hload.
    destruct (ParseDuration (getEnvOrDefault env "KUBE_SENTRY_DEDUP_WINDOW" "5m"));
      [|done].
    injection Hload as <-. unfold MainSetup.eventFilter.
    cbn [Namespaces ExcludeNamespaces EventReasons EventThresholds].
    by rewrite Hns, Hexcl, Hevents. }
  assert ((Filter.ShouldProcess f e = true) <->
          (effectiveNamespace e <> "kube-system"
           /\ K8s.Reason e ∈ DefaultEventReasons
           /\ K8s.Type_ e = "Warning")) as Hiff.
  { rewrite Hf, ShouldProcess_eq, !andb_true_iff, !negb_true_iff,
      andb_false_iff, negb_false_iff, !bool_decide_eq_true, bool_decide_eq_false.
    cbn [Filter.New Filter.namespaces Filter.excludeNamespaces Filter.eventReasons].
    rewrite !toSet_elem, toSet_size, list_elem_of_singleton.
    unfold K8s.EventTypeWarning. split; [tauto|].
    intros (? & ? & ?). split; [split; [split; [by left|done]|done]|done]. }
  split; [exact Hiff|].
  intros Hsp. apply Hiff in Hsp as (_ & Hreason & _).
  destruct (default_reason_tables _ Hreason) as (threshold & Hthr & Hrange & Hsev).
  exists threshold. rewrite Hf.
  unfold Filter.MeetsThreshold, Filter.GetSeverity.
  cbn [Filter.New Filter.eventThresholds Filter.severityMap].
  rewrite Hthr. split; [done|]. split; [done|]. split; [done|].
  destruct Hsev as [-> | ->]; auto.
Qed.

End MoreConfig.

(** ** The properties of this part at concrete inputs *)

Section MoreInstances.

Import Examples MoreExamples.

(** A hit on the one entry of the cache at time 7, read back at time 100. *)
Lemma GetStats_after_Check_witness :
  Dedup.GetStats (fst (Dedup.Check one_entry "default" "my-pod" "OOMKilled" 7))
    "default" "my-pod" "OOMKilled" 100
  = (2, 0, 7, true).
Proof.
  apply (GetStats_after_Check one_entry "default" "my-pod" "OOMKilled" 7
           (fst (Dedup.Check one_entry "default" "my-pod" "OOMKilled" 7)) false).
  - reflexivity.
  - simpl. lia.
Defined.

(** A cache at its capacity meets a key it does not know: the entry under
    the head of [order] goes. *)
Lemma Check_evicts_head_of_order_witness :
  Dedup.Size full_cache = Dedup.MaxEntries
  /\ Dedup.Check full_cache "ns" "pod" "r" 7 =
       ({| Dedup.window := 300;
           Dedup.entries :=
             <["ns/pod/r" := DedupSpec.fresh "ns/pod/r" 7 300]>
               (delete (key_of 0) (Dedup.entries full_cache));
           Dedup.order :=
             map key_of (seq 1 (Z.to_nat Dedup.MaxEntries - 1)) ++ ["ns/pod/r"] |},
        (true, 1, 7, 7)).
Proof.
  split; [vm_compute; reflexivity|].
  apply (Check_evicts_head_of_order full_cache "ns" "pod" "r" 7 (key_of 0)
           (map key_of (seq 1 (Z.to_nat Dedup.MaxEntries - 1)))).
  - vm_compute. reflexivity.
  - vm_compute. reflexivity.
  - exists (entry_of 0). vm_compute. reflexivity.
  - vm_compute. reflexivity.
Defined.

(** After a hit at time 7 the window ends at 307: a [Check] at that time
    finds the triple new again. *)
Lemma Check_after_quiet_window_witness :
  (exists d'',
      Dedup.Check (fst (Dedup.Check one_entry "default" "my-pod" "OOMKilled" 7))
        "default" "my-pod" "OOMKilled" 307
      = (d'', (true, 1, 307, 307)))
  /\ Dedup.GetStats (fst (Dedup.Check one_entry "default" "my-pod" "OOMKilled" 7))
       "default" "my-pod" "OOMKilled" 307
     = (0, 0, 0, false).
Proof.
  apply (Check_after_quiet_window one_entry "default" "my-pod" "OOMKilled" 7
           (fst (Dedup.Check one_entry "default" "my-pod" "OOMKilled" 7))
           (false, 2, 0, 7) 307).
  - reflexivity.
  - simpl. lia.
Defined.

(** A sweep at time 400 removes the one entry, which expired at 300; a
    [GetStats] at time 500 does not tell. *)
Lemma GetStats_after_cleanup_witness :
  Dedup.GetStats (Dedup.cleanup one_entry 400) "default" "my-pod" "OOMKilled" 500
  = Dedup.GetStats one_entry "default" "my-pod" "OOMKilled" 500.
Proof.
  apply (GetStats_after_cleanup one_entry 400 "default" "my-pod" "OOMKilled" 500).
  lia.
Defined.

(** A [Check] for another pod leaves the entry of [my-pod] as it is. *)
Lemma Check_leaves_other_keys_witness :
  Dedup.entries (fst (Dedup.Check one_entry "default" "other-pod" "OOMKilled" 7))
    !! "default/my-pod/OOMKilled"
  = Dedup.entries one_entry !! "default/my-pod/OOMKilled"
  /\ Dedup.Size (fst (Dedup.Check one_entry "default" "other-pod" "OOMKilled" 7))
     <= Dedup.Size one_entry + 1.
Proof.
  apply (Check_leaves_other_keys one_entry "default" "other-pod" "OOMKilled" 7
           "default/my-pod/OOMKilled").
  - vm_compute. reflexivity.
  - vm_compute. discriminate.
Defined.

(** With a window of 0, the second sighting at the same instant is new. *)
Lemma nonpositive_window_never_dedups_witness :
  snd (Dedup.Check
         (Dedup.run (Dedup.New 0) [Dedup.OpCheck "default" "my-pod" "OOMKilled" 5])
         "default" "my-pod" "OOMKilled" 5)
  = (true, 1, 5, 5).
Proof.
  apply (nonpositive_window_never_dedups 0
           [Dedup.OpCheck "default" "my-pod" "OOMKilled" 5]
           "default" "my-pod" "OOMKilled" 5).
  - lia.
  - simpl. split; [lia|exact I].
Defined.

(** Three hits after a creation at time 0, the last one 399 after it: each
    lies within the window of 300 that the one before it opened. *)
Lemma consecutive_checks_count_witness :
  snd (MoreSpec.checks
         (fst (Dedup.Check (Dedup.New 300) "default" "my-pod" "OOMKilled" 0))
         "default" "my-pod" "OOMKilled" [7; 100; 399])
  = [(false, 2, 0, 7); (false, 3, 0, 100); (false, 4, 0, 399)].
Proof.
  apply (consecutive_checks_count (Dedup.New 300) "default" "my-pod" "OOMKilled" 0
           (fst (Dedup.Check (Dedup.New 300) "default" "my-pod" "OOMKilled" 0))
           1 0 0 [7; 100; 399]).
  - reflexivity.
  - simpl. lia.
  - simpl. lia.
Defined.

(** Two pods of the deployment [worker], before and after a rollout. *)
Lemma ExtractDeploymentName_of_rollout_witness :
  Sentry.ExtractDeploymentName ("worker" +:+ "-" +:+ "79c6dd4b57" +:+ "-" +:+ "wcdzt")
  = "worker".
Proof.
  apply (ExtractDeploymentName_of_rollout "worker" "79c6dd4b57" "wcdzt").
  - split; [simpl; lia|].
    unfold EventSpec.lowercase_alphanumeric, EventSpec.lower_or_digit. simpl.
    repeat constructor; vm_compute; intuition discriminate.
  - split; [simpl; lia|].
    unfold EventSpec.lowercase_alphanumeric, EventSpec.lower_or_digit. simpl.
    repeat constructor; vm_compute; intuition discriminate.
Defined.

(** The warning about a pod of [worker], then one about a pod of the next
    replica set of [worker] 7 later, counted 7 times by the cluster and above
    the threshold of 5: no issue. *)
Lemma repeated_event_creates_no_issue_witness :
  Filter.MeetsThreshold filter_unhealthy unhealthy_again = true
  /\ exists d2 data1 data2,
       Watcher.processEvent filter_unhealthy
         (Watcher.processEvent filter_unhealthy watcher_start unhealthy_event 0)
         unhealthy_again 7
       = {| Watcher.dedup := d2; Watcher.sent := [] ++ [data1; data2] |}
       /\ Sentry.Event data1 = unhealthy_event
       /\ Sentry.Event data2 = unhealthy_again
       /\ Sentry.MeetsThreshold data2 = false
       /\ (forall host, SentrySend.Send host data2 = None)
       /\ Sentry.Count data2 = GoInt.incr (Sentry.Count data1)
       /\ Sentry.FirstSeen data2 = Sentry.FirstSeen data1
       /\ Sentry.LastSeen data2 = 7.
Proof.
  split; [reflexivity|].
  apply (repeated_event_creates_no_issue filter_unhealthy watcher_start
           unhealthy_event unhealthy_again 0 7).
  - reflexivity.
  - reflexivity.
  - reflexivity.
  - simpl. lia.
Defined.

(** An added event and a bookmark, then the context is done. *)
Lemma watchEvents_until_terminal_witness :
  WatcherLoop.watchEvents filter_unhealthy watcher_start (Some two_passes)
  = (WatcherLoop.listLoop filter_unhealthy watcher_start
       (MoreSpec.delivered two_passes), None)
  /\ (forall s post,
        MoreSpec.terminal s ->
        exists err,
          WatcherLoop.watchEvents filter_unhealthy watcher_start
            (Some (two_passes ++ s :: post))
          = (WatcherLoop.listLoop filter_unhealthy watcher_start
               (MoreSpec.delivered two_passes), Some err)).
Proof.
  apply (watchEvents_until_terminal filter_unhealthy watcher_start two_passes).
  intros s Hs. unfold two_passes in Hs.
  apply elem_of_cons in Hs as [->|Hs]; [simpl; discriminate|].
  apply elem_of_cons in Hs as [->|Hs]; [simpl; discriminate|].
  inversion Hs.
Defined.

(** [BackOff:2,BackOff:7]: the threshold of [BackOff] is 7, the one of
    [Unhealthy] stays at its default. *)
Lemma Load_thresholds_merge_witness :
  match Config.Load GoFmt.Sscanf_d GoTime.ParseDuration_tested
          env_backoff_twice false with
  | (Some cfg, None) =>
      Config.EventThresholds cfg !! "Unhealthy" = Some 5
      /\ Config.EventThresholds cfg !! "BackOff" = Some 7
  | _ => False
  end.
Proof.
  destruct (Config.Load GoFmt.Sscanf_d GoTime.ParseDuration_tested
              env_backoff_twice false) as [[cfg|] [err|]] eqn:Hload;
    try (vm_compute in Hload; discriminate).
  split.
  - rewrite (proj1 (Load_thresholds_merge GoFmt.Sscanf_d GoTime.ParseDuration_tested
                      env_backoff_twice false cfg "Unhealthy" Hload));
      [reflexivity|].
    intros item p0 p1 Hin Hitem Hfree.
    pose proof (proj2 (SplitN2_pair item p0 p1) (conj Hitem Hfree)) as Hs.
    change (item ∈ ["BackOff:2"; "BackOff:7"]) in Hin.
    apply elem_of_cons in Hin as [->|Hin];
      [|apply elem_of_cons in Hin as [->|Hin]; [|inversion Hin]];
      vm_compute in Hs; injection Hs as <- _; vm_compute; discriminate.
  - destruct (proj2 (Load_thresholds_merge GoFmt.Sscanf_d GoTime.ParseDuration_tested
                       env_backoff_twice false cfg "BackOff" Hload)
                ["BackOff:2"] "BackOff:7" [] "BackOff" "7")
      as (count & Hcount & Hlookup).
    + reflexivity.
    + reflexivity.
    + unfold EventSpec.free_of. simpl. repeat constructor; discriminate.
    + reflexivity.
    + intros item' q0 q1 Hin. inversion Hin.
    + vm_compute in Hcount. injection Hcount as <-. exact Hlookup.
Defined.

(** A burst of three warnings of the group of [worker]; the first is below
    the threshold, so the burst creates no issue. *)
Lemma only_first_of_burst_can_alert_witness :
  exists data0 rest,
    Watcher.sent
      (WatcherLoop.listLoop filter_unhealthy
         (Watcher.processEvent filter_unhealthy watcher_start unhealthy_event 0)
         [(unhealthy_again, 7); (unhealthy_again, 100)])
    = [] ++ data0 :: rest
    /\ Sentry.Event data0 = unhealthy_event
    /\ (Filter.MeetsThreshold filter_unhealthy unhealthy_event = false ->
        Sentry.MeetsThreshold data0 = false)
    /\ map Sentry.Event rest = [unhealthy_again; unhealthy_again]
    /\ Forall (fun data => Sentry.MeetsThreshold data = false
                           /\ forall host, SentrySend.Send host data = None) rest.
Proof.
  apply (only_first_of_burst_can_alert filter_unhealthy watcher_start
           unhealthy_event 0 [(unhealthy_again, 7); (unhealthy_again, 100)]).
  - reflexivity.
  - repeat constructor.
  - simpl. lia.
Defined.

(** A watcher at its start, a watch of two passes and a listing of one
    event. *)
Lemma watcher_keeps_cache_bounded_witness :
  (DedupSpec.bounded
     (Watcher.dedup
        (fst (WatcherLoop.watchEvents filter_unhealthy watcher_start
                (Some two_passes))))
   /\ Dedup.Size
        (Watcher.dedup
           (fst (WatcherLoop.watchEvents filter_unhealthy watcher_start
                   (Some two_passes))))
      <= Dedup.MaxEntries)
  /\ (DedupSpec.bounded
        (Watcher.dedup
           (fst (WatcherLoop.ListOnce filter_unhealthy watcher_start
                   (Some [(unhealthy_event, 0)]))))
      /\ Dedup.Size
           (Watcher.dedup
              (fst (WatcherLoop.ListOnce filter_unhealthy watcher_start
                      (Some [(unhealthy_event, 0)]))))
         <= Dedup.MaxEntries)
  /\ (forall cfg, DedupSpec.bounded (Watcher.dedup (MainSetup.eventWatcher cfg))).
Proof.
  apply (watcher_keeps_cache_bounded filter_unhealthy watcher_start
           (Some two_passes) (Some [(unhealthy_event, 0)])).
  split.
  - intros k [e He]. vm_compute in He. discriminate.
  - vm_compute. discriminate.
Defined.

(** A deployment that sets the DSN only, and the warning about [worker]:
    accepted, with the threshold 5 of [Unhealthy]. *)
Lemma default_configuration_filter_witness :
  match Config.Load GoFmt.Sscanf_d GoTime.ParseDuration_tested env_dsn_only false with
  | (Some cfg, None) =>
      Filter.ShouldProcess (MainSetup.eventFilter cfg) unhealthy_event = true
      /\ Filter.eventThresholds (MainSetup.eventFilter cfg) !! "Unhealthy" = Some 5
  | _ => False
  end.
Proof.
  destruct (Config.Load GoFmt.Sscanf_d GoTime.ParseDuration_tested
              env_dsn_only false) as [[cfg|] [err|]] eqn:Hload;
    try (vm_compute in Hload; discriminate).
  destruct (default_configuration_filter GoFmt.Sscanf_d
              GoTime.ParseDuration_tested env_dsn_only false cfg
              unhealthy_event Hload eq_refl eq_refl eq_refl eq_refl)
    as [Hiff Hthreshold].
  assert (Filter.ShouldProcess (MainSetup.eventFilter cfg) unhealthy_event = true)
    as Hsp.
  { apply Hiff. split; [vm_compute; discriminate|]. split; [|reflexivity].
    unfold Config.DefaultEventReasons. cbn [K8s.Reason unhealthy_event].
    do 6 apply list_elem_of_further. apply list_elem_of_here. }
  split; [exact Hsp|].
  destruct (Hthreshold Hsp) as (threshold & Hlookup & _ & Hmeets & _).
  cbn [K8s.Reason unhealthy_event] in Hlookup. rewrite Hlookup. f_equal.
  vm_compute in Hload. injection Hload as <-.
  vm_compute in Hlookup. by injection Hlookup as <-.
Defined.

End MoreInstances.
